(** * StyleGANv2-ADA training iteration of miemieGAN: a shallow embedding

    Sources embedded here:
    - [mmgan/models/architectures/styleganv2ada_model.py]
      ([StyleGANv2ADAModel.__init__], [run_G], [accumulate_gradients],
      [train_iter]; [no_weight_gradients], [soft_update], the image
      conversion of [test_iter] and the style replacement of
      [style_mixing]);
    - [mmgan/core/trainer.py] ([Trainer.before_train], both branches and the
      epoch count; [train_in_iter], [progress_in_iter] and the [left_iters]
      of [after_iter]).

    Conventions.
    - Python integers are [Z]; Python and tensor floating-point numbers are
      idealised as exact rationals [Q] (so rounding, infinities and NaN are
      outside the model); equalities between computed numbers are therefore
      stated with [Qeq] ([==]).
    - A tensor is the list of its rows (first dimension); a row is the list
      of its entries.  A network parameter or buffer is the flat list of its
      entries.
    - Python dictionaries with string keys are [gmap string _].
    - A raised Python exception is the [Raise] result of the [Res] monad;
      no state is kept after a raise (the trainer re-raises and stops).
    - The neural networks, autograd and the optimizers are external: they
      are the fields of the record [Env]. *)

From Stdlib Require Import ZArith QArith Qminmax Qround String Ascii List Lia Lqa.
From stdpp Require Import base option list strings pretty gmap fin_maps.

Local Open Scope string_scope.
Local Open Scope list_scope.
Local Open Scope Z_scope.

(** ** Exceptions and results *)

Inductive exn : Type :=
| FileNotFoundError (path : string)
| KeyError (key : string)
| ZeroDivisionError
| UnboundLocalError (var : string)
| IndexError
| TypeError
| ValueError
| RuntimeError
| AttributeError
| AssertionError.

Inductive Res (A : Type) : Type :=
| Ok (a : A)
| Raise (e : exn).
Arguments Ok {A} a.
Arguments Raise {A} e.

Definition bind {A B} (r : Res A) (k : A -> Res B) : Res B :=
  match r with
  | Ok a => k a
  | Raise e => Raise e
  end.

Declare Scope res_scope.
Delimit Scope res_scope with res.
Notation "'do' x <- r ; k" := (bind r (fun x => k))
  (at level 10, x name, r at level 100, k at level 200) : res_scope.
Notation "'do' ( x , y ) <- r ; k" := (bind r (fun '(x, y) => k))
  (at level 10, x name, y name, r at level 100, k at level 200) : res_scope.
Notation "'run' r ; k" := (bind r (fun _ => k))
  (at level 10, r at level 100, k at level 200) : res_scope.
Local Open Scope res_scope.

(** ** Phase schedule ([StyleGANv2ADAModel.__init__], lines 83-89) *)

Record Phase : Type := mkPhase { name : string; interval : Z }.

(** The body of the constructor's loop: what one (name, reg_interval) pair
    appends to [self.phases]. *)
Definition append_role (phases : list Phase) (role : string * option Z) : list Phase :=
  let '(role_name, reg_interval) := role in
  match reg_interval with
  | None => phases ++ [mkPhase (role_name +:+ "both") 1]
  | Some k =>
      (phases ++ [mkPhase (role_name +:+ "main") 1])
        ++ [mkPhase (role_name +:+ "reg") k]
  end.

Definition build_phases (G_reg_interval D_reg_interval : option Z) : list Phase :=
  fold_left append_role [("G", G_reg_interval); ("D", D_reg_interval)] [].

(** The schedule of one role in the words of the specification. *)
Definition spec_role_schedule (role : string) (reg_interval : option Z) : list Phase :=
  match reg_interval with
  | None => [mkPhase (role +:+ "both") 1]
  | Some k => [mkPhase (role +:+ "main") 1; mkPhase (role +:+ "reg") k]
  end.

(** ** Numbers, tensors and the Python operators used by the source *)

Definition Row : Type := list Q.
Definition Tensor : Type := list Row.

(** [t.shape[0]] and [t.shape[1]]; the second dimension of a tensor without
    rows is not represented and reads as 0. *)
Definition shape0 {A} (t : list A) : Z := Z.of_nat (length t).
Definition shape1 {A} (t : list (list A)) : Z :=
  match t with
  | [] => 0
  | r :: _ => Z.of_nat (length r)
  end.

(** Python [a // b] and [a % b] on integers: floor division, the sign of the
    remainder follows the divisor, a zero divisor raises. *)
Definition floordiv (a b : Z) : Res Z :=
  if b =? 0 then Raise ZeroDivisionError else Ok (a / b).
Definition pymod (a b : Z) : Res Z :=
  if b =? 0 then Raise ZeroDivisionError else Ok (a mod b).

Definition Qlt_bool (x y : Q) : bool := negb (Qle_bool y x).

(** Builtin [min] and [max] on two numbers. *)
Definition pymin (x y : Q) : Q := if Qlt_bool y x then y else x.
Definition pymax (x y : Q) : Q := if Qlt_bool x y then y else x.

(** [np.sign]. *)
Definition sign (x : Q) : Q :=
  if Qlt_bool 0 x then 1%Q else if Qlt_bool x 0 then (-1)%Q else 0%Q.

Definition Qsum (l : list Q) : Q := fold_right Qplus 0%Q l.

(** [np.mean] of an array given by its entries (numpy answers nan for an
    array without entries; here the quotient by zero is 0). *)
Definition mean (l : list Q) : Q := (Qsum l / inject_Z (shape0 l))%Q.

(** [torch.lerp(start, end, weight) = start + weight * (end - start)],
    entrywise on tensors of one shape. *)
Definition lerp (start end_ weight : Q) : Q := (start + weight * (end_ - start))%Q.
Definition lerp_tensor (start end_ : list Q) (weight : Q) : list Q :=
  zip_with (fun s e => lerp s e weight) start end_.

(** [torch.split(t, split_size)] along the first dimension: consecutive
    chunks of [split_size] rows, the last one possibly shorter; a tensor
    without rows gives one empty chunk; a zero [split_size] is accepted only
    for a tensor without rows. *)
Fixpoint chunk {A} (fuel k : nat) (t : list A) : list (list A) :=
  match fuel, t with
  | S fuel', _ :: _ => take k t :: chunk fuel' k (drop k t)
  | _, _ => []
  end.

Definition split {A} (t : list A) (split_size : Z) : Res (list (list A)) :=
  if split_size <? 0 then Raise RuntimeError
  else match t with
       | [] => Ok [t]
       | _ :: _ =>
           if split_size =? 0 then Raise RuntimeError
           else Ok (chunk (length t) (Z.to_nat split_size) t)
       end.

(** ['%.<prec>d' % z]: decimal digits, left-padded with zeros to [prec]
    digits, after the sign. *)
Definition fmt_d (prec : nat) (z : Z) : string :=
  let digits := pretty (Z.abs_N z) in
  let padded := string_of_list_ascii
                  (replicate (prec - String.length digits) "0"%char) +:+ digits in
  if z <? 0 then "-" +:+ padded else padded.

(** [c in s] for a one-character string [c]. *)
Fixpoint contains (c : ascii) (s : string) : bool :=
  match s with
  | EmptyString => false
  | String c' s' => if Ascii.eqb c c' then true else contains c s'
  end.

(** [x is not None]. *)
Definition is_not_None {A} (x : option A) : bool :=
  match x with
  | Some _ => true
  | None => false
  end.

(** [x in l] for a list of strings. *)
Definition in_list (x : string) (l : list string) : bool :=
  existsb (String.eqb x) l.

(** ** Networks, model state and the arguments of one accumulation round *)

Record Network : Type := mkNetwork {
  parameters : list (list Q);
  buffers : list (list Q);
  attr_c_dim : Z;
  attr_z_dim : Z;
  attr_w_dim : Z
}.

Record AugmentPipe : Type := mkAugmentPipe { p : Q }.

(** A [.npz] archive as opened by [np.load]: array name to array. *)
Abbreviation Npz := (gmap string Tensor).

(** Conditioning labels as the loops hand them on: a tensor, [None], or a
    list [[None] * n]. *)
Inductive LabelArg : Type :=
| LabTensor (t : Tensor)
| LabNone
| LabNoneList (n : nat).

Record Model : Type := mkModel {
  synthesis : Network;
  synthesis_ema : Network;
  mapping : Network;
  mapping_ema : Network;
  discriminator : option Network;
  c_dim : Z;
  z_dim : Z;
  w_dim : Z;
  phases : list Phase;
  cur_nimg : Z;
  batch_idx : Z;
  augment_pipe : option AugmentPipe;
  style_mixing_prob : Q;
  r1_gamma : Q;
  pl_batch_shrink : Z;
  pl_decay : Q;
  pl_weight : Q;
  pl_mean : option Q;
  ema_kimg : Q;
  ema_rampup : option Q;
  augment_p : Q;
  ada_kimg : Q;
  ada_target : option Q;
  ada_interval : Z;
  adjust_p : bool;
  Loss_signs_real : list (list Q);
  align_grad : bool;
  is_distributed : bool
}.

Record AccArgs : Type := mkAccArgs {
  a_phase : string;
  a_real_img : Tensor;
  a_real_c : LabelArg;
  a_gen_z : Tensor;
  a_gen_c : LabelArg;
  a_sync : bool;
  a_gain : Z;
  a_dic2 : option Npz
}.

(** The live networks, as one value. *)
Record Nets : Type := mkNets {
  n_mapping : Network;
  n_synthesis : Network;
  n_discriminator : option Network
}.

(** Style codes [ws]: batch x layers x w_dim. *)
Definition Ws : Type := list (list Row).

(** Calls recorded while one iteration runs, in program order. *)
Inductive Event : Type :=
| EvZeroGrad (optimizer : string)
| EvAccumulate (a : AccArgs)
| EvStep (optimizer : string).

(** ** The environment: everything the source calls but does not define

    [fpow x y] is [x ** y] on floats; [files] are the archives [np.load] can
    open, by path; [sys_gettrace] tells whether a debugger is attached;
    [randn], [random_], [rand], [randn_like] are the random draws;
    [mapping_forward] and [synthesis_forward] are the forward passes of the
    networks; [forward_backward] gives the live networks after the forward
    and backward passes of one accumulation round; [loss_term],
    [pl_lengths_mean] and [real_logits_sign] are the values computed from
    the logits there; [optimizer_step] gives the live networks after
    [optimizer.step()].  Each stands for the outcome of that call on the
    run considered. *)
Record Env : Type := mkEnv {
  fpow : Q -> Q -> Q;
  files : gmap string Npz;
  sys_gettrace : bool;
  randn : Z -> Z -> Tensor;
  random_ : Z -> Z -> Z;
  rand : Q;
  randn_like : Tensor -> Tensor;
  mapping_forward : Network -> Tensor -> LabelArg -> bool -> Ws;
  synthesis_forward : Network -> Ws -> Tensor;
  forward_backward : AccArgs -> Model -> Nets;
  loss_term : string -> AccArgs -> Model -> Q;
  pl_lengths_mean : AccArgs -> Model -> Q;
  real_logits_sign : AccArgs -> Model -> list Q;
  optimizer_step : string -> Model -> Nets
}.

(** ** Field updates of [self] *)

Definition set_nets (n : Nets) (m : Model) : Model :=
  mkModel (n_synthesis n) (synthesis_ema m) (n_mapping n) (mapping_ema m)
    (n_discriminator n) (c_dim m) (z_dim m) (w_dim m) (phases m) (cur_nimg m)
    (batch_idx m) (augment_pipe m) (style_mixing_prob m) (r1_gamma m)
    (pl_batch_shrink m) (pl_decay m) (pl_weight m) (pl_mean m) (ema_kimg m)
    (ema_rampup m) (augment_p m) (ada_kimg m) (ada_target m) (ada_interval m)
    (adjust_p m) (Loss_signs_real m) (align_grad m) (is_distributed m).

Definition set_pl_mean (v : option Q) (m : Model) : Model :=
  mkModel (synthesis m) (synthesis_ema m) (mapping m) (mapping_ema m)
    (discriminator m) (c_dim m) (z_dim m) (w_dim m) (phases m) (cur_nimg m)
    (batch_idx m) (augment_pipe m) (style_mixing_prob m) (r1_gamma m)
    (pl_batch_shrink m) (pl_decay m) (pl_weight m) v (ema_kimg m)
    (ema_rampup m) (augment_p m) (ada_kimg m) (ada_target m) (ada_interval m)
    (adjust_p m) (Loss_signs_real m) (align_grad m) (is_distributed m).

Definition set_Loss_signs_real (v : list (list Q)) (m : Model) : Model :=
  mkModel (synthesis m) (synthesis_ema m) (mapping m) (mapping_ema m)
    (discriminator m) (c_dim m) (z_dim m) (w_dim m) (phases m) (cur_nimg m)
    (batch_idx m) (augment_pipe m) (style_mixing_prob m) (r1_gamma m)
    (pl_batch_shrink m) (pl_decay m) (pl_weight m) (pl_mean m) (ema_kimg m)
    (ema_rampup m) (augment_p m) (ada_kimg m) (ada_target m) (ada_interval m)
    (adjust_p m) v (align_grad m) (is_distributed m).

Definition set_ema (new_mapping_ema new_synthesis_ema : Network) (m : Model) : Model :=
  mkModel (synthesis m) new_synthesis_ema (mapping m) new_mapping_ema
    (discriminator m) (c_dim m) (z_dim m) (w_dim m) (phases m) (cur_nimg m)
    (batch_idx m) (augment_pipe m) (style_mixing_prob m) (r1_gamma m)
    (pl_batch_shrink m) (pl_decay m) (pl_weight m) (pl_mean m) (ema_kimg m)
    (ema_rampup m) (augment_p m) (ada_kimg m) (ada_target m) (ada_interval m)
    (adjust_p m) (Loss_signs_real m) (align_grad m) (is_distributed m).

Definition set_counters (new_cur_nimg new_batch_idx : Z) (m : Model) : Model :=
  mkModel (synthesis m) (synthesis_ema m) (mapping m) (mapping_ema m)
    (discriminator m) (c_dim m) (z_dim m) (w_dim m) (phases m) new_cur_nimg
    new_batch_idx (augment_pipe m) (style_mixing_prob m) (r1_gamma m)
    (pl_batch_shrink m) (pl_decay m) (pl_weight m) (pl_mean m) (ema_kimg m)
    (ema_rampup m) (augment_p m) (ada_kimg m) (ada_target m) (ada_interval m)
    (adjust_p m) (Loss_signs_real m) (align_grad m) (is_distributed m).

Definition set_augment_pipe (v : option AugmentPipe) (m : Model) : Model :=
  mkModel (synthesis m) (synthesis_ema m) (mapping m) (mapping_ema m)
    (discriminator m) (c_dim m) (z_dim m) (w_dim m) (phases m) (cur_nimg m)
    (batch_idx m) v (style_mixing_prob m) (r1_gamma m)
    (pl_batch_shrink m) (pl_decay m) (pl_weight m) (pl_mean m) (ema_kimg m)
    (ema_rampup m) (augment_p m) (ada_kimg m) (ada_target m) (ada_interval m)
    (adjust_p m) (Loss_signs_real m) (align_grad m) (is_distributed m).

Definition live (m : Model) : Nets :=
  mkNets (mapping m) (synthesis m) (discriminator m).

(** ** The constructor ([StyleGANv2ADAModel.__init__]) *)

Record Args : Type := mkArgs {
  arg_synthesis : Network;
  arg_synthesis_ema : Network;
  arg_mapping : Network;
  arg_mapping_ema : Network;
  arg_discriminator : option Network;
  arg_G_reg_interval : option Z;
  arg_D_reg_interval : option Z;
  arg_augment_pipe : option AugmentPipe;
  arg_style_mixing_prob : Q;
  arg_r1_gamma : Q;
  arg_pl_batch_shrink : Z;
  arg_pl_decay : Q;
  arg_pl_weight : Q;
  arg_ema_kimg : Q;
  arg_ema_rampup : option Q;
  arg_augment_p : Q;
  arg_ada_kimg : Q;
  arg_ada_interval : Z;
  arg_ada_target : option Q;
  arg_adjust_p : bool
}.

(** The keyword defaults of the constructor. *)
Definition default_args (synthesis synthesis_ema mapping mapping_ema : Network) : Args :=
  mkArgs synthesis synthesis_ema mapping mapping_ema None (Some 4) (Some 16)
    None (9 # 10) 10 2 (1 # 100) 2 10 None 0 500 4 None false.

Definition init (a : Args) : Model :=
  let phases := build_phases (arg_G_reg_interval a) (arg_D_reg_interval a) in
  (* lines 97-98 *)
  let style_mixing_prob := arg_style_mixing_prob a in
  let style_mixing_prob := (-1)%Q in
  (* lines 115-116 *)
  let align_grad := false in
  let align_grad := true in
  {| synthesis := arg_synthesis a;
     synthesis_ema := arg_synthesis_ema a;
     mapping := arg_mapping a;
     mapping_ema := arg_mapping_ema a;
     discriminator := arg_discriminator a;
     c_dim := attr_c_dim (arg_mapping a);
     z_dim := attr_z_dim (arg_mapping a);
     w_dim := attr_w_dim (arg_mapping a);
     phases := phases;
     cur_nimg := 0;
     batch_idx := 0;
     augment_pipe := arg_augment_pipe a;
     style_mixing_prob := style_mixing_prob;
     r1_gamma := arg_r1_gamma a;
     pl_batch_shrink := arg_pl_batch_shrink a;
     pl_decay := arg_pl_decay a;
     pl_weight := arg_pl_weight a;
     pl_mean := None;
     ema_kimg := arg_ema_kimg a;
     ema_rampup := arg_ema_rampup a;
     augment_p := arg_augment_p a;
     ada_kimg := arg_ada_kimg a;
     ada_target := arg_ada_target a;
     ada_interval := arg_ada_interval a;
     adjust_p := arg_adjust_p a;
     Loss_signs_real := [];
     align_grad := align_grad;
     is_distributed := false |}.

(** ** [run_G] (lines 136-151)

    [ws[:, cutoff:] = ws2[:, cutoff:]] keeps the first [cutoff] layers of
    every sample and takes the remaining ones from [ws2].  The draw
    [random_(1, ws.shape[1])] exists for at least two layers (torch raises
    on an empty range), so with style mixing on [run_G] is the value of the
    call for [ws] of two or more layers. *)
Definition mix_styles (cutoff : Z) (ws ws2 : Ws) : Ws :=
  zip_with (fun w w2 => take (Z.to_nat cutoff) w ++ drop (Z.to_nat cutoff) w2) ws ws2.

Definition run_G (E : Env) (m : Model) (z : Tensor) (c : LabelArg) (sync : bool)
  : Tensor * Ws :=
  let ws := mapping_forward E (mapping m) z c false in
  let ws :=
    if Qlt_bool 0 (style_mixing_prob m) then
      let cutoff := random_ E 1 (shape1 ws) in
      let cutoff :=
        if Qlt_bool (rand E) (style_mixing_prob m) then cutoff else shape1 ws in
      mix_styles cutoff ws (mapping_forward E (mapping m) (randn_like E z) c true)
    else ws in
  let img := synthesis_forward E (synthesis m) ws in
  (img, ws).

(** ** Optimizer hyperparameters ([Trainer.before_train], StyleGANv2ADA branch,
    lines 144-177) *)

Fixpoint foldM {A B} (f : A -> B -> Res A) (l : list B) (a : A) : Res A :=
  match l with
  | [] => Ok a
  | b :: l' => do a' <- f a b; foldM f l' a'
  end.

Fixpoint mapM {A B} (f : A -> Res B) (l : list A) : Res (list B) :=
  match l with
  | [] => Ok []
  | a :: l' => do b <- f a; do bs <- mapM f l'; Ok (b :: bs)
  end.

Record OptimizerCfg : Type := mkOptimizerCfg { beta1 : Q; beta2 : Q }.

(** The fields of [self.exp] read or written by the branch;
    [cfg_generator] is [optimizer_cfg['generator']]. *)
Record Exp : Type := mkExp {
  basic_lr_per_img : Q;
  cfg_generator : OptimizerCfg;
  cfg_discriminator : OptimizerCfg;
  G_reg_interval : option Z;
  D_reg_interval : option Z
}.

(** The trainer attributes the branch sets before it builds the optimizers:
    [base_lr_G] and [base_lr_D] are the learning rates passed to
    [exp.get_optimizer], which takes the betas from [exp.optimizer_cfg]. *)
Record Trainer : Type := mkTrainer {
  exp : Exp;
  base_lr_G : option Q;
  base_lr_D : option Q
}.

(** The function-local variables assigned inside the loop; [None] is
    "not yet bound". *)
Record Locals : Type := mkLocals {
  new_lr : option Q;
  new_beta1 : option Q;
  new_beta2 : option Q
}.

Definition read_local (var : string) (v : option Q) : Res Q :=
  match v with
  | Some x => Ok x
  | None => Raise (UnboundLocalError var)
  end.

Definition lazy_reg_step (E : Env) (learning_rate b1 b2 : Q)
    (st : Trainer * Locals) (role : string * option Z) : Res (Trainer * Locals) :=
  let '(t, loc) := st in
  let '(role_name, reg_interval) := role in
  do loc <- match reg_interval with
            | None => Ok loc
            | Some k =>
                if k + 1 =? 0 then Raise ZeroDivisionError
                else
                  let mb_ratio := (inject_Z k / inject_Z (k + 1))%Q in
                  Ok (mkLocals (Some (learning_rate * mb_ratio)%Q)
                               (Some (fpow E b1 mb_ratio))
                               (Some (fpow E b2 mb_ratio)))
            end;
  if String.eqb role_name "G" then
    do lr <- read_local "new_lr" (new_lr loc);
    do nb1 <- read_local "new_beta1" (new_beta1 loc);
    do nb2 <- read_local "new_beta2" (new_beta2 loc);
    let e := exp t in
    Ok (mkTrainer
          (mkExp (basic_lr_per_img e) (mkOptimizerCfg nb1 nb2) (cfg_discriminator e)
                 (G_reg_interval e) (D_reg_interval e))
          (Some lr) (base_lr_D t), loc)
  else if String.eqb role_name "D" then
    do lr <- read_local "new_lr" (new_lr loc);
    do nb1 <- read_local "new_beta1" (new_beta1 loc);
    do nb2 <- read_local "new_beta2" (new_beta2 loc);
    let e := exp t in
    Ok (mkTrainer
          (mkExp (basic_lr_per_img e) (cfg_generator e) (mkOptimizerCfg nb1 nb2)
                 (G_reg_interval e) (D_reg_interval e))
          (base_lr_G t) (Some lr), loc)
  else Ok (t, loc).

Definition before_train (E : Env) (e : Exp) (batch_size : Z) : Res Trainer :=
  let learning_rate := (basic_lr_per_img e * inject_Z batch_size)%Q in
  let b1 := beta1 (cfg_generator e) in
  let b2 := beta2 (cfg_generator e) in
  do st <- foldM (lazy_reg_step E learning_rate b1 b2)
             [("G", G_reg_interval e); ("D", D_reg_interval e)]
             (mkTrainer e None None, mkLocals None None None);
  Ok (fst st).

(** ** [accumulate_gradients] (lines 167-313) *)

(** [dic2[key]]. *)
Definition getitem (dic2 : option Npz) (key : string) : Res Tensor :=
  match dic2 with
  | None => Raise TypeError
  | Some d =>
      match d !! key with
      | Some t => Ok t
      | None => Raise (KeyError key)
      end
  end.

Fixpoint read_keys (dic2 : option Npz) (keys : list string) : Res unit :=
  match keys with
  | [] => Ok tt
  | k :: keys' => run getitem dic2 k; read_keys dic2 keys'
  end.

(** The [if self.align_grad:] blocks: each reads the listed reference arrays
    and prints a squared difference. *)
Definition align (m : Model) (dic2 : option Npz) (keys : list string) : Res unit :=
  if align_grad m then read_keys dic2 keys else Ok tt.

Definition phase_names : list string :=
  ["Gmain"; "Greg"; "Gboth"; "Dmain"; "Dreg"; "Dboth"].

Definition do_Gmain (phase : string) : bool := in_list phase ["Gmain"; "Gboth"].
Definition do_Dmain (phase : string) : bool := in_list phase ["Dmain"; "Dboth"].
Definition do_Gpl (m : Model) (phase : string) : bool :=
  in_list phase ["Greg"; "Gboth"] && negb (Qeq_bool (pl_weight m) 0).
Definition do_Dr1 (m : Model) (phase : string) : bool :=
  in_list phase ["Dreg"; "Dboth"] && negb (Qeq_bool (r1_gamma m) 0).

(** [run_D] (lines 153-164) reads the attribute [self.discriminator], which
    the constructor sets only when it is given a discriminator (lines
    76-78): without one the read raises AttributeError.  The logits are the
    environment's. *)
Definition run_D (m : Model) : Res unit :=
  match discriminator m with
  | Some _ => Ok tt
  | None => Raise AttributeError
  end.

(** Lines 176-200, [if do_Gmain:]. *)
Definition acc_Gmain (E : Env) (m0 : Model) (a : AccArgs) (loss_numpy : gmap string Q)
  : Res (gmap string Q) :=
  let phase := a_phase a in
  if do_Gmain phase then
    run align m0 (a_dic2 a) [phase +:+ "gen_img"; phase +:+ "_gen_ws"];
    run run_D m0;
    run align m0 (a_dic2 a) [phase +:+ "gen_logits"];
    Ok (<["loss_Gmain" := loss_term E "loss_Gmain" a m0]> loss_numpy)
  else Ok loss_numpy.

(** Lines 202-242, [if do_Gpl:]; updates [self.pl_mean]. *)
Definition acc_Gpl (E : Env) (m0 : Model) (a : AccArgs) (m : Model)
    (loss_numpy : gmap string Q) : Res (Model * gmap string Q) :=
  let phase := a_phase a in
  if do_Gpl m0 phase then
    do batch_size <- floordiv (shape0 (a_gen_z a)) (pl_batch_shrink m);
    let batch_size := Z.max batch_size 1 in
    run align m (a_dic2 a) [phase +:+ "gen_img"; phase +:+ "gen_ws"];
    run align m (a_dic2 a) [phase +:+ "pl_grads"; phase +:+ "pl_lengths"];
    let old :=
      match pl_mean m with
      | Some v => v
      | None => 0%Q
      end in
    let new_pl_mean := lerp old (pl_lengths_mean E a m0) (pl_decay m) in
    Ok (set_pl_mean (Some new_pl_mean) m,
        <["loss_Gpl" := loss_term E "loss_Gpl" a m0]> loss_numpy)
  else Ok (m, loss_numpy).

(** Lines 244-267, [if do_Dmain:] on generated images. *)
Definition acc_Dgen (E : Env) (m0 : Model) (a : AccArgs) (m : Model)
    (loss_numpy : gmap string Q) : Res (gmap string Q) :=
  let phase := a_phase a in
  if do_Dmain phase then
    run align m (a_dic2 a) [phase +:+ "gen_img"; phase +:+ "_gen_ws"];
    run run_D m;
    run align m (a_dic2 a) [phase +:+ "gen_logits"];
    Ok (<["loss_Dgen" := loss_term E "loss_Dgen" a m0]> loss_numpy)
  else Ok loss_numpy.

(** Lines 269-312, [if do_Dmain or do_Dr1:] on real images; appends to
    [self.Loss_signs_real] when the ADA heuristic is on. *)
Definition acc_Dreal (E : Env) (m0 : Model) (a : AccArgs) (m : Model)
    (loss_numpy : gmap string Q) : Res (Model * gmap string Q) :=
  let phase := a_phase a in
  if do_Dmain phase || do_Dr1 m0 phase then
    run run_D m;
    let m :=
      if adjust_p m && is_not_None (augment_pipe m) then
        set_Loss_signs_real (Loss_signs_real m ++ [real_logits_sign E a m0]) m
      else m in
    run align m (a_dic2 a) [phase +:+ "real_logits"];
    do loss_numpy <-
      (if do_Dmain phase then
         run align m (a_dic2 a) [phase +:+ "loss_Dreal"];
         Ok (<["loss_Dreal" := loss_term E "loss_Dreal" a m0]> loss_numpy)
       else Ok loss_numpy);
    do loss_numpy <-
      (if do_Dr1 m0 phase then
         run align m (a_dic2 a) [phase +:+ "r1_grads"];
         run align m (a_dic2 a) [phase +:+ "r1_penalty"];
         Ok (<["loss_Dr1" := loss_term E "loss_Dr1" a m0]> loss_numpy)
       else Ok loss_numpy);
    Ok (m, loss_numpy)
  else Ok (m, loss_numpy).

(** The whole function; [m0] is the model on entry, which the forward and
    backward passes see. *)
Definition accumulate_gradients (E : Env) (m0 : Model) (a : AccArgs)
  : Res (Model * gmap string Q) :=
  if negb (in_list (a_phase a) phase_names) then Raise AssertionError
  else
    do loss_numpy <- acc_Gmain E m0 a ∅;
    do (m, loss_numpy) <- acc_Gpl E m0 a m0 loss_numpy;
    do loss_numpy <- acc_Dgen E m0 a m loss_numpy;
    do (m, loss_numpy) <- acc_Dreal E m0 a m loss_numpy;
    Ok (set_nets (forward_backward E a m0) m, loss_numpy).

(** ** [train_iter] (lines 315-477) *)

(** [self.input], as stored by [setup_input]. *)
Record Input : Type := mkInput {
  phase_real_img : Tensor;
  phase_real_c : Tensor;
  phases_all_gen_c : list Tensor
}.

(** The variables the phase loop updates. *)
Record Loop : Type := mkLoop {
  lp_model : Model;
  loss_numpys : gmap string Q;
  loss_phase_name : list string;
  lp_trace : list Event
}.

Definition log (ev : Event) (st : Loop) : Loop :=
  mkLoop (lp_model st) (loss_numpys st) (loss_phase_name st) (lp_trace st ++ [ev]).

(** [for k, v in loss_numpy.items(): loss_numpys[k] += v, or = v if new]. *)
Definition merge_losses (loss_numpys loss_numpy : gmap string Q) : gmap string Q :=
  union_with (fun old v => Some (old + v)%Q) loss_numpys loss_numpy.

(** Lines 333-345: the reference archive and the normalised real batch. *)
Definition npz_path (E : Env) (m : Model) (rank : Z) : string :=
  let npz_path := "batch" +:+ fmt_d 5 (batch_idx m) +:+ "_rank" +:+ fmt_d 2 rank +:+ ".npz" in
  if sys_gettrace E then
    "../batch" +:+ fmt_d 5 (batch_idx m) +:+ "_rank" +:+ fmt_d 2 rank +:+ ".npz"
  else npz_path.

Definition normalize (t : Tensor) : Tensor :=
  map (map (fun x => x / (255 # 2) - 1)%Q) t.

Definition load_batch (E : Env) (m : Model) (input : Input) (rank : Z)
  : Res (option Npz * Tensor) :=
  let phase_real_img := phase_real_img input in
  do (dic2, phase_real_img) <-
    (if align_grad m then
       match files E !! npz_path E m rank with
       | None => Raise (FileNotFoundError (npz_path E m rank))
       | Some d =>
           do aaaaaaaaa <- getitem (Some d) "phase_real_img";
           Ok (Some d, aaaaaaaaa)
       end
     else Ok (None, phase_real_img));
  Ok (dic2, normalize phase_real_img).

(** Lines 351-359: the noise of all phases. *)
Definition draw_gen_z (E : Env) (m : Model) (dic2 : option Npz) (batch_size : Z)
  : Res Tensor :=
  if 0 <? z_dim m then
    let all_gen_z := randn E (shape0 (phases m) * batch_size) (z_dim m) in
    if align_grad m then getitem dic2 "all_gen_z" else Ok all_gen_z
  else Ok (randn E (shape0 (phases m) * batch_size) 1).

(** Lines 360-361: split per phase, then per device. *)
Definition make_gen_z (E : Env) (m : Model) (dic2 : option Npz)
    (batch_size batch_gpu : Z) : Res (list (list Tensor)) :=
  do all_gen_z <- draw_gen_z E m dic2 batch_size;
  do phases_all_gen_z <- split all_gen_z batch_size;
  mapM (fun phase_gen_z => split phase_gen_z batch_gpu) phases_all_gen_z.

(** Lines 363-368. *)
Definition make_gen_c (m : Model) (input : Input) (batch_gpu : Z) (num_gpus : nat)
  : Res (list (list LabelArg)) :=
  match phases_all_gen_c input with
  | [] => Raise IndexError
  | first :: _ =>
      let c_dim := shape1 first in
      if 0 <? c_dim then
        mapM (fun phase_gen_c =>
                do parts <- split phase_gen_c batch_gpu; Ok (map LabTensor parts))
             (phases_all_gen_c input)
      else Ok (replicate (length (phases m)) (replicate num_gpus LabNone))
  end.

(** Lines 372-376. *)
Definition make_real_c (m : Model) (input : Input) (batch_gpu : Z) (num_gpus : nat)
  : Res (list LabelArg) :=
  let c_dim := shape1 (phase_real_c input) in
  if 0 <? c_dim then
    do parts <- split (phase_real_c input) batch_gpu; Ok (map LabTensor parts)
  else Ok (replicate (length (phases m)) (LabNoneList num_gpus)).

(** Lines 400-412: the accumulation rounds of one phase. *)
Fixpoint rounds (E : Env) (batch_size batch_gpu num_gpus : Z) (phase : Phase)
    (dic2 : option Npz) (round_idx : Z)
    (items : list (Tensor * LabelArg * Tensor * LabelArg)) (st : Loop) : Res Loop :=
  match items with
  | [] => Ok st
  | (real_img, real_c, gen_z, gen_c) :: items' =>
      do q <- floordiv batch_size (batch_gpu * num_gpus);
      let sync := round_idx =? q - 1 in
      let gain := interval phase in
      let a := mkAccArgs (name phase) real_img real_c gen_z gen_c sync gain dic2 in
      do (m, loss_numpy) <- accumulate_gradients E (lp_model st) a;
      rounds E batch_size batch_gpu num_gpus phase dic2 (round_idx + 1) items'
        (mkLoop m (merge_losses (loss_numpys st) loss_numpy)
                (loss_phase_name st ++ [name phase])
                (lp_trace st ++ [EvAccumulate a]))
  end.

Definition with_model (m : Model) (st : Loop) : Loop :=
  mkLoop m (loss_numpys st) (loss_phase_name st) (lp_trace st).

(** Lines 386-396: [zero_grad] on the optimizer of the phase. *)
Definition init_accumulation (phase : Phase) (st : Loop) : Res Loop :=
  if contains "G" (name phase) then Ok (log (EvZeroGrad "optimizer_G") st)
  else if contains "D" (name phase) then
    match discriminator (lp_model st) with
    | None => Raise AttributeError
    | Some _ => Ok (log (EvZeroGrad "optimizer_D") st)
    end
  else Ok st.

(** Lines 420-430: the optimizer step of the phase. *)
Definition update_weights (E : Env) (phase : Phase) (st : Loop) : Res Loop :=
  if contains "G" (name phase) then
    let m := set_nets (optimizer_step E "optimizer_G" (lp_model st)) (lp_model st) in
    Ok (log (EvStep "optimizer_G") (with_model m st))
  else if contains "D" (name phase) then
    match discriminator (lp_model st) with
    | None => Raise AttributeError
    | Some _ =>
        let m := set_nets (optimizer_step E "optimizer_D" (lp_model st)) (lp_model st) in
        Ok (log (EvStep "optimizer_D") (with_model m st))
    end
  else Ok st.

(** Lines 381-430: the body of the phase loop for one element of
    [zip(phases, all_gen_z, all_gen_c)]. *)
Definition run_phase (E : Env) (batch_size batch_gpu num_gpus : Z)
    (dic2 : option Npz) (phase_real_img : list Tensor) (phase_real_c : list LabelArg)
    (st : Loop) (item : Phase * list Tensor * list LabelArg) : Res Loop :=
  let '(phase, phase_gen_z, phase_gen_c) := item in
  do r <- pymod (batch_idx (lp_model st)) (interval phase);
  if negb (r =? 0) then Ok st
  else
    do st <- init_accumulation phase st;
    do st <- rounds E batch_size batch_gpu num_gpus phase dic2 0
               (zip (zip (zip phase_real_img phase_real_c) phase_gen_z) phase_gen_c) st;
    update_weights E phase st.

(** Lines 432-449: the moving average of the generator weights. *)
Definition ema_beta (E : Env) (m : Model) (batch_size : Z) : Q :=
  let ema_nimg := (ema_kimg m * 1000)%Q in
  let ema_nimg :=
    match ema_rampup m with
    | Some ema_rampup => pymin ema_nimg (inject_Z (cur_nimg m) * ema_rampup)%Q
    | None => ema_nimg
    end in
  fpow E (1 # 2) (inject_Z batch_size / pymax ema_nimg (1 # 100000000))%Q.

(** [for p_ema, p in zip(ema.parameters(), live.parameters()):
       p_ema.copy_(p.lerp(p_ema, ema_beta))];
    tensors of the copy beyond the live ones are not visited. *)
Definition blend_parameters (ema live : list (list Q)) (beta : Q) : list (list Q) :=
  zip_with (fun p_ema p => lerp_tensor p p_ema beta) ema live ++ drop (length live) ema.

(** [for b_ema, b in zip(ema.buffers(), live.buffers()): b_ema.copy_(b)],
    for paired buffers of one shape, as [lerp_tensor] is for parameters:
    between tensors of different shapes [copy_] and [lerp] broadcast or
    raise, which the flat lists do not represent, so every statement about
    the values of the copies assumes [same_shape]. *)
Definition copy_buffers (ema live : list (list Q)) : list (list Q) :=
  zip_with (fun b_ema b => b) ema live ++ drop (length live) ema.

Definition ema_network (ema live : Network) (beta : Q) : Network :=
  mkNetwork (blend_parameters (parameters ema) (parameters live) beta)
            (copy_buffers (buffers ema) (buffers live))
            (attr_c_dim ema) (attr_z_dim ema) (attr_w_dim ema).

Definition ema_update (beta : Q) (m : Model) : Model :=
  set_ema (ema_network (mapping_ema m) (mapping m) beta)
          (ema_network (synthesis_ema m) (synthesis m) beta) m.

(** Lines 462-475: the ADA heuristic; [m] already has the incremented
    [batch_idx].  The test of line 463 is
    [adjust_p and augment_pipe is not None and batch_idx % ada_interval == 0];
    [np.concatenate] raises on an empty list and the subtraction raises on a
    [None] target.  A zero [ada_kimg] gives inf or nan in numpy and 0 here. *)
Definition ada_heuristic (m : Model) (dic2 : option Npz) (batch_size : Z) : Res Model :=
  match augment_pipe m with
  | Some augment_pipe =>
      if adjust_p m then
        do r <- pymod (batch_idx m) (ada_interval m);
        if r =? 0 then
          do Loss_signs_real_mean <-
            match Loss_signs_real m with
            | [] => Raise ValueError
            | _ :: _ => Ok (mean (concat (Loss_signs_real m)))
            end;
          do ada_target <-
            match ada_target m with
            | None => Raise TypeError
            | Some t => Ok t
            end;
          let diff := (Loss_signs_real_mean - ada_target)%Q in
          let adjust := sign diff in
          run align m dic2 ["augment_pipe_p"];
          run align m dic2 ["aaaaaaaaaa1"];
          let adjust := (adjust * inject_Z (batch_size * ada_interval m)
                         / (ada_kimg m * 1000))%Q in
          let new_p := pymax 0 (p augment_pipe + adjust)%Q in
          Ok (set_Loss_signs_real [] (set_augment_pipe (Some (mkAugmentPipe new_p)) m))
        else Ok m
      else Ok m
  | None => Ok m
  end.

Definition train_iter (E : Env) (m : Model) (input : Input) (rank : Z)
  : Res (Model * gmap string Q * list Event) :=
  do (dic2, phase_real_img) <- load_batch E m input rank;
  let phases := phases m in
  let batch_size := shape0 phase_real_img in
  let num_gpus := 1 in
  let batch_gpu := batch_size / num_gpus in
  do all_gen_z <- make_gen_z E m dic2 batch_size batch_gpu;
  do all_gen_c <- make_gen_c m input batch_gpu (Z.to_nat num_gpus);
  do phase_real_img <- split phase_real_img batch_gpu;
  do phase_real_c <- make_real_c m input batch_gpu (Z.to_nat num_gpus);
  do st <- foldM (run_phase E batch_size batch_gpu num_gpus dic2
                            phase_real_img phase_real_c)
             (zip (zip phases all_gen_z) all_gen_c)
             (mkLoop m ∅ [] []);
  let m := ema_update (ema_beta E (lp_model st) batch_size) (lp_model st) in
  let m := set_counters (cur_nimg m + batch_size) (batch_idx m + 1) m in
  run align m dic2 ["w_avg"];
  do m <- ada_heuristic m dic2 batch_size;
  Ok (m, loss_numpys st, lp_trace st).

(** ** Definitions used to state the properties *)

(** The step size of the ADA heuristic in the words of the specification:
    (batch_size * ada_interval) / (ada_kimg * 1000). *)
Definition spec_ada_step (batch_size : Z) (m : Model) : Q :=
  (inject_Z (batch_size * ada_interval m) / (ada_kimg m * 1000))%Q.

(** The attributes of [self] that the phase loop never assigns. *)
Definition settings (m : Model) :=
  (synthesis_ema m, mapping_ema m, phases m, (cur_nimg m, batch_idx m),
   augment_pipe m, (ema_kimg m, ema_rampup m),
   (ada_kimg m, ada_target m, ada_interval m, adjust_p m),
   align_grad m, (r1_gamma m, pl_weight m), z_dim m).

(** Paired tensors have the same number of entries. *)
Definition same_shape (a b : list (list Q)) : Prop :=
  Forall2 (fun x y => length x = length y) a b.

(** Entrywise equality of rationals on lists of tensors. *)
Definition tensors_eq (a b : list (list Q)) : Prop :=
  Forall2 (Forall2 Qeq) a b.

(** [ema_new = beta * ema_old + (1 - beta) * live], entry by entry. *)
Definition blended (beta : Q) (live ema_old ema_new : list (list Q)) : Prop :=
  Forall3 (Forall3 (fun l o n => n == beta * o + (1 - beta) * l)%Q)
          live ema_old ema_new.

(** The reference arrays one accumulation round reads, in the order of the
    reads. *)
Definition reference_keys (m : Model) (phase : string) : list string :=
  (if do_Gmain phase
   then [phase +:+ "gen_img"; phase +:+ "_gen_ws"; phase +:+ "gen_logits"] else [])
  ++ (if do_Gpl m phase
      then [phase +:+ "gen_img"; phase +:+ "gen_ws";
            phase +:+ "pl_grads"; phase +:+ "pl_lengths"] else [])
  ++ (if do_Dmain phase
      then [phase +:+ "gen_img"; phase +:+ "_gen_ws"; phase +:+ "gen_logits"] else [])
  ++ (if do_Dmain phase || do_Dr1 m phase
      then [phase +:+ "real_logits"]
           ++ (if do_Dmain phase then [phase +:+ "loss_Dreal"] else [])
           ++ (if do_Dr1 m phase
               then [phase +:+ "r1_grads"; phase +:+ "r1_penalty"] else [])
      else []).

(** Whether a phase runs on batch index [b]. *)
Definition due (b : Z) (phase : Phase) : bool := b mod interval phase =? 0.

(** The calls one executed phase makes. *)
Definition phase_block (phase : Phase) (block : list Event) : Prop :=
  exists optimizer a,
    block = [EvZeroGrad optimizer; EvAccumulate a; EvStep optimizer] /\
    a_phase a = name phase /\ a_gain a = interval phase.

(** [augment_pipe.p], when there is a pipe, is not negative. *)
Definition p_nonneg (m : Model) : Prop :=
  match augment_pipe m with
  | Some pipe => (0 <= p pipe)%Q
  | None => True
  end.

(** Successive iterations, one input per batch, as [Trainer.train_in_iter]
    runs them through [train_one_iter]: [setup_input] followed by
    [train_iter] (the trainer leaves [rank] at its default 0). *)
Fixpoint train_in_iter (E : Env) (rank : Z) (inputs : list Input) (m : Model)
  : Res Model :=
  match inputs with
  | [] => Ok m
  | input :: inputs' =>
      do r <- train_iter E m input rank;
      train_in_iter E rank inputs' (fst (fst r))
  end.

(** The optimizer a phase name selects (lines 386-396 and 420-430). *)
Definition optimizer_of (phase_name : string) : option string :=
  if contains "G" phase_name then Some "optimizer_G"
  else if contains "D" phase_name then Some "optimizer_D"
  else None.

Definition optimizer_events (mk : string -> Event) (phase_name : string) : list Event :=
  match optimizer_of phase_name with
  | Some o => [mk o]
  | None => []
  end.

(** What holds of the arguments of every accumulation round of one
    iteration: the archive and the real batch it is given, and the reference
    arrays it reads. *)
Definition round_ok (m : Model) (dic2 : option Npz) (real : list Tensor)
    (a : AccArgs) : Prop :=
  a_dic2 a = dic2 /\ In (a_real_img a) real /\
  (align_grad m = true -> read_keys dic2 (reference_keys m (a_phase a)) = Ok tt).

Definition event_ok (m : Model) (dic2 : option Npz) (real : list Tensor)
    (ev : Event) : Prop :=
  match ev with
  | EvAccumulate a => round_ok m dic2 real a
  | _ => True
  end.

(** The model an iteration leaves behind, if it completes. *)
Definition final_model (r : Res (Model * gmap string Q * list Event)) : option Model :=
  match r with
  | Ok (m, _, _) => Some m
  | Raise _ => None
  end.

(** The phase names of the accumulation rounds among recorded calls, in
    order, and those of a whole iteration, if it completes. *)
Definition rounds_run (trace : list Event) : list string :=
  omap (fun ev => match ev with
                  | EvAccumulate a => Some (a_phase a)
                  | _ => None
                  end) trace.

Definition phases_run (r : Res (Model * gmap string Q * list Event))
  : option (list string) :=
  match r with
  | Ok (_, _, trace) => Some (rounds_run trace)
  | Raise _ => None
  end.


(** ** A small concrete run *)

Definition demo_net : Network := mkNetwork [[1; 2]; [3]]%Q [[5]]%Q 0 4 8.
Definition demo_ema : Network := mkNetwork [[0; 0]; [1]]%Q [[7]]%Q 0 4 8.
Definition demo_disc : Network := mkNetwork [[4]]%Q [] 0 0 0.

Definition demo_tensor : Tensor := [[0]]%Q.

Definition demo_keys : list string :=
  ["Gmaingen_img"; "Gmain_gen_ws"; "Gmaingen_logits";
   "Greggen_img"; "Greggen_ws"; "Gregpl_grads"; "Gregpl_lengths";
   "Dmaingen_img"; "Dmain_gen_ws"; "Dmaingen_logits"; "Dmainreal_logits";
   "Dmainloss_Dreal"; "Dregreal_logits"; "Dregr1_grads"; "Dregr1_penalty";
   "w_avg"; "augment_pipe_p"; "aaaaaaaaaa1"].

Definition demo_npz (real_img all_gen_z : Tensor) : Npz :=
  <["phase_real_img" := real_img]>
    (<["all_gen_z" := all_gen_z]>
       (list_to_map (map (fun k => (k, demo_tensor)) demo_keys))).

Definition demo_env (signs : list Q) (fs : gmap string Npz) : Env :=
  {| fpow := fun x y => x;
     files := fs;
     sys_gettrace := false;
     randn := fun rows cols => replicate (Z.to_nat rows) (replicate (Z.to_nat cols) 0%Q);
     random_ := fun from to => from;
     rand := 0%Q;
     randn_like := fun z => z;
     mapping_forward := fun net z c skip => map (fun row => [row; row]) z;
     synthesis_forward := fun net ws => map (fun w => concat w) ws;
     forward_backward := fun a m => live m;
     loss_term := fun key a m => 1%Q;
     pl_lengths_mean := fun a m => 1%Q;
     real_logits_sign := fun a m => signs;
     optimizer_step := fun opt m => live m |}.

Definition demo_args : Args :=
  mkArgs demo_net demo_ema demo_net demo_ema (Some demo_disc) (Some 4) (Some 16)
    (Some (mkAugmentPipe 0)) (9 # 10) 10 2 (1 # 100) 2 10 None 0 500 1 (Some (3 # 5)) true.

Definition demo_input (n : nat) : Input :=
  mkInput (replicate n [255; 0]%Q) (replicate n []) (replicate 4 (replicate n [])).

Definition demo_files : gmap string Npz :=
  {[ "batch00000_rank00.npz" :=
       demo_npz (replicate 2 [255; 0]%Q) (replicate 8 [0; 0; 0; 0]%Q) ]}.

Definition demo_d : Npz :=
  demo_npz (replicate 2 [255; 0]%Q) (replicate 8 [0; 0; 0; 0]%Q).

(** An environment whose discriminator calls every real image fake, one
    whose discriminator calls every real image real, and one without any
    archive on disk. *)
Definition demo_E : Env := demo_env [-1; -1]%Q demo_files.
Definition demo_E_real : Env := demo_env [1; 1]%Q demo_files.
Definition demo_E_no_file : Env := demo_env [-1; -1]%Q ∅.

Definition demo_m : Model := init demo_args.
Definition demo_in : Input := demo_input 2.

(** The state in which the ADA block of the first iteration finds the
    model, for a given strength and sign buffer. *)
Definition ada_demo_model (p0 : Q) (signs : list (list Q)) : Model :=
  set_Loss_signs_real signs
    (set_augment_pipe (Some (mkAugmentPipe p0)) (set_counters 2 1 demo_m)).

(** The same arguments with [adjust_p=False]. *)
Definition demo_args_ada_off : Args :=
  mkArgs demo_net demo_ema demo_net demo_ema (Some demo_disc) (Some 4) (Some 16)
    (Some (mkAugmentPipe 0)) (9 # 10) 10 2 (1 # 100) 2 10 None 0 500 1 (Some (3 # 5)) false.

(** An archive whose 'all_gen_z' has the noise of one phase only: 2 rows,
    where the 4 phases on a batch of 2 images take 8. *)
Definition demo_files_short : gmap string Npz :=
  {[ "batch00000_rank00.npz" :=
       demo_npz (replicate 2 [255; 0]%Q) (replicate 2 [0; 0; 0; 0]%Q) ]}.

Definition demo_E_short : Env := demo_env [-1; -1]%Q demo_files_short.


(** ** More of the two source files *)

(** [soft_update] (styleganv2ada_model.py, lines 32-35): the assertion on
    [beta], then [param_test.data = torch.lerp(param.data, param_test.data,
    beta)] over [zip(source.parameters(), target.parameters())]; the value
    is the updated target. *)
Definition soft_update (source target : Network) (beta : Q) : Res Network :=
  if Qle_bool 0 beta && Qle_bool beta 1 then
    Ok (mkNetwork (blend_parameters (parameters target) (parameters source) beta)
                  (buffers target)
                  (attr_c_dim target) (attr_z_dim target) (attr_w_dim target))
  else Raise AssertionError.

(** [no_weight_gradients] (lines 21-29), a generator-based context manager
    without [try]/[finally]: the statement after [yield] runs only when the
    body of the [with] block ends normally.  The module-level flag
    [weight_gradients_disabled] is threaded explicitly: a body takes the
    flag and gives the flag it leaves together with its result. *)
Definition no_weight_gradients {A} (body : bool -> bool * Res A)
    (weight_gradients_disabled : bool) : bool * Res A :=
  let old := weight_gradients_disabled in
  let '(weight_gradients_disabled, r) := body true in
  match r with
  | Ok a => (old, Ok a)
  | Raise e => (weight_gradients_disabled, Raise e)
  end.

(** [Trainer.before_train], StyleGANv3 branch (trainer.py, lines 209-248):
    the fields of [self.exp] it reads or writes, and the attributes it
    sets. *)
Record ExpV3 : Type := mkExpV3 {
  basic_glr_per_img : Q;
  basic_dlr_per_img : Q;
  v3_cfg_generator : OptimizerCfg;
  v3_cfg_discriminator : OptimizerCfg;
  v3_G_reg_interval : option Z;
  v3_D_reg_interval : option Z
}.

Record TrainerV3 : Type := mkTrainerV3 {
  v3_exp : ExpV3;
  v3_base_lr_G : option Q;
  v3_base_lr_D : option Q
}.

Definition lazy_reg_step_v3 (E : Env) (learning_rate_g learning_rate_d b1 b2 : Q)
    (t : TrainerV3) (role : string * option Z) : Res TrainerV3 :=
  let '(role_name, reg_interval) := role in
  let e := v3_exp t in
  match reg_interval with
  | None =>
      if String.eqb role_name "G" then
        Ok (mkTrainerV3 e (Some learning_rate_g) (v3_base_lr_D t))
      else if String.eqb role_name "D" then
        Ok (mkTrainerV3 e (v3_base_lr_G t) (Some learning_rate_d))
      else Ok t
  | Some k =>
      if String.eqb role_name "G" then
        if k + 1 =? 0 then Raise ZeroDivisionError
        else
          let mb_ratio := (inject_Z k / inject_Z (k + 1))%Q in
          let new_lr := (learning_rate_g * mb_ratio)%Q in
          let new_beta1 := fpow E b1 mb_ratio in
          let new_beta2 := fpow E b2 mb_ratio in
          Ok (mkTrainerV3
                (mkExpV3 (basic_glr_per_img e) (basic_dlr_per_img e)
                         (mkOptimizerCfg new_beta1 new_beta2) (v3_cfg_discriminator e)
                         (v3_G_reg_interval e) (v3_D_reg_interval e))
                (Some new_lr) (v3_base_lr_D t))
      else if String.eqb role_name "D" then
        if k + 1 =? 0 then Raise ZeroDivisionError
        else
          let mb_ratio := (inject_Z k / inject_Z (k + 1))%Q in
          let new_lr := (learning_rate_d * mb_ratio)%Q in
          let new_beta1 := fpow E b1 mb_ratio in
          let new_beta2 := fpow E b2 mb_ratio in
          Ok (mkTrainerV3
                (mkExpV3 (basic_glr_per_img e) (basic_dlr_per_img e)
                         (v3_cfg_generator e) (mkOptimizerCfg new_beta1 new_beta2)
                         (v3_G_reg_interval e) (v3_D_reg_interval e))
                (v3_base_lr_G t) (Some new_lr))
      else Ok t
  end.

Definition before_train_v3 (E : Env) (e : ExpV3) (batch_size : Z) : Res TrainerV3 :=
  let learning_rate_g := (basic_glr_per_img e * inject_Z batch_size)%Q in
  let learning_rate_d := (basic_dlr_per_img e * inject_Z batch_size)%Q in
  let b1 := beta1 (v3_cfg_generator e) in
  let b2 := beta2 (v3_cfg_generator e) in
  foldM (lazy_reg_step_v3 E learning_rate_g learning_rate_d b1 b2)
        [("G", v3_G_reg_interval e); ("D", v3_D_reg_interval e)]
        (mkTrainerV3 e None None).

(** The number of epochs (trainer.py, lines 188-196 and 270-278), from
    [exp.kimgs], [exp.dataset.train_steps] and [args.batch_size]. *)
Definition compute_max_epoch (kimgs train_steps batch_size : Z) : Res Z :=
  let one_epoch_imgs := train_steps * batch_size in
  do max_epoch <- floordiv (kimgs * 1000) one_epoch_imgs;
  do r <- pymod (kimgs * 1000) one_epoch_imgs;
  if negb (r =? 0) then Ok (max_epoch + 1) else Ok max_epoch.

(** [Trainer.progress_in_iter] (lines 427-429) and the [left_iters] of
    [after_iter] (line 401). *)
Definition progress_in_iter (epoch max_iter iter : Z) : Z := epoch * max_iter + iter.

Definition left_iters (max_iter max_epoch epoch iter : Z) : Z :=
  max_iter * max_epoch - (progress_in_iter epoch max_iter iter + 1).

(** The image conversion of [test_iter] (lines 500-504) and [style_mixing]
    (lines 519, 528, 543) on an image already laid out height x width x
    channel: [* 127.5 + 128], [clamp(0, 255)], [.to(torch.uint8)] and the
    channel selection [[2, 1, 0]]. *)
Definition clamp (x lo hi : Q) : Q := pymin (pymax x lo) hi.

(** Conversion of a float to an integer type drops the fraction (towards
    zero); values outside 0..255 are not represented faithfully and do not
    occur after [clamp]. *)
Definition to_uint8 (x : Q) : Z := Z.quot (Qnum x) (Z.pos (Qden x)).

Definition to_pixel (x : Q) : Z := to_uint8 (clamp (x * (255 # 2) + 128) 0 255).

Definition select_bgr {A} (pixel : list A) : Res (list A) :=
  match pixel with
  | c0 :: c1 :: c2 :: _ => Ok [c2; c1; c0]
  | _ => Raise IndexError
  end.

Definition to_bgr_image (img : list (list (list Q))) : Res (list (list (list Z))) :=
  mapM (mapM (fun pixel => select_bgr (map to_pixel pixel))) img.

(** The style replacement of [style_mixing] (lines 525-526):
    [w = w_dict[row_seed].clone(); w[col_styles] = w_dict[col_seed][col_styles]]
    with a Python list of integer indices, negative ones counting from the
    end. *)
Definition py_index (n : nat) (i : Z) : Res nat :=
  if (i <? - Z.of_nat n) || (Z.of_nat n <=? i) then Raise IndexError
  else Ok (Z.to_nat (if i <? 0 then i + Z.of_nat n else i)).

Definition gather {A} (t : list A) (indices : list Z) : Res (list A) :=
  mapM (fun i => do k <- py_index (length t) i;
                 match t !! k with
                 | Some x => Ok x
                 | None => Raise IndexError
                 end) indices.

Fixpoint scatter {A} (t : list A) (indices : list Z) (values : list A) : Res (list A) :=
  match indices, values with
  | i :: indices', v :: values' =>
      do k <- py_index (length t) i;
      scatter (<[k := v]> t) indices' values'
  | _, _ => Ok t
  end.

Definition mix_w {A} (w_row w_col : list A) (col_styles : list Z) : Res (list A) :=
  do values <- gather w_col col_styles;
  scatter w_row col_styles values.

(** Whether [accumulate_gradients] computes the loss term stored under
    [key] for a phase: the phase-name tests of lines 169-172. *)
Definition term_computed (m : Model) (phase key : string) : bool :=
  (String.eqb key "loss_Gmain" && do_Gmain phase)
  || (String.eqb key "loss_Gpl" && do_Gpl m phase)
  || (String.eqb key "loss_Dgen" && do_Dmain phase)
  || (String.eqb key "loss_Dreal" && do_Dmain phase)
  || (String.eqb key "loss_Dr1" && do_Dr1 m phase).

(** ** More concrete inputs *)

Definition set_style_mixing_prob (v : Q) (m : Model) : Model :=
  mkModel (synthesis m) (synthesis_ema m) (mapping m) (mapping_ema m)
    (discriminator m) (c_dim m) (z_dim m) (w_dim m) (phases m) (cur_nimg m)
    (batch_idx m) (augment_pipe m) v (r1_gamma m)
    (pl_batch_shrink m) (pl_decay m) (pl_weight m) (pl_mean m) (ema_kimg m)
    (ema_rampup m) (augment_p m) (ada_kimg m) (ada_target m) (ada_interval m)
    (adjust_p m) (Loss_signs_real m) (align_grad m) (is_distributed m).

(** One accumulation round of the concrete run, for a phase and an archive. *)
Definition demo_acc (phase : string) (dic2 : option Npz) : AccArgs :=
  mkAccArgs phase (normalize (replicate 2 [255; 0]%Q)) (LabNoneList 1)
    (replicate 2 [0; 0; 0; 0]%Q) LabNone true 1 dic2.

(** The concrete model with [pl_batch_shrink=0], and without a
    discriminator. *)
Definition demo_args_shrink0 : Args :=
  mkArgs demo_net demo_ema demo_net demo_ema (Some demo_disc) (Some 4) (Some 16)
    (Some (mkAugmentPipe 0)) (9 # 10) 10 0 (1 # 100) 2 10 None 0 500 1 (Some (3 # 5)) true.

Definition demo_args_no_disc : Args :=
  mkArgs demo_net demo_ema demo_net demo_ema None (Some 4) (Some 16)
    (Some (mkAugmentPipe 0)) (9 # 10) 10 2 (1 # 100) 2 10 None 0 500 1 (Some (3 # 5)) true.

Definition demo_exp : Exp :=
  mkExp (1 # 1000) (mkOptimizerCfg 0 (99 # 100)) (mkOptimizerCfg 0 (99 # 100))
        (Some 4) None.

Definition demo_exp_v3 : ExpV3 :=
  mkExpV3 (1 # 1000) (1 # 2000) (mkOptimizerCfg 0 (99 # 100)) (mkOptimizerCfg 0 (99 # 100))
          None (Some 16).

(** * Properties *)

(** ** Generic facts about the result monad and the arithmetic helpers *)

Lemma bind_Ok {A B} (r : Res A) (k : A -> Res B) (b : B) :
  bind r k = Ok b -> exists a, r = Ok a /\ k a = Ok b.
Proof. destruct r as [a|e]; simpl; intros H; [eauto | discriminate]. Qed.

Ltac bind_inv H :=
  let a := fresh "a" in
  let Ha := fresh "Ha" in
  apply bind_Ok in H; destruct H as (a & Ha & H).

Lemma Qlt_bool_true (x y : Q) : Qlt_bool x y = true <-> (x < y)%Q.
Proof.
  unfold Qlt_bool. rewrite negb_true_iff. split.
  - intros H. apply Qnot_le_lt. intros Hle. apply Qle_bool_iff in Hle. congruence.
  - intros H. destruct (Qle_bool y x) eqn:E; [|reflexivity].
    apply Qle_bool_iff in E. exfalso. exact (Qlt_not_le _ _ H E).
Qed.

Lemma Qlt_bool_false (x y : Q) : Qlt_bool x y = false <-> (y <= x)%Q.
Proof.
  unfold Qlt_bool. rewrite negb_false_iff. apply Qle_bool_iff.
Qed.

Lemma pymax_ge_l (x y : Q) : (x <= pymax x y)%Q.
Proof.
  unfold pymax. destruct (Qlt_bool x y) eqn:E.
  - apply Qlt_bool_true in E. apply Qlt_le_weak, E.
  - apply Qle_refl.
Qed.

Lemma pymax_Qmax (x y : Q) : pymax x y = Qmax x y.
Proof.
  unfold pymax, Qmax, GenericMinMax.gmax.
  destruct (Qcompare_spec x y) as [H|H|H].
  - assert (E : Qlt_bool x y = false) by (apply Qlt_bool_false; rewrite H; apply Qle_refl).
    rewrite E. reflexivity.
  - apply Qlt_bool_true in H. rewrite H. reflexivity.
  - assert (E : Qlt_bool x y = false) by (apply Qlt_bool_false, Qlt_le_weak, H).
    rewrite E. reflexivity.
Qed.

Lemma pymin_Qmin (x y : Q) : pymin x y = Qmin x y.
Proof.
  unfold pymin, Qmin, GenericMinMax.gmin.
  destruct (Qcompare_spec x y) as [H|H|H].
  - assert (E : Qlt_bool y x = false) by (apply Qlt_bool_false; rewrite H; apply Qle_refl).
    rewrite E. reflexivity.
  - assert (E : Qlt_bool y x = false) by (apply Qlt_bool_false, Qlt_le_weak, H).
    rewrite E. reflexivity.
  - apply Qlt_bool_true in H. rewrite H. reflexivity.
Qed.

Lemma sign_pos (x : Q) : (0 < x)%Q -> sign x = 1%Q.
Proof. intros H. unfold sign. apply Qlt_bool_true in H. rewrite H. reflexivity. Qed.

Lemma sign_neg (x : Q) : (x < 0)%Q -> sign x = (-1)%Q.
Proof.
  intros H. unfold sign.
  destruct (Qlt_bool 0 x) eqn:E.
  - apply Qlt_bool_true in E. exfalso. apply (Qlt_irrefl 0). eapply Qlt_trans; eauto.
  - apply Qlt_bool_true in H. rewrite H. reflexivity.
Qed.

Lemma sign_zero (x : Q) : (x == 0)%Q -> sign x = 0%Q.
Proof.
  intros H. unfold sign.
  destruct (Qlt_bool 0 x) eqn:E.
  - apply Qlt_bool_true in E. rewrite H in E. exfalso. exact (Qlt_irrefl _ E).
  - destruct (Qlt_bool x 0) eqn:E'; [|reflexivity].
    apply Qlt_bool_true in E'. rewrite H in E'. exfalso. exact (Qlt_irrefl _ E').
Qed.

(** ** Phase schedule *)

(** C2. The constructor's schedule is the schedule of role G followed by the
    schedule of role D, where a role without regularization interval gets
    the single phase "<role>both" with interval 1 and a role with interval
    [k] gets "<role>main" with interval 1 followed by "<role>reg" with
    interval [k]. *)
Theorem build_phases_schedule (g d : option Z) :
  build_phases g d = spec_role_schedule "G" g ++ spec_role_schedule "D" d.
Proof. destruct g as [kg|], d as [kd|]; reflexivity. Qed.

Example build_phases_default :
  build_phases (Some 4) (Some 16) =
  [mkPhase "Gmain" 1; mkPhase "Greg" 4; mkPhase "Dmain" 1; mkPhase "Dreg" 16].
Proof. reflexivity. Qed.

Example build_phases_no_lazy_reg :
  build_phases None None = [mkPhase "Gboth" 1; mkPhase "Dboth" 1].
Proof. reflexivity. Qed.

(** ** Style mixing *)

(** What [run_G] does for a model whose field [style_mixing_prob] is
    positive: when the uniform draw falls below it, the layers from the
    drawn cutoff on come from the second noise sample. *)
Lemma run_G_mixes (E : Env) (m : Model) (z : Tensor) (c : LabelArg) (sync : bool) :
  (0 < style_mixing_prob m)%Q ->
  (rand E < style_mixing_prob m)%Q ->
  snd (run_G E m z c sync) =
  mix_styles (random_ E 1 (shape1 (mapping_forward E (mapping m) z c false)))
    (mapping_forward E (mapping m) z c false)
    (mapping_forward E (mapping m) (randn_like E z) c true).
Proof.
  intros H0 Hu. unfold run_G.
  apply Qlt_bool_true in H0. apply Qlt_bool_true in Hu.
  rewrite H0, Hu. reflexivity.
Qed.

Lemma run_G_disabled (E : Env) (m : Model) (z : Tensor) (c : LabelArg) (sync : bool) :
  (style_mixing_prob m <= 0)%Q ->
  snd (run_G E m z c sync) = mapping_forward E (mapping m) z c false.
Proof.
  intros H. unfold run_G. apply Qlt_bool_false in H. rewrite H. reflexivity.
Qed.

(** C3. Whatever [style_mixing_prob] the constructor is given (0.9 by
    default), the model it builds holds -1 in that field, and [run_G] on it
    returns the style codes of the mapping network unmixed, for every random
    draw. *)
Theorem init_disables_style_mixing (E : Env) (a : Args) (z : Tensor) (c : LabelArg)
    (sync : bool) :
  style_mixing_prob (init a) = (-1)%Q /\
  run_G E (init a) z c sync =
  (synthesis_forward E (arg_synthesis a) (mapping_forward E (arg_mapping a) z c false),
   mapping_forward E (arg_mapping a) z c false).
Proof. split; reflexivity. Qed.

(** ** Optimizer hyperparameters *)

(** With both intervals configured, the branch ends normally and hands the
    pre-scaled learning rate and betas to both optimizers; the betas of
    both roles derive from the generator entry of [optimizer_cfg]. *)
Lemma before_train_lazy (E : Env) (e : Exp) (batch_size kg kd : Z) :
  G_reg_interval e = Some kg -> D_reg_interval e = Some kd ->
  kg + 1 <> 0 -> kd + 1 <> 0 ->
  let lr := (basic_lr_per_img e * inject_Z batch_size)%Q in
  let rg := (inject_Z kg / inject_Z (kg + 1))%Q in
  let rd := (inject_Z kd / inject_Z (kd + 1))%Q in
  exists t,
    before_train E e batch_size = Ok t /\
    base_lr_G t = Some (lr * rg)%Q /\
    base_lr_D t = Some (lr * rd)%Q /\
    cfg_generator (exp t) =
      mkOptimizerCfg (fpow E (beta1 (cfg_generator e)) rg)
                     (fpow E (beta2 (cfg_generator e)) rg) /\
    cfg_discriminator (exp t) =
      mkOptimizerCfg (fpow E (beta1 (cfg_generator e)) rd)
                     (fpow E (beta2 (cfg_generator e)) rd).
Proof.
  intros HG HD Hg Hd. unfold before_train. rewrite HG, HD. simpl.
  apply Z.eqb_neq in Hg. apply Z.eqb_neq in Hd. rewrite Hg. simpl. rewrite Hd. simpl.
  eexists. split; [reflexivity|]. simpl. repeat split; reflexivity.
Qed.

(** C4. With no regularization interval for G, the branch raises at the
    assignment of [self.base_lr_G], whatever the interval of D: no optimizer
    is built, in particular none for a role D with a positive interval. *)
Theorem before_train_G_unset (E : Env) (lr : Q) (cg cd : OptimizerCfg)
    (D_interval : option Z) (batch_size : Z) :
  before_train E (mkExp lr cg cd None D_interval) batch_size =
  Raise (UnboundLocalError "new_lr").
Proof. reflexivity. Qed.

(** ** The moving average of the generator weights *)

Lemma lerp_one (s e : Q) : (lerp s e 1 == e)%Q.
Proof. unfold lerp. ring. Qed.

Lemma lerp_zero (s e : Q) : (lerp s e 0 == s)%Q.
Proof. unfold lerp. ring. Qed.

Lemma lerp_blend (live ema beta : Q) :
  (lerp live ema beta == beta * ema + (1 - beta) * live)%Q.
Proof. unfold lerp. ring. Qed.

Lemma lerp_tensor_one (live ema : list Q) :
  length ema = length live -> Forall2 Qeq (lerp_tensor live ema 1) ema.
Proof.
  revert ema. induction live as [|x live IH]; intros [|y ema] Hlen;
    simpl in *; try discriminate; constructor.
  - apply lerp_one.
  - apply IH. congruence.
Qed.

Lemma lerp_tensor_zero (live ema : list Q) :
  length ema = length live -> Forall2 Qeq (lerp_tensor live ema 0) live.
Proof.
  revert ema. induction live as [|x live IH]; intros [|y ema] Hlen;
    simpl in *; try discriminate; constructor.
  - apply lerp_zero.
  - apply IH. congruence.
Qed.

Lemma lerp_tensor_blended (beta : Q) (live ema : list Q) :
  length ema = length live ->
  Forall3 (fun l o n => n == beta * o + (1 - beta) * l)%Q
          live ema (lerp_tensor live ema beta).
Proof.
  revert ema. induction live as [|x live IH]; intros [|y ema] Hlen;
    simpl in *; try discriminate; constructor.
  - apply lerp_blend.
  - apply IH. congruence.
Qed.

Lemma blend_parameters_cons (e : list Q) (ema : list (list Q)) (l : list Q)
    (live : list (list Q)) (beta : Q) :
  blend_parameters (e :: ema) (l :: live) beta =
  lerp_tensor l e beta :: blend_parameters ema live beta.
Proof. reflexivity. Qed.

Lemma blend_parameters_one (ema live : list (list Q)) :
  same_shape ema live -> tensors_eq (blend_parameters ema live 1) ema.
Proof.
  induction 1 as [|e l ema live Hlen _ IH].
  - constructor.
  - rewrite blend_parameters_cons. constructor; [|exact IH].
    apply lerp_tensor_one, Hlen.
Qed.

Lemma blend_parameters_zero (ema live : list (list Q)) :
  same_shape ema live -> tensors_eq (blend_parameters ema live 0) live.
Proof.
  induction 1 as [|e l ema live Hlen _ IH].
  - constructor.
  - rewrite blend_parameters_cons. constructor; [|exact IH].
    apply lerp_tensor_zero, Hlen.
Qed.

Lemma blend_parameters_blended (beta : Q) (ema live : list (list Q)) :
  same_shape ema live -> blended beta live ema (blend_parameters ema live beta).
Proof.
  induction 1 as [|e l ema live Hlen _ IH].
  - constructor.
  - rewrite blend_parameters_cons. constructor; [|exact IH].
    apply lerp_tensor_blended, Hlen.
Qed.

Lemma copy_buffers_same_length (ema live : list (list Q)) :
  length ema = length live -> copy_buffers ema live = live.
Proof.
  revert live. induction ema as [|e ema IH]; intros [|l live] Hlen;
    simpl in *; try discriminate; [reflexivity|].
  unfold copy_buffers in *. simpl. f_equal. apply IH. congruence.
Qed.

(** C9. With blend factor 1 the update leaves every parameter of both EMA
    networks as it was, and with blend factor 0 it makes every one of them
    equal to the live parameter it is paired with (the paired tensors having
    the same shape). *)
Theorem ema_update_extremes (m : Model) :
  same_shape (parameters (mapping_ema m)) (parameters (mapping m)) ->
  same_shape (parameters (synthesis_ema m)) (parameters (synthesis m)) ->
  (tensors_eq (parameters (mapping_ema (ema_update 1 m))) (parameters (mapping_ema m)) /\
   tensors_eq (parameters (synthesis_ema (ema_update 1 m)))
              (parameters (synthesis_ema m))) /\
  (tensors_eq (parameters (mapping_ema (ema_update 0 m))) (parameters (mapping m)) /\
   tensors_eq (parameters (synthesis_ema (ema_update 0 m))) (parameters (synthesis m))).
Proof.
  intros Hm Hs. simpl. repeat split.
  - apply blend_parameters_one, Hm.
  - apply blend_parameters_one, Hs.
  - apply blend_parameters_zero, Hm.
  - apply blend_parameters_zero, Hs.
Qed.

(** ** [torch.split] *)

Lemma chunk_nil {A} (fuel k : nat) : chunk fuel k (@nil A) = [].
Proof. destruct fuel; reflexivity. Qed.

Lemma split_whole {A} (t : list A) : split t (shape0 t) = Ok [t].
Proof.
  unfold split, shape0. destruct t as [|x t]; [reflexivity|].
  assert (H : (Z.of_nat (length (x :: t)) <? 0) = false) by (apply Z.ltb_ge; lia).
  rewrite H.
  assert (H0 : (Z.of_nat (length (x :: t)) =? 0) = false)
    by (apply Z.eqb_neq; simpl; lia).
  rewrite H0, Nat2Z.id. simpl length.
  change (chunk (S (length t)) (S (length t)) (x :: t))
    with (take (S (length t)) (x :: t)
            :: chunk (length t) (S (length t)) (drop (S (length t)) (x :: t))).
  simpl take. simpl drop. rewrite firstn_all, skipn_all, chunk_nil. reflexivity.
Qed.

Lemma split_nonempty {A} (t : list A) (k : Z) (l : list (list A)) :
  split t k = Ok l -> l <> [].
Proof.
  unfold split. destruct (k <? 0); [discriminate|].
  destruct t as [|x t].
  - intros [= <-]. discriminate.
  - destruct (k =? 0); [discriminate|]. intros [= <-]. simpl. discriminate.
Qed.

Lemma chunk_length {A} (k n : nat) :
  (0 < k)%nat ->
  forall (fuel : nat) (t : list A),
    length t = (n * k)%nat -> (length t <= fuel)%nat ->
    length (chunk fuel k t) = n.
Proof.
  intros Hk. induction n as [|n IH]; intros fuel t Hlen Hfuel.
  - simpl in Hlen. destruct t; [|discriminate]. rewrite chunk_nil. reflexivity.
  - destruct t as [|x t]; [simpl in Hlen; lia|].
    destruct fuel as [|fuel]; [simpl in Hfuel; lia|].
    change (chunk (S fuel) k (x :: t))
      with (take k (x :: t) :: chunk fuel k (drop k (x :: t))).
    simpl length. f_equal. apply IH.
    + rewrite length_drop, Hlen. simpl. lia.
    + rewrite length_drop. simpl in *. lia.
Qed.

Lemma split_length {A} (t : list A) (k n : Z) (l : list (list A)) :
  0 < k -> 0 <= n -> shape0 t = n * k -> split t k = Ok l ->
  (Z.to_nat n <= length l)%nat.
Proof.
  intros Hk Hn Hrows. unfold split.
  assert (H : (k <? 0) = false) by (apply Z.ltb_ge; lia). rewrite H.
  destruct t as [|x t].
  - intros [= <-]. unfold shape0 in Hrows. simpl in Hrows.
    assert (n = 0) by nia. subst n. simpl. lia.
  - assert (H0 : (k =? 0) = false) by (apply Z.eqb_neq; lia). rewrite H0.
    assert (Hc : length (chunk (length (x :: t)) (Z.to_nat k) (x :: t)) = Z.to_nat n).
    { apply chunk_length; [lia| |lia]. unfold shape0 in Hrows. lia. }
    intros [= <-].
    change (Z.to_nat n <= length (chunk (length (x :: t)) (Z.to_nat k) (x :: t)))%nat.
    rewrite Hc. lia.
Qed.

(** ** Monadic loops *)

Lemma mapM_Forall2 {A B} (f : A -> Res B) (l : list A) (l' : list B) :
  mapM f l = Ok l' -> Forall2 (fun a b => f a = Ok b) l l'.
Proof.
  revert l'. induction l as [|a l IH]; intros l' H; simpl in H.
  - injection H as <-. constructor.
  - bind_inv H. bind_inv H. injection H as <-. constructor; auto.
Qed.

Lemma mapM_length {A B} (f : A -> Res B) (l : list A) (l' : list B) :
  mapM f l = Ok l' -> length l' = length l.
Proof. intros H. apply mapM_Forall2 in H. symmetry. eapply Forall2_length, H. Qed.

Lemma mapM_Forall {A B} (f : A -> Res B) (P : B -> Prop) (l : list A) (l' : list B) :
  (forall a b, f a = Ok b -> P b) -> mapM f l = Ok l' -> Forall P l'.
Proof.
  intros Hf H. apply mapM_Forall2 in H.
  induction H; constructor; eauto.
Qed.

Lemma foldM_invariant {A B} (f : A -> B -> Res A) (R : A -> A -> Prop) :
  (forall a, R a a) ->
  (forall a1 a2 a3, R a1 a2 -> R a2 a3 -> R a1 a3) ->
  (forall a b a', f a b = Ok a' -> R a a') ->
  forall (l : list B) (a a' : A), foldM f l a = Ok a' -> R a a'.
Proof.
  intros Hrefl Htrans Hstep. induction l as [|b l IH]; intros a a' H; simpl in H.
  - injection H as <-. apply Hrefl.
  - bind_inv H. eapply Htrans; [eapply Hstep; eassumption | apply IH, H].
Qed.

(** ** One accumulation round *)

Lemma settings_align_grad (m m' : Model) :
  settings m' = settings m -> align_grad m' = align_grad m.
Proof. unfold settings. congruence. Qed.

Lemma settings_batch_idx (m m' : Model) :
  settings m' = settings m -> batch_idx m' = batch_idx m.
Proof. unfold settings. congruence. Qed.

Lemma settings_reference_keys (m m' : Model) (phase : string) :
  settings m' = settings m -> reference_keys m' phase = reference_keys m phase.
Proof.
  intros H. unfold settings in H.
  assert (Hw : pl_weight m' = pl_weight m) by congruence.
  assert (Hr : r1_gamma m' = r1_gamma m) by congruence.
  unfold reference_keys, do_Gpl, do_Dr1. rewrite Hw, Hr. reflexivity.
Qed.

Lemma read_keys_app (dic2 : option Npz) (ks1 ks2 : list string) :
  read_keys dic2 ks1 = Ok tt -> read_keys dic2 ks2 = Ok tt ->
  read_keys dic2 (ks1 ++ ks2) = Ok tt.
Proof.
  intros H1 H2. induction ks1 as [|k ks1 IH]; simpl in *; [exact H2|].
  destruct (getitem dic2 k); simpl in *; [auto | discriminate].
Qed.

Lemma read_keys_present (d : Npz) (ks : list string) :
  read_keys (Some d) ks = Ok tt -> Forall (fun k => is_Some (d !! k)) ks.
Proof.
  induction ks as [|k ks IH]; simpl; intros H; constructor.
  - destruct (d !! k); [eauto | discriminate].
  - destruct (d !! k); [auto | discriminate].
Qed.

Lemma align_read (m : Model) (dic2 : option Npz) (ks : list string) (u : unit) :
  align m dic2 ks = Ok u -> align_grad m = true -> read_keys dic2 ks = Ok tt.
Proof. unfold align. intros H Hal. rewrite Hal in H. destruct u. exact H. Qed.

Lemma acc_Gmain_inv (E : Env) (m0 : Model) (a : AccArgs) (l l' : gmap string Q) :
  acc_Gmain E m0 a l = Ok l' ->
  align_grad m0 = true ->
  read_keys (a_dic2 a)
    (if do_Gmain (a_phase a)
     then [a_phase a +:+ "gen_img"; a_phase a +:+ "_gen_ws"; a_phase a +:+ "gen_logits"]
     else []) = Ok tt.
Proof.
  unfold acc_Gmain. intros H Hal. destruct (do_Gmain (a_phase a)); [|reflexivity].
  bind_inv H. bind_inv H. bind_inv H.
  apply (read_keys_app _ [_; _] [_]); eapply align_read; eauto.
Qed.

Lemma acc_Gpl_inv (E : Env) (m0 : Model) (a : AccArgs) (m m' : Model)
    (l l' : gmap string Q) :
  acc_Gpl E m0 a m l = Ok (m', l') ->
  settings m' = settings m /\
  (align_grad m = true ->
   read_keys (a_dic2 a)
     (if do_Gpl m0 (a_phase a)
      then [a_phase a +:+ "gen_img"; a_phase a +:+ "gen_ws";
            a_phase a +:+ "pl_grads"; a_phase a +:+ "pl_lengths"]
      else []) = Ok tt).
Proof.
  unfold acc_Gpl. intros H. destruct (do_Gpl m0 (a_phase a)).
  - bind_inv H. bind_inv H. bind_inv H. injection H as <- <-. split; [reflexivity|].
    intros Hal. apply (read_keys_app _ [_; _] [_; _]); eapply align_read; eauto.
  - injection H as <- <-. split; reflexivity.
Qed.

Lemma acc_Dgen_inv (E : Env) (m0 : Model) (a : AccArgs) (m : Model)
    (l l' : gmap string Q) :
  acc_Dgen E m0 a m l = Ok l' ->
  align_grad m = true ->
  read_keys (a_dic2 a)
    (if do_Dmain (a_phase a)
     then [a_phase a +:+ "gen_img"; a_phase a +:+ "_gen_ws"; a_phase a +:+ "gen_logits"]
     else []) = Ok tt.
Proof.
  unfold acc_Dgen. intros H Hal. destruct (do_Dmain (a_phase a)); [|reflexivity].
  bind_inv H. bind_inv H. bind_inv H.
  apply (read_keys_app _ [_; _] [_]); eapply align_read; eauto.
Qed.

Lemma acc_Dreal_inv (E : Env) (m0 : Model) (a : AccArgs) (m m' : Model)
    (l l' : gmap string Q) :
  acc_Dreal E m0 a m l = Ok (m', l') ->
  settings m' = settings m /\
  (align_grad m = true ->
   read_keys (a_dic2 a)
     (if do_Dmain (a_phase a) || do_Dr1 m0 (a_phase a)
      then [a_phase a +:+ "real_logits"]
           ++ (if do_Dmain (a_phase a) then [a_phase a +:+ "loss_Dreal"] else [])
           ++ (if do_Dr1 m0 (a_phase a)
               then [a_phase a +:+ "r1_grads"; a_phase a +:+ "r1_penalty"] else [])
      else []) = Ok tt).
Proof.
  unfold acc_Dreal. intros H.
  destruct (do_Dmain (a_phase a) || do_Dr1 m0 (a_phase a)).
  - bind_inv H. rename a0 into u0. rename Ha into HrunD.
    set (m1 := if adjust_p m && is_not_None (augment_pipe m)
               then set_Loss_signs_real
                      (Loss_signs_real m ++ [real_logits_sign E a m0]) m
               else m) in *.
    assert (Hs : settings m1 = settings m)
      by (unfold m1; destruct (adjust_p m && is_not_None (augment_pipe m)); reflexivity).
    bind_inv H. bind_inv H. bind_inv H. injection H as <- <-.
    split; [exact Hs|]. intros Hal.
    assert (Hal1 : align_grad m1 = true)
      by (rewrite (settings_align_grad _ _ Hs); exact Hal).
    apply read_keys_app; [eapply align_read; eauto|].
    apply read_keys_app.
    + destruct (do_Dmain (a_phase a)); [|reflexivity].
      bind_inv Ha0. eapply align_read; eauto.
    + destruct (do_Dr1 m0 (a_phase a)); [|reflexivity].
      bind_inv Ha1. bind_inv Ha1.
      apply (read_keys_app _ [_] [_]); eapply align_read; eauto.
  - injection H as <- <-. split; reflexivity.
Qed.

Lemma accumulate_gradients_inv (E : Env) (m : Model) (a : AccArgs) (m' : Model)
    (l : gmap string Q) :
  accumulate_gradients E m a = Ok (m', l) ->
  in_list (a_phase a) phase_names = true /\
  settings m' = settings m /\
  (align_grad m = true ->
   read_keys (a_dic2 a) (reference_keys m (a_phase a)) = Ok tt).
Proof.
  unfold accumulate_gradients. intros H.
  destruct (in_list (a_phase a) phase_names); [|discriminate]. simpl in H.
  bind_inv H. rename a0 into l1. rename Ha into H1.
  bind_inv H. destruct a0 as [m2 l2]. rename Ha into H2.
  bind_inv H. rename a0 into l3. rename Ha into H3.
  bind_inv H. destruct a0 as [m4 l4]. rename Ha into H4.
  injection H as <- <-.
  apply acc_Gpl_inv in H2. destruct H2 as [S2 K2].
  apply acc_Dreal_inv in H4. destruct H4 as [S4 K4].
  split; [reflexivity|]. split.
  - change (settings m4 = settings m). congruence.
  - intros Hal.
    assert (Hal2 : align_grad m2 = true)
      by (rewrite (settings_align_grad _ _ S2); exact Hal).
    unfold reference_keys.
    apply read_keys_app; [eapply acc_Gmain_inv; eauto|].
    apply read_keys_app; [auto|].
    apply read_keys_app; [eapply acc_Dgen_inv; eauto|].
    auto.
Qed.

Lemma phase_names_optimizer (phase_name : string) :
  in_list phase_name phase_names = true ->
  exists o, optimizer_of phase_name = Some o.
Proof.
  unfold in_list, phase_names. simpl. intros H.
  repeat (apply orb_true_iff in H; destruct H as [H|H];
          [apply String.eqb_eq in H; subst; compute; eauto|]).
  discriminate.
Qed.

(** ** One phase of the schedule *)

Lemma round_ok_settings (m m' : Model) (dic2 : option Npz) (real : list Tensor)
    (a : AccArgs) :
  settings m' = settings m -> round_ok m' dic2 real a -> round_ok m dic2 real a.
Proof.
  intros Hs (Hd & Hin & Hk). repeat split; auto.
  intros Hal. rewrite <- (settings_reference_keys m m'); [|exact Hs].
  apply Hk. rewrite (settings_align_grad _ _ Hs). exact Hal.
Qed.

Lemma Forall_zip_fst {A B} (P : A -> Prop) (l : list A) (k : list B) :
  Forall P l -> Forall (fun pr => P (fst pr)) (zip l k).
Proof.
  intros H. revert k. induction H as [|x l Hx _ IH]; intros [|y k]; simpl;
    constructor; auto.
Qed.

Lemma floordiv_Ok (a b q : Z) : floordiv a b = Ok q -> b <> 0 /\ q = a / b.
Proof.
  unfold floordiv. destruct (Z.eqb_spec b 0); [discriminate|].
  intros [= <-]. auto.
Qed.

Lemma pymod_Ok (a b r : Z) : pymod a b = Ok r -> b <> 0 /\ r = a mod b.
Proof.
  unfold pymod. destruct (Z.eqb_spec b 0); [discriminate|].
  intros [= <-]. auto.
Qed.

Lemma init_accumulation_inv (phase : Phase) (st st' : Loop) :
  init_accumulation phase st = Ok st' ->
  lp_model st' = lp_model st /\
  lp_trace st' = lp_trace st ++ optimizer_events EvZeroGrad (name phase).
Proof.
  unfold init_accumulation, optimizer_events, optimizer_of.
  destruct (contains "G" (name phase)).
  - intros [= <-]. split; reflexivity.
  - destruct (contains "D" (name phase)).
    + destruct (discriminator (lp_model st)); [|discriminate].
      intros [= <-]. split; reflexivity.
    + intros [= <-]. rewrite app_nil_r. split; reflexivity.
Qed.

Lemma update_weights_inv (E : Env) (phase : Phase) (st st' : Loop) :
  update_weights E phase st = Ok st' ->
  settings (lp_model st') = settings (lp_model st) /\
  lp_trace st' = lp_trace st ++ optimizer_events EvStep (name phase).
Proof.
  unfold update_weights, optimizer_events, optimizer_of.
  destruct (contains "G" (name phase)).
  - intros [= <-]. split; reflexivity.
  - destruct (contains "D" (name phase)).
    + destruct (discriminator (lp_model st)); [|discriminate].
      intros [= <-]. split; reflexivity.
    + intros [= <-]. rewrite app_nil_r. split; reflexivity.
Qed.

Section PhaseLoop.

(** What stays fixed while the phases of one iteration run. *)
Context (E : Env) (batch_size batch_gpu num_gpus : Z) (dic2 : option Npz).

Lemma rounds_inv (phase : Phase) (real : list Tensor)
    (items : list (Tensor * LabelArg * Tensor * LabelArg)) :
  Forall (fun it => In (fst (fst (fst it))) real) items ->
  forall (round_idx : Z) (st st' : Loop),
    rounds E batch_size batch_gpu num_gpus phase dic2 round_idx items st = Ok st' ->
    settings (lp_model st') = settings (lp_model st) /\
    exists args,
      lp_trace st' = lp_trace st ++ map EvAccumulate args /\
      length args = length items /\
      Forall (fun a => a_phase a = name phase /\ a_gain a = interval phase /\
                       in_list (name phase) phase_names = true /\
                       round_ok (lp_model st) dic2 real a) args.
Proof.
  induction 1 as [|it items Hit _ IH]; intros round_idx st st' H; simpl in H.
  - injection H as <-. split; [reflexivity|]. exists [].
    rewrite app_nil_r. repeat split; constructor.
  - destruct it as [[[real_img real_c] gen_z] gen_c]. simpl in Hit.
    bind_inv H. bind_inv H. destruct a0 as [m1 l1].
    apply accumulate_gradients_inv in Ha0.
    cbn [a_phase a_dic2 a_real_img a_gain] in Ha0.
    destruct Ha0 as (Hname & Hs1 & Hkeys).
    apply IH in H. simpl in H. destruct H as (Hs & args & Htr & Hlen & Hall).
    split; [congruence|].
    eexists (_ :: args). split; [|split].
    + rewrite Htr. rewrite <- app_assoc. reflexivity.
    + simpl. congruence.
    + constructor.
      * cbn [a_phase a_gain]. split; [reflexivity|]. split; [reflexivity|].
        split; [exact Hname|].
        split; [reflexivity|]. split; [exact Hit|]. exact Hkeys.
      * eapply Forall_impl; [exact Hall|]. simpl.
        intros a0 (? & ? & ? & Hok).
        split; [assumption|]. split; [assumption|]. split; [assumption|].
        eapply round_ok_settings; [exact Hs1 | exact Hok].
Qed.

Lemma run_phase_inv (phase_real_img : list Tensor) (phase_real_c : list LabelArg)
    (st : Loop) (phase : Phase) (gz : list Tensor) (gc : list LabelArg) (st' : Loop) :
  run_phase E batch_size batch_gpu num_gpus dic2 phase_real_img phase_real_c st
            (phase, gz, gc) = Ok st' ->
  settings (lp_model st') = settings (lp_model st) /\
  (due (batch_idx (lp_model st)) phase = false -> st' = st) /\
  (due (batch_idx (lp_model st)) phase = true ->
   exists args,
     lp_trace st' =
       lp_trace st ++ optimizer_events EvZeroGrad (name phase)
         ++ map EvAccumulate args ++ optimizer_events EvStep (name phase) /\
     length args = length (zip (zip (zip phase_real_img phase_real_c) gz) gc) /\
     Forall (fun a => a_phase a = name phase /\ a_gain a = interval phase /\
                      in_list (name phase) phase_names = true /\
                      round_ok (lp_model st) dic2 phase_real_img a) args).
Proof.
  unfold run_phase, due. intros H. bind_inv H.
  apply pymod_Ok in Ha. destruct Ha as [Hne ->].
  destruct (batch_idx (lp_model st) mod interval phase =? 0); simpl in H.
  - bind_inv H. rename a into st1. bind_inv H. rename a into st2.
    apply init_accumulation_inv in Ha. destruct Ha as [Hm1 Ht1].
    apply rounds_inv with (real := phase_real_img) in Ha0.
    2:{ apply (Forall_zip_fst
                 (fun x : Tensor * LabelArg * Tensor => In (fst (fst x)) phase_real_img)).
        apply (Forall_zip_fst
                 (fun x : Tensor * LabelArg => In (fst x) phase_real_img)).
        apply (Forall_zip_fst (fun x : Tensor => In x phase_real_img)).
        apply List.Forall_forall. auto. }
    destruct Ha0 as (Hs2 & args & Ht2 & Hlen & Hall).
    apply update_weights_inv in H. destruct H as [Hs3 Ht3].
    rewrite Hm1 in *.
    split; [congruence|]. split; [discriminate|]. intros _.
    exists args. split; [|split; [exact Hlen | exact Hall]].
    rewrite Ht3, Ht2, Ht1. rewrite <- !app_assoc. reflexivity.
  - injection H as <-. split; [reflexivity|]. split; [reflexivity|discriminate].
Qed.

End PhaseLoop.

(** ** The phase loop and the whole iteration *)

Lemma event_ok_settings (m m' : Model) (dic2 : option Npz) (real : list Tensor)
    (ev : Event) :
  settings m' = settings m -> event_ok m' dic2 real ev -> event_ok m dic2 real ev.
Proof. destruct ev; simpl; auto. apply round_ok_settings. Qed.

Lemma phase_loop_inv (E : Env) (batch_size batch_gpu num_gpus : Z)
    (dic2 : option Npz) (real : list Tensor) (real_c : list LabelArg) (m : Model)
    (items : list (Phase * list Tensor * list LabelArg)) (st st' : Loop) :
  foldM (run_phase E batch_size batch_gpu num_gpus dic2 real real_c) items st = Ok st' ->
  settings (lp_model st) = settings m ->
  settings (lp_model st') = settings m /\
  (Forall (event_ok m dic2 real) (lp_trace st) ->
   Forall (event_ok m dic2 real) (lp_trace st')).
Proof.
  revert items st st'.
  apply (foldM_invariant
           (run_phase E batch_size batch_gpu num_gpus dic2 real real_c)
           (fun st st' =>
              settings (lp_model st) = settings m ->
              settings (lp_model st') = settings m /\
              (Forall (event_ok m dic2 real) (lp_trace st) ->
               Forall (event_ok m dic2 real) (lp_trace st')))).
  - auto.
  - intros st1 st2 st3 H12 H23 Hs. destruct (H12 Hs) as [Hs2 Ht2].
    destruct (H23 Hs2) as [Hs3 Ht3]. auto.
  - intros st [[phase gz] gc] st' H Hs.
    apply run_phase_inv in H. destruct H as (Hs' & Hskip & Hrun).
    split; [congruence|]. intros Hall.
    destruct (due (batch_idx (lp_model st)) phase) eqn:Hdue.
    + destruct (Hrun eq_refl) as (args & Htr & _ & Hargs). rewrite Htr.
      apply Forall_app. split; [exact Hall|].
      apply Forall_app. split.
      { unfold optimizer_events. destruct (optimizer_of (name phase));
          repeat constructor. }
      apply Forall_app. split.
      { apply Forall_map. eapply Forall_impl; [exact Hargs|].
        intros a (_ & _ & _ & Hok). simpl.
        eapply round_ok_settings; [|exact Hok]. exact Hs. }
      unfold optimizer_events. destruct (optimizer_of (name phase));
        repeat constructor.
    + rewrite (Hskip eq_refl). exact Hall.
Qed.

Lemma train_iter_inv (E : Env) (m : Model) (input : Input) (rank : Z) (m' : Model)
    (losses : gmap string Q) (trace : list Event) :
  train_iter E m input rank = Ok (m', losses, trace) ->
  exists dic2 img all_gen_z all_gen_c real_c st,
    load_batch E m input rank = Ok (dic2, img) /\
    make_gen_z E m dic2 (shape0 img) (shape0 img) = Ok all_gen_z /\
    make_gen_c m input (shape0 img) 1 = Ok all_gen_c /\
    make_real_c m input (shape0 img) 1 = Ok real_c /\
    foldM (run_phase E (shape0 img) (shape0 img) 1 dic2 [img] real_c)
          (zip (zip (phases m) all_gen_z) all_gen_c) (mkLoop m ∅ [] []) = Ok st /\
    let m1 := ema_update (ema_beta E (lp_model st) (shape0 img)) (lp_model st) in
    let m2 := set_counters (cur_nimg m1 + shape0 img) (batch_idx m1 + 1) m1 in
    align m2 dic2 ["w_avg"] = Ok tt /\
    ada_heuristic m2 dic2 (shape0 img) = Ok m' /\
    losses = loss_numpys st /\ trace = lp_trace st.
Proof.
  unfold train_iter. intros H.
  bind_inv H. destruct a as [dic2 img]. cbv zeta in H.
  rewrite Z.div_1_r in H. change (Z.to_nat 1) with 1%nat in H.
  bind_inv H. rename a into all_gen_z.
  bind_inv H. rename a into all_gen_c.
  rewrite split_whole in H. simpl bind in H.
  bind_inv H. rename a into real_c.
  bind_inv H. rename a into st.
  bind_inv H. destruct a.
  bind_inv H. injection H as <- <- <-.
  exists dic2, img, all_gen_z, all_gen_c, real_c, st.
  repeat split; assumption.
Qed.

(** ** The ADA heuristic *)

(** The heuristic assigns nothing but [augment_pipe.p] and
    [Loss_signs_real]. *)
Lemma ada_heuristic_frame (m : Model) (dic2 : option Npz) (batch_size : Z)
    (m' : Model) :
  ada_heuristic m dic2 batch_size = Ok m' ->
  exists pipe signs, m' = set_Loss_signs_real signs (set_augment_pipe pipe m).
Proof.
  unfold ada_heuristic. intros H.
  assert (Hid : m = set_Loss_signs_real (Loss_signs_real m)
                      (set_augment_pipe (augment_pipe m) m))
    by (destruct m; reflexivity).
  destruct (augment_pipe m) as [pipe|] eqn:Hp.
  2:{ injection H as <-. eauto. }
  destruct (adjust_p m).
  2:{ injection H as <-. eauto. }
  bind_inv H. destruct (a =? 0).
  2:{ injection H as <-. eauto. }
  bind_inv H. bind_inv H. bind_inv H. bind_inv H. injection H as <-. eauto.
Qed.

Lemma ada_heuristic_fires (m : Model) (dic2 : option Npz) (batch_size : Z)
    (m' : Model) (pipe : AugmentPipe) :
  ada_heuristic m dic2 batch_size = Ok m' ->
  augment_pipe m = Some pipe -> adjust_p m = true ->
  batch_idx m mod ada_interval m = 0 ->
  exists t,
    ada_target m = Some t /\
    Loss_signs_real m <> [] /\
    m' = set_Loss_signs_real []
           (set_augment_pipe
              (Some (mkAugmentPipe
                       (pymax 0 (p pipe
                                 + sign (mean (concat (Loss_signs_real m)) - t)
                                   * inject_Z (batch_size * ada_interval m)
                                   / (ada_kimg m * 1000)))%Q)) m).
Proof.
  unfold ada_heuristic. intros H Hp Hadj Hmod. rewrite Hp, Hadj in H.
  bind_inv H. apply pymod_Ok in Ha. destruct Ha as [_ ->].
  rewrite Hmod in H. simpl in H.
  bind_inv H. bind_inv H. bind_inv H. bind_inv H. injection H as <-.
  destruct (ada_target m) as [t|]; [|discriminate]. injection Ha0 as <-.
  exists t. split; [reflexivity|].
  destruct (Loss_signs_real m) eqn:Hsigns; [discriminate|].
  injection Ha as <-. split; [discriminate | reflexivity].
Qed.

Lemma ada_heuristic_p_nonneg (m : Model) (dic2 : option Npz) (batch_size : Z)
    (m' : Model) :
  ada_heuristic m dic2 batch_size = Ok m' -> p_nonneg m -> p_nonneg m'.
Proof.
  unfold ada_heuristic, p_nonneg. intros H Hnn.
  destruct (augment_pipe m) as [pipe|] eqn:Hp.
  2:{ injection H as <-. rewrite Hp. exact I. }
  destruct (adjust_p m).
  2:{ injection H as <-. rewrite Hp. exact Hnn. }
  bind_inv H. destruct (a =? 0).
  2:{ injection H as <-. rewrite Hp. exact Hnn. }
  bind_inv H. bind_inv H. bind_inv H. bind_inv H. injection H as <-.
  simpl. apply pymax_ge_l.
Qed.

Lemma settings_augment_pipe (m m' : Model) :
  settings m' = settings m -> augment_pipe m' = augment_pipe m.
Proof. unfold settings. congruence. Qed.

Lemma train_iter_p_nonneg (E : Env) (m : Model) (input : Input) (rank : Z)
    (m' : Model) (losses : gmap string Q) (trace : list Event) :
  train_iter E m input rank = Ok (m', losses, trace) -> p_nonneg m -> p_nonneg m'.
Proof.
  intros H Hnn. apply train_iter_inv in H.
  destruct H as (dic2 & img & zs & cs & rc & st & _ & _ & _ & _ & Hloop & H).
  cbv zeta in H. destruct H as (_ & Hada & _ & _).
  apply phase_loop_inv with (m := m) in Hloop; [|reflexivity].
  destruct Hloop as [Hs _].
  eapply ada_heuristic_p_nonneg; [exact Hada|].
  unfold p_nonneg in *. simpl.
  rewrite (settings_augment_pipe _ _ Hs). exact Hnn.
Qed.

(** C6. Starting from an augmentation strength that is not negative, after
    any number of successive training iterations, whatever signs the
    discriminator produced and however often the controller fired, the
    strength is still not negative. *)
Theorem augment_p_never_negative (E : Env) (rank : Z) (inputs : list Input)
    (m m' : Model) :
  p_nonneg m -> train_in_iter E rank inputs m = Ok m' -> p_nonneg m'.
Proof.
  revert m. induction inputs as [|input inputs IH]; intros m Hnn H; simpl in H.
  - injection H as <-. exact Hnn.
  - bind_inv H. destruct a as [[m1 losses] trace]. simpl in H.
    eapply IH; [|exact H]. eapply train_iter_p_nonneg; eauto.
Qed.

Lemma new_p_cases (pp step s A B : Q) :
  (A / B == step)%Q -> (0 <= pp)%Q -> (0 < step)%Q ->
  let x := Qmax 0 (pp + s * A / B)%Q in
  ((s = 1 -> x == pp + step /\ pp < x) /\
   (s = 0 -> x == pp) /\
   (s = -1 -> x == Qmax 0 (pp - step) /\ (0 < pp -> x < pp) /\ (pp == 0 -> x == 0)))%Q.
Proof.
  intros Hstep Hpp Hpos x.
  assert (E : (pp + s * A / B == pp + s * step)%Q)
    by (rewrite <- Hstep; unfold Qdiv; ring).
  destruct (Q.max_spec 0 (pp + s * A / B)%Q) as [[Hc Hx]|[Hc Hx]];
    fold x in Hx; rewrite E in Hc;
    destruct (Q.max_spec 0 (pp - step)%Q) as [[Hc' Hx']|[Hc' Hx']];
    (split; [|split]); intros ->; rewrite ?Hx, ?Hx', ?E; repeat split;
    try intros ?; try lra.
Qed.

(** C7, with the floor at zero.  When the controller fires, with [mu] the mean of the
    buffered signs, [t] the target and a positive step
    (batch_size * ada_interval) / (ada_kimg * 1000): the strength grows by
    exactly the step if [mu > t], is unchanged if [mu == t], and becomes
    max(0, strength - step) if [mu < t], which is strictly smaller when the
    strength was positive and still 0 when it was 0; the sign buffer is
    empty afterwards. *)
Theorem ada_heuristic_adjusts (m : Model) (dic2 : option Npz) (batch_size : Z)
    (m' : Model) (pipe : AugmentPipe) :
  ada_heuristic m dic2 batch_size = Ok m' ->
  augment_pipe m = Some pipe -> adjust_p m = true ->
  batch_idx m mod ada_interval m = 0 ->
  (0 <= p pipe)%Q ->
  (0 < spec_ada_step batch_size m)%Q ->
  exists t pipe',
    ada_target m = Some t /\
    augment_pipe m' = Some pipe' /\
    Loss_signs_real m' = [] /\
    let mu := mean (concat (Loss_signs_real m)) in
    let step := spec_ada_step batch_size m in
    ((t < mu -> p pipe' == p pipe + step /\ p pipe < p pipe') /\
     (mu == t -> p pipe' == p pipe) /\
     (mu < t -> p pipe' == Qmax 0 (p pipe - step) /\
                (0 < p pipe -> p pipe' < p pipe) /\
                (p pipe == 0 -> p pipe' == 0)))%Q.
Proof.
  intros H Hp Hadj Hmod Hnn Hstep.
  destruct (ada_heuristic_fires _ _ _ _ _ H Hp Hadj Hmod) as (t & Ht & _ & ->).
  exists t. eexists. split; [exact Ht|]. split; [reflexivity|]. split; [reflexivity|].
  cbv zeta. cbn [p]. rewrite pymax_Qmax.
  destruct (new_p_cases (p pipe) (spec_ada_step batch_size m)
              (sign (mean (concat (Loss_signs_real m)) - t))
              (inject_Z (batch_size * ada_interval m)) (ada_kimg m * 1000)%Q
              (Qeq_refl _) Hnn Hstep) as (Hup & Hsame & Hdown).
  split; [|split].
  - intros Hlt. apply Hup, sign_pos. lra.
  - intros Heq. apply Hsame, sign_zero. lra.
  - intros Hlt. apply Hdown, sign_neg. lra.
Qed.

(** ** The iteration as a whole: counters and moving average *)

Lemma train_iter_counters (E : Env) (m : Model) (input : Input) (rank : Z)
    (m' : Model) (losses : gmap string Q) (trace : list Event) :
  train_iter E m input rank = Ok (m', losses, trace) ->
  exists dic2 img,
    load_batch E m input rank = Ok (dic2, img) /\
    cur_nimg m' = cur_nimg m + shape0 img /\
    batch_idx m' = batch_idx m + 1.
Proof.
  intros H. apply train_iter_inv in H.
  destruct H as (dic2 & img & zs & cs & rc & st & Hload & _ & _ & _ & Hloop & H).
  cbv zeta in H. destruct H as (_ & Hada & _ & _).
  apply phase_loop_inv with (m := m) in Hloop; [|reflexivity].
  destruct Hloop as [Hs _].
  apply ada_heuristic_frame in Hada. destruct Hada as (pipe & signs & ->).
  exists dic2, img. split; [exact Hload|]. simpl.
  unfold settings in Hs. split; congruence.
Qed.

Lemma load_batch_align (E : Env) (m : Model) (input : Input) (rank : Z)
    (dic2 : option Npz) (img : Tensor) :
  load_batch E m input rank = Ok (dic2, img) -> align_grad m = true ->
  exists d file_img,
    files E !! npz_path E m rank = Some d /\ dic2 = Some d /\
    d !! "phase_real_img" = Some file_img /\ img = normalize file_img.
Proof.
  unfold load_batch. intros H Hal. rewrite Hal in H.
  destruct (files E !! npz_path E m rank) as [d|]; [|discriminate].
  simpl in H. destruct (d !! "phase_real_img") as [file_img|] eqn:Hk; [|discriminate].
  simpl in H. injection H as <- <-.
  exists d, file_img. repeat split; [exact Hk].
Qed.

(** C5. When an iteration completes, with [batch_size] the number of
    images of the batch it trained on, [ema_nimg = ema_kimg * 1000], replaced
    by [min(ema_nimg, cur_nimg * ema_rampup)] when [ema_rampup] is set, and
    [beta = 0.5 ** (batch_size / max(ema_nimg, 1e-8))]: every parameter of
    the EMA mapping and synthesis networks is
    [beta * ema_old + (1 - beta) * live], paired in order with the live
    parameters after the optimizer steps, and the buffers of the EMA
    networks are those of the live networks (the parameters and the buffers
    of each EMA network pairing up with those of its live network, tensor
    by tensor with the same shape). *)
Theorem train_iter_ema (E : Env) (m : Model) (input : Input) (rank : Z)
    (m' : Model) (losses : gmap string Q) (trace : list Event)
    (dic2 : option Npz) (img : Tensor) :
  train_iter E m input rank = Ok (m', losses, trace) ->
  load_batch E m input rank = Ok (dic2, img) ->
  same_shape (parameters (mapping_ema m)) (parameters (mapping m')) ->
  same_shape (parameters (synthesis_ema m)) (parameters (synthesis m')) ->
  same_shape (buffers (mapping_ema m)) (buffers (mapping m')) ->
  same_shape (buffers (synthesis_ema m)) (buffers (synthesis m')) ->
  let batch_size := shape0 img in
  let ema_nimg :=
    match ema_rampup m with
    | Some ema_rampup => Qmin (ema_kimg m * 1000) (inject_Z (cur_nimg m) * ema_rampup)
    | None => (ema_kimg m * 1000)%Q
    end in
  let beta := fpow E (1 # 2) (inject_Z batch_size / Qmax ema_nimg (1 # 100000000)) in
  blended beta (parameters (mapping m')) (parameters (mapping_ema m))
          (parameters (mapping_ema m')) /\
  blended beta (parameters (synthesis m')) (parameters (synthesis_ema m))
          (parameters (synthesis_ema m')) /\
  buffers (mapping_ema m') = buffers (mapping m') /\
  buffers (synthesis_ema m') = buffers (synthesis m').
Proof.
  intros H Hload Hpm Hps Hbm Hbs. apply train_iter_inv in H.
  destruct H as (dic2' & img' & zs & cs & rc & st & Hload' & _ & _ & _ & Hloop & H).
  rewrite Hload in Hload'. injection Hload' as <- <-.
  cbv zeta in H. destruct H as (_ & Hada & _ & _).
  apply phase_loop_inv with (m := m) in Hloop; [|reflexivity].
  destruct Hloop as [Hs _].
  apply ada_heuristic_frame in Hada. destruct Hada as (pipe & signs & ->).
  cbn [mapping synthesis mapping_ema synthesis_ema set_Loss_signs_real
       set_augment_pipe set_counters ema_update set_ema] in *.
  unfold settings in Hs.
  assert (Hme : mapping_ema (lp_model st) = mapping_ema m) by congruence.
  assert (Hse : synthesis_ema (lp_model st) = synthesis_ema m) by congruence.
  assert (Hk : ema_kimg (lp_model st) = ema_kimg m) by congruence.
  assert (Hr : ema_rampup (lp_model st) = ema_rampup m) by congruence.
  assert (Hc : cur_nimg (lp_model st) = cur_nimg m) by congruence.
  assert (Hbeta : ema_beta E (lp_model st) (shape0 img) =
                  fpow E (1 # 2)
                    (inject_Z (shape0 img)
                     / Qmax match ema_rampup m with
                            | Some ema_rampup =>
                                Qmin (ema_kimg m * 1000)
                                     (inject_Z (cur_nimg m) * ema_rampup)
                            | None => (ema_kimg m * 1000)%Q
                            end (1 # 100000000))%Q).
  { unfold ema_beta. rewrite Hk, Hr, Hc, pymax_Qmax.
    destruct (ema_rampup m); [rewrite pymin_Qmin|]; reflexivity. }
  rewrite Hbeta, Hme, Hse. cbn [ema_network parameters buffers].
  repeat split.
  - apply blend_parameters_blended, Hpm.
  - apply blend_parameters_blended, Hps.
  - apply copy_buffers_same_length. eapply Forall2_length, Hbm.
  - apply copy_buffers_same_length. eapply Forall2_length, Hbs.
Qed.

(** The flag set by the constructor stays set from one iteration to the
    next. *)
Lemma train_iter_keeps_align_grad (E : Env) (m : Model) (input : Input) (rank : Z)
    (m' : Model) (losses : gmap string Q) (trace : list Event) :
  train_iter E m input rank = Ok (m', losses, trace) ->
  align_grad m' = align_grad m.
Proof.
  intros H. apply train_iter_inv in H.
  destruct H as (dic2 & img & zs & cs & rc & st & _ & _ & _ & _ & Hloop & H).
  cbv zeta in H. destruct H as (_ & Hada & _ & _).
  apply phase_loop_inv with (m := m) in Hloop; [|reflexivity].
  destruct Hloop as [Hs _].
  apply ada_heuristic_frame in Hada. destruct Hada as (pipe & signs & ->).
  simpl. apply settings_align_grad, Hs.
Qed.

(** ** Which phases run *)

Lemma make_gen_z_shape (E : Env) (m : Model) (dic2 : option Npz) (batch_size : Z)
    (z : Tensor) (all_gen_z : list (list Tensor)) :
  make_gen_z E m dic2 batch_size batch_size = Ok all_gen_z ->
  Forall (fun parts => parts <> []) all_gen_z /\
  (draw_gen_z E m dic2 batch_size = Ok z -> 0 < batch_size ->
   shape0 z = shape0 (phases m) * batch_size ->
   (length (phases m) <= length all_gen_z)%nat).
Proof.
  unfold make_gen_z. intros H. bind_inv H. bind_inv H. split.
  - eapply mapM_Forall; [|exact H]. intros t parts. apply split_nonempty.
  - intros Hz Hpos Hrows. rewrite Ha in Hz. injection Hz as ->.
    rewrite (mapM_length _ _ _ H).
    apply split_length with (n := shape0 (phases m)) in Ha0;
      [|lia|unfold shape0; lia|exact Hrows].
    unfold shape0 in Ha0. rewrite Nat2Z.id in Ha0. exact Ha0.
Qed.

Lemma make_gen_c_shape (m : Model) (input : Input) (batch_gpu : Z)
    (all_gen_c : list (list LabelArg)) :
  make_gen_c m input batch_gpu 1 = Ok all_gen_c ->
  Forall (fun parts => parts <> []) all_gen_c /\
  (length (phases_all_gen_c input) = length (phases m) ->
   length all_gen_c = length (phases m)).
Proof.
  unfold make_gen_c. intros H.
  destruct (phases_all_gen_c input) as [|first rest] eqn:Hin; [discriminate|].
  destruct (0 <? shape1 first).
  - split.
    + eapply mapM_Forall; [|exact H]. intros t parts Ht. bind_inv Ht.
      injection Ht as <-. apply split_nonempty in Ha.
      destruct a; [congruence | discriminate].
    + intros <-. eapply mapM_length, H.
  - injection H as <-. split.
    + apply Forall_replicate. discriminate.
    + intros _. apply length_replicate.
Qed.

Lemma make_real_c_nonempty (m : Model) (input : Input) (batch_gpu : Z)
    (real_c : list LabelArg) :
  make_real_c m input batch_gpu 1 = Ok real_c -> phases m <> [] -> real_c <> [].
Proof.
  unfold make_real_c. intros H Hne.
  destruct (0 <? shape1 (phase_real_c input)).
  - bind_inv H. injection H as <-. apply split_nonempty in Ha.
    destruct a; [congruence | discriminate].
  - injection H as <-. destruct (phases m); [congruence | discriminate].
Qed.

Lemma phase_loop_blocks (E : Env) (batch_size batch_gpu num_gpus : Z)
    (dic2 : option Npz) (img : Tensor) (real_c : list LabelArg) :
  real_c <> [] ->
  forall (schedule : list Phase) (zs : list (list Tensor)) (cs : list (list LabelArg))
         (st st' : Loop),
    (length schedule <= length zs)%nat -> (length schedule <= length cs)%nat ->
    Forall (fun parts => parts <> []) zs -> Forall (fun parts => parts <> []) cs ->
    foldM (run_phase E batch_size batch_gpu num_gpus dic2 [img] real_c)
          (zip (zip schedule zs) cs) st = Ok st' ->
    exists blocks,
      lp_trace st' = lp_trace st ++ concat blocks /\
      Forall2 phase_block (List.filter (due (batch_idx (lp_model st))) schedule) blocks.
Proof.
  intros Hrc. induction schedule as [|phase schedule IH];
    intros zs cs st st' Hlz Hlc Hzs Hcs H.
  - simpl in H. injection H as <-. exists []. rewrite app_nil_r.
    split; [reflexivity | constructor].
  - destruct zs as [|gz zs]; [simpl in Hlz; lia|].
    destruct cs as [|gc cs]; [simpl in Hlc; lia|].
    apply Forall_cons in Hzs. destruct Hzs as [Hgz Hzs].
    apply Forall_cons in Hcs. destruct Hcs as [Hgc Hcs].
    cbn [foldM zip_with] in H. bind_inv H. rename a into st1.
    apply run_phase_inv in Ha. destruct Ha as (Hs & Hskip & Hrun).
    apply IH in H; [|simpl in *; lia|simpl in *; lia|assumption|assumption].
    destruct H as (blocks & Htr & Hblocks).
    rewrite (settings_batch_idx _ _ Hs) in Hblocks.
    simpl List.filter.
    destruct (due (batch_idx (lp_model st)) phase) eqn:Hdue.
    + destruct (Hrun eq_refl) as (args & Htr1 & Hlen & Hargs).
      assert (Hone : length args = 1%nat).
      { rewrite Hlen. destruct real_c; [congruence|].
        destruct gz; [congruence|]. destruct gc; [congruence|]. reflexivity. }
      destruct args as [|a [|a' args]]; try discriminate.
      apply Forall_inv in Hargs. destruct Hargs as (Hph & Hgain & Hnames & _).
      destruct (phase_names_optimizer _ Hnames) as [o Ho].
      unfold optimizer_events in Htr1. rewrite Ho in Htr1. simpl in Htr1.
      exists ([EvZeroGrad o; EvAccumulate a; EvStep o] :: blocks). split.
      * rewrite Htr, Htr1. simpl. rewrite <- app_assoc. reflexivity.
      * constructor; [|exact Hblocks]. exists o, a. auto.
    + rewrite (Hskip eq_refl) in Htr. exists blocks. split; assumption.
Qed.

(** C1. In an iteration that completes on a non-empty batch, with one noise
    chunk and one label tensor per phase of the schedule, the calls made by
    the phase loop are exactly one block (zero_grad, one accumulation round
    with the phase's name and its interval as gain, optimizer step) for each
    phase whose interval divides the batch index, in schedule order, and
    nothing for the other phases. *)
Theorem train_iter_schedule (E : Env) (m : Model) (input : Input) (rank : Z)
    (m' : Model) (losses : gmap string Q) (trace : list Event)
    (dic2 : option Npz) (img z : Tensor) :
  train_iter E m input rank = Ok (m', losses, trace) ->
  load_batch E m input rank = Ok (dic2, img) ->
  img <> [] ->
  draw_gen_z E m dic2 (shape0 img) = Ok z ->
  shape0 z = shape0 (phases m) * shape0 img ->
  length (phases_all_gen_c input) = length (phases m) ->
  exists blocks,
    trace = concat blocks /\
    Forall2 phase_block (List.filter (due (batch_idx m)) (phases m)) blocks.
Proof.
  intros H Hload Himg Hz Hrows Hgc. apply train_iter_inv in H.
  destruct H as (dic2' & img' & zs & cs & rc & st & Hload' & Hzs & Hcs & Hrc & Hloop & H).
  rewrite Hload in Hload'. injection Hload' as <- <-.
  cbv zeta in H. destruct H as (_ & _ & _ & ->).
  assert (Hpos : 0 < shape0 img)
    by (unfold shape0; destruct img; [congruence | simpl; lia]).
  destruct (phases m) as [|phase schedule] eqn:Hphases.
  - simpl in Hloop. injection Hloop as <-. exists []. split; [reflexivity|constructor].
  - rewrite <- Hphases in *.
    apply make_gen_z_shape with (z := z) in Hzs. destruct Hzs as [Hzne Hzlen].
    apply make_gen_c_shape in Hcs. destruct Hcs as [Hcne Hclen].
    apply make_real_c_nonempty in Hrc; [|rewrite Hphases; discriminate].
    apply phase_loop_blocks in Hloop; auto.
    rewrite Hclen by exact Hgc. lia.
Qed.

(** ** The rounds of the phases that are due *)

Lemma normalize_length (t : Tensor) : length (normalize t) = length t.
Proof. unfold normalize. apply length_map. Qed.

Lemma train_iter_covered (E : Env) (m : Model) (input : Input) (rank : Z)
    (m' : Model) (losses : gmap string Q) (trace : list Event)
    (dic2 : option Npz) (img z : Tensor) :
  train_iter E m input rank = Ok (m', losses, trace) ->
  load_batch E m input rank = Ok (dic2, img) ->
  img <> [] ->
  draw_gen_z E m dic2 (shape0 img) = Ok z ->
  shape0 z = shape0 (phases m) * shape0 img ->
  length (phases_all_gen_c input) = length (phases m) ->
  exists zs cs rc st,
    (length (phases m) <= length zs)%nat /\ (length (phases m) <= length cs)%nat /\
    Forall (fun parts => parts <> []) zs /\ Forall (fun parts => parts <> []) cs /\
    (phases m <> [] -> rc <> []) /\
    foldM (run_phase E (shape0 img) (shape0 img) 1 dic2 [img] rc)
          (zip (zip (phases m) zs) cs) (mkLoop m ∅ [] []) = Ok st /\
    trace = lp_trace st /\ losses = loss_numpys st.
Proof.
  intros H Hload Himg Hz Hrows Hgc. apply train_iter_inv in H.
  destruct H as (dic2' & img' & zs & cs & rc & st & Hload' & Hzs & Hcs & Hrc & Hloop & H).
  rewrite Hload in Hload'. injection Hload' as <- <-.
  cbv zeta in H. destruct H as (_ & _ & -> & ->).
  assert (Hpos : 0 < shape0 img)
    by (unfold shape0; destruct img; [congruence | simpl; lia]).
  apply make_gen_z_shape with (z := z) in Hzs. destruct Hzs as [Hzne Hzlen].
  apply make_gen_c_shape in Hcs. destruct Hcs as [Hcne Hclen].
  exists zs, cs, rc, st. repeat split; auto.
  - rewrite Hclen by exact Hgc. lia.
  - intros Hne. eapply make_real_c_nonempty; eauto.
Qed.

Lemma Forall2_In_l {A B} (P : A -> B -> Prop) (l : list A) (k : list B) (x : A) :
  Forall2 P l k -> In x l -> exists y, In y k /\ P x y.
Proof.
  induction 1 as [|a b l k Hab _ IH]; intros Hin; [destruct Hin|].
  destruct Hin as [<-|Hin].
  - exists b. split; [left; reflexivity | exact Hab].
  - destruct (IH Hin) as (y & Hy & HP). exists y. split; [right; exact Hy | exact HP].
Qed.

Lemma train_iter_due_phase_runs (E : Env) (m : Model) (input : Input) (rank : Z)
    (m' : Model) (losses : gmap string Q) (trace : list Event)
    (dic2 : option Npz) (img z : Tensor) (phase : Phase) :
  train_iter E m input rank = Ok (m', losses, trace) ->
  load_batch E m input rank = Ok (dic2, img) ->
  img <> [] ->
  draw_gen_z E m dic2 (shape0 img) = Ok z ->
  shape0 z = shape0 (phases m) * shape0 img ->
  length (phases_all_gen_c input) = length (phases m) ->
  In phase (phases m) -> due (batch_idx m) phase = true ->
  exists a, In (EvAccumulate a) trace /\ a_phase a = name phase.
Proof.
  intros H Hload Himg Hz Hrows Hgc Hin Hdue.
  destruct (train_iter_covered _ _ _ _ _ _ _ _ _ _ H Hload Himg Hz Hrows Hgc)
    as (zs & cs & rc & st & Hlz & Hlc & Hzne & Hcne & Hrc & Hloop & -> & _).
  apply phase_loop_blocks in Hloop; auto.
  2:{ apply Hrc. intros Hnil. rewrite Hnil in Hin. destruct Hin. }
  destruct Hloop as (blocks & Htr & Hblocks). simpl in Htr, Hblocks.
  assert (Hf : In phase (List.filter (due (batch_idx m)) (phases m)))
    by (apply filter_In; auto).
  destruct (Forall2_In_l _ _ _ _ Hblocks Hf) as (block & Hb & o & a & -> & Hname & _).
  exists a. split; [|exact Hname]. rewrite Htr.
  apply in_concat. eexists. split; [exact Hb|]. right. left. reflexivity.
Qed.

(** ** The reference archive *)

Lemma train_iter_no_file (E : Env) (m : Model) (input : Input) (rank : Z) :
  align_grad m = true -> files E !! npz_path E m rank = None ->
  train_iter E m input rank = Raise (FileNotFoundError (npz_path E m rank)).
Proof.
  intros Hal Hf. unfold train_iter, load_batch. rewrite Hal, Hf. reflexivity.
Qed.

Lemma train_iter_no_real_img (E : Env) (m : Model) (input : Input) (rank : Z)
    (d : Npz) :
  align_grad m = true -> files E !! npz_path E m rank = Some d ->
  d !! "phase_real_img" = None ->
  train_iter E m input rank = Raise (KeyError "phase_real_img").
Proof.
  intros Hal Hf Hk. unfold train_iter, load_batch. rewrite Hal, Hf. simpl.
  rewrite Hk. reflexivity.
Qed.

Lemma load_batch_archive (E : Env) (m : Model) (input : Input) (rank : Z)
    (d : Npz) (file_img : Tensor) :
  align_grad m = true -> files E !! npz_path E m rank = Some d ->
  d !! "phase_real_img" = Some file_img ->
  load_batch E m input rank = Ok (Some d, normalize file_img).
Proof.
  intros Hal Hf Hk. unfold load_batch. rewrite Hal, Hf. simpl. rewrite Hk. reflexivity.
Qed.

Lemma train_iter_rounds_archive (E : Env) (m : Model) (input : Input) (rank : Z)
    (m' : Model) (losses : gmap string Q) (trace : list Event) :
  align_grad m = true ->
  train_iter E m input rank = Ok (m', losses, trace) ->
  exists d file_img,
    files E !! npz_path E m rank = Some d /\
    d !! "phase_real_img" = Some file_img /\
    is_Some (d !! "w_avg") /\
    Forall (fun ev =>
              match ev with
              | EvAccumulate r =>
                  a_dic2 r = Some d /\
                  a_real_img r = normalize file_img /\
                  Forall (fun k => is_Some (d !! k))
                         (reference_keys m (a_phase r))
              | _ => True
              end) trace.
Proof.
  intros Hal H. apply train_iter_inv in H.
  destruct H as (dic2 & img & zs & cs & rc & st & Hload & _ & _ & _ & Hloop & H).
  cbv zeta in H. destruct H as (Hw & _ & _ & ->).
  destruct (load_batch_align _ _ _ _ _ _ Hload Hal) as (d & file_img & Hf & -> & Hk & ->).
  apply phase_loop_inv with (m := m) in Hloop; [|reflexivity].
  destruct Hloop as [Hs Htrace]. specialize (Htrace (Forall_nil_2 _)).
  exists d, file_img. split; [exact Hf|]. split; [exact Hk|]. split.
  - apply align_read in Hw.
    + simpl in Hw. destruct (d !! "w_avg"); [eauto | discriminate].
    + simpl. rewrite (settings_align_grad _ _ Hs). exact Hal.
  - eapply Forall_impl; [exact Htrace|]. intros [o|r|o]; simpl; auto.
    intros (Hd & Hin & Hkeys). split; [exact Hd|]. split.
    + destruct Hin as [<-|[]]. reflexivity.
    + apply read_keys_present, Hkeys, Hal.
Qed.

Lemma train_iter_due_round_archive (E : Env) (m : Model) (input : Input) (rank : Z)
    (m' : Model) (losses : gmap string Q) (trace : list Event)
    (d : Npz) (file_img z : Tensor) (phase : Phase) :
  align_grad m = true ->
  files E !! npz_path E m rank = Some d ->
  d !! "phase_real_img" = Some file_img -> file_img <> [] ->
  draw_gen_z E m (Some d) (shape0 file_img) = Ok z ->
  shape0 z = shape0 (phases m) * shape0 file_img ->
  length (phases_all_gen_c input) = length (phases m) ->
  In phase (phases m) -> batch_idx m mod interval phase = 0 ->
  train_iter E m input rank = Ok (m', losses, trace) ->
  exists r, In (EvAccumulate r) trace /\ a_phase r = name phase /\
            a_dic2 r = Some d /\ a_real_img r = normalize file_img /\
            Forall (fun k => is_Some (d !! k)) (reference_keys m (name phase)).
Proof.
  intros Hal Hf Hk Hne Hz Hrows Hgc Hin Hdue H.
  assert (Hshape : shape0 (normalize file_img) = shape0 file_img)
    by (unfold shape0; rewrite normalize_length; reflexivity).
  destruct (train_iter_due_phase_runs E m input rank m' losses trace
              (Some d) (normalize file_img) z phase H) as (r & Hr & Hname).
  - apply load_batch_archive; assumption.
  - intros Hnil. apply (f_equal (@length _)) in Hnil.
    rewrite normalize_length in Hnil. destruct file_img; [congruence | discriminate].
  - rewrite Hshape. exact Hz.
  - rewrite Hshape. exact Hrows.
  - exact Hgc.
  - exact Hin.
  - unfold due. rewrite Hdue. reflexivity.
  - destruct (train_iter_rounds_archive _ _ _ _ _ _ _ Hal H)
      as (d' & file_img' & Hf' & Hk' & _ & Hall).
    rewrite Hf in Hf'. injection Hf' as <-.
    rewrite Hk in Hk'. injection Hk' as <-.
    rewrite Forall_forall in Hall. assert (Hr' := Hr).
    apply list_elem_of_In, Hall in Hr'. destruct Hr' as (Hd & Himg & Hkeys).
    exists r. split; [exact Hr|]. rewrite <- Hname. auto.
Qed.

(** C10. The constructor sets [align_grad]; with it set, [train_iter] opens
    the archive named after the batch index and the rank, raises when there
    is none or when it lacks 'phase_real_img' or 'w_avg', and can only
    complete when the
    archive exists and holds 'phase_real_img', 'w_avg' and every reference
    array of every accumulation round; each round gets the archive itself
    and, as real images, the normalised 'phase_real_img' of the archive
    instead of the incoming batch.  On a non-empty archive batch with noise
    and labels for every phase, each phase that is due does have such a
    round in a completing iteration, and an archive that lacks one of the
    reference arrays of a due phase makes the iteration raise. *)
Theorem train_iter_reference_archive (E : Env) (a : Args) (m : Model)
    (input : Input) (rank : Z) :
  align_grad m = true ->
  align_grad (init a) = true /\
  (sys_gettrace E = false ->
   npz_path E m rank =
   "batch" +:+ fmt_d 5 (batch_idx m) +:+ "_rank" +:+ fmt_d 2 rank +:+ ".npz") /\
  (files E !! npz_path E m rank = None ->
   train_iter E m input rank = Raise (FileNotFoundError (npz_path E m rank))) /\
  (forall d, files E !! npz_path E m rank = Some d ->
             d !! "phase_real_img" = None ->
             train_iter E m input rank = Raise (KeyError "phase_real_img")) /\
  (forall d, files E !! npz_path E m rank = Some d ->
             d !! "w_avg" = None ->
             exists e, train_iter E m input rank = Raise e) /\
  (forall m' losses trace,
      train_iter E m input rank = Ok (m', losses, trace) ->
      exists d file_img,
        files E !! npz_path E m rank = Some d /\
        d !! "phase_real_img" = Some file_img /\
        is_Some (d !! "w_avg") /\
        Forall (fun ev =>
                  match ev with
                  | EvAccumulate r =>
                      a_dic2 r = Some d /\
                      a_real_img r = normalize file_img /\
                      Forall (fun k => is_Some (d !! k))
                             (reference_keys m (a_phase r))
                  | _ => True
                  end) trace) /\
  (forall d file_img z phase,
      files E !! npz_path E m rank = Some d ->
      d !! "phase_real_img" = Some file_img -> file_img <> [] ->
      draw_gen_z E m (Some d) (shape0 file_img) = Ok z ->
      shape0 z = shape0 (phases m) * shape0 file_img ->
      length (phases_all_gen_c input) = length (phases m) ->
      In phase (phases m) -> batch_idx m mod interval phase = 0 ->
      (forall m' losses trace,
          train_iter E m input rank = Ok (m', losses, trace) ->
          exists r, In (EvAccumulate r) trace /\ a_phase r = name phase /\
                    a_dic2 r = Some d /\ a_real_img r = normalize file_img) /\
      (forall k, In k (reference_keys m (name phase)) -> d !! k = None ->
                 exists e, train_iter E m input rank = Raise e)).
Proof.
  intros Hal. split; [reflexivity|]. split.
  { intros Hg. unfold npz_path. rewrite Hg. reflexivity. }
  split; [apply train_iter_no_file, Hal|].
  split; [intros d; apply train_iter_no_real_img, Hal|].
  split.
  { intros d Hf Hnone.
    destruct (train_iter E m input rank) as [[[m' losses] trace]|e] eqn:H; [|eauto].
    exfalso. apply train_iter_rounds_archive in H; [|exact Hal].
    destruct H as (d' & file_img & Hf' & _ & Hw & _).
    rewrite Hf in Hf'. injection Hf' as <-.
    rewrite Hnone in Hw. destruct Hw as [x Hx]. discriminate. }
  split; [intros m' losses trace; apply train_iter_rounds_archive, Hal|].
  intros d file_img z phase Hf Hk Hne Hz Hrows Hgc Hin Hdue. split.
  - intros m' losses trace H.
    destruct (train_iter_due_round_archive _ _ _ _ _ _ _ _ _ _ _
                Hal Hf Hk Hne Hz Hrows Hgc Hin Hdue H)
      as (r & Hr & Hname & Hd & Himg & _).
    exists r. auto.
  - intros k Hkin Hnone.
    destruct (train_iter E m input rank) as [[[m' losses] trace]|e] eqn:H; [|eauto].
    exfalso.
    destruct (train_iter_due_round_archive _ _ _ _ _ _ _ _ _ _ _
                Hal Hf Hk Hne Hz Hrows Hgc Hin Hdue H)
      as (r & _ & _ & _ & _ & Hkeys).
    rewrite Forall_forall in Hkeys. apply list_elem_of_In, Hkeys in Hkin.
    rewrite Hnone in Hkin. destruct Hkin as [x Hx]. discriminate.
Qed.

(** ** The properties on the concrete run *)

Lemma final_model_Some (r : Res (Model * gmap string Q * list Event)) (m : Model) :
  final_model r = Some m -> exists losses trace, r = Ok (m, losses, trace).
Proof. destruct r as [[[m' l] t]|e]; simpl; intros [= <-]; eauto. Qed.

Lemma demo_load_batch :
  load_batch demo_E demo_m demo_in 0 =
  Ok (Some demo_d, normalize (replicate 2 [255; 0]%Q)).
Proof. reflexivity. Qed.

Lemma demo_run :
  exists m' losses trace, train_iter demo_E demo_m demo_in 0 = Ok (m', losses, trace).
Proof.
  eassert (Hf : final_model (train_iter demo_E demo_m demo_in 0) = Some _)
    by (vm_compute; reflexivity).
  apply final_model_Some in Hf. destruct Hf as (losses & trace & H). eauto.
Qed.

Lemma demo_draw_gen_z :
  draw_gen_z demo_E demo_m (Some demo_d) (shape0 (normalize (replicate 2 [255; 0]%Q))) =
  Ok (replicate 8 [0; 0; 0; 0]%Q).
Proof. vm_compute. reflexivity. Qed.

Lemma phases_run_Some (r : Res (Model * gmap string Q * list Event)) (names : list string) :
  phases_run r = Some names ->
  exists m losses trace, r = Ok (m, losses, trace) /\ rounds_run trace = names.
Proof. destruct r as [[[m l] t]|e]; simpl; intros [= <-]; eauto. Qed.

Lemma rounds_run_In (trace : list Event) (a : AccArgs) :
  In (EvAccumulate a) trace -> In (a_phase a) (rounds_run trace).
Proof.
  intros H. apply list_elem_of_In. unfold rounds_run.
  apply list_elem_of_omap. exists (EvAccumulate a).
  split; [apply list_elem_of_In, H | reflexivity].
Qed.

Lemma train_iter_schedule_witness :
  exists m' losses trace blocks,
    train_iter demo_E demo_m demo_in 0 = Ok (m', losses, trace) /\
    trace = concat blocks /\
    Forall2 phase_block (List.filter (due (batch_idx demo_m)) (phases demo_m)) blocks.
Proof.
  eassert (Hf : final_model (train_iter demo_E demo_m demo_in 0) = Some _)
    by (vm_compute; reflexivity).
  apply final_model_Some in Hf. destruct Hf as (losses & trace & H).
  destruct (train_iter_schedule demo_E demo_m demo_in 0 _ losses trace
              (Some demo_d) (normalize (replicate 2 [255; 0]%Q))
              (replicate 8 [0; 0; 0; 0]%Q) H) as (blocks & Htr & Hbl).
  - exact demo_load_batch.
  - discriminate.
  - vm_compute. reflexivity.
  - reflexivity.
  - reflexivity.
  - eexists _, losses, trace, blocks.
    split; [exact H|]. split; [exact Htr | exact Hbl].
Defined.

(** With an archive whose noise serves one phase only (and the ADA
    heuristic off), the iteration completes after the round of Gmain: Dmain
    is in the schedule with interval 1, so it is due on every batch index,
    and has no round. *)
Lemma train_iter_schedule_counterexample :
  exists m' losses trace,
    train_iter demo_E_short (init demo_args_ada_off) demo_in 0 = Ok (m', losses, trace) /\
    In (mkPhase "Dmain" 1) (phases (init demo_args_ada_off)) /\
    batch_idx (init demo_args_ada_off) mod interval (mkPhase "Dmain" 1) = 0 /\
    ~ exists a, In (EvAccumulate a) trace /\ a_phase a = "Dmain".
Proof.
  eassert (Hp : phases_run (train_iter demo_E_short (init demo_args_ada_off) demo_in 0)
                = Some _)
    by (vm_compute; reflexivity).
  apply phases_run_Some in Hp. destruct Hp as (m' & losses & trace & H & Hnames).
  exists m', losses, trace. split; [exact H|].
  split; [simpl; tauto|]. split; [reflexivity|].
  intros (a & Hin & Hname). apply rounds_run_In in Hin.
  rewrite Hnames, Hname in Hin. simpl in Hin.
  destruct Hin as [Hin|[]]. discriminate Hin.
Qed.

Lemma train_iter_ema_witness :
  exists m' losses trace,
    train_iter demo_E demo_m demo_in 0 = Ok (m', losses, trace) /\
    let beta := fpow demo_E (1 # 2) (inject_Z 2 / Qmax (10 * 1000) (1 # 100000000)) in
    blended beta (parameters (mapping m')) (parameters (mapping_ema demo_m))
            (parameters (mapping_ema m')) /\
    blended beta (parameters (synthesis m')) (parameters (synthesis_ema demo_m))
            (parameters (synthesis_ema m')) /\
    buffers (mapping_ema m') = buffers (mapping m') /\
    buffers (synthesis_ema m') = buffers (synthesis m').
Proof.
  eassert (Hf : final_model (train_iter demo_E demo_m demo_in 0) = Some _)
    by (vm_compute; reflexivity).
  apply final_model_Some in Hf. destruct Hf as (losses & trace & H).
  eexists _, losses, trace. split; [exact H|].
  apply (train_iter_ema demo_E demo_m demo_in 0 _ _ _
           (Some demo_d) (normalize (replicate 2 [255; 0]%Q)) H).
  - exact demo_load_batch.
  - repeat constructor.
  - repeat constructor.
  - repeat constructor.
  - repeat constructor.
Defined.

Lemma augment_p_never_negative_witness :
  p_nonneg demo_m /\
  exists m', train_in_iter demo_E 0 [demo_in] demo_m = Ok m' /\ p_nonneg m'.
Proof.
  assert (H0 : p_nonneg demo_m) by (simpl; apply Qle_refl).
  split; [exact H0|].
  eassert (H : train_in_iter demo_E 0 [demo_in] demo_m = Ok _)
    by (vm_compute; reflexivity).
  eexists. split; [exact H|].
  exact (augment_p_never_negative demo_E 0 [demo_in] demo_m _ H0 H).
Defined.

Lemma ada_heuristic_adjusts_witness :
  exists m' t pipe',
    ada_heuristic (ada_demo_model (1 # 2) [[1; 1]]%Q) (Some demo_d) 2 = Ok m' /\
    ada_target (ada_demo_model (1 # 2) [[1; 1]]%Q) = Some t /\
    augment_pipe m' = Some pipe' /\
    Loss_signs_real m' = [] /\
    (t < mean [1; 1] -> p pipe' == (1 # 2) + (2 # 500000) /\ (1 # 2) < p pipe')%Q.
Proof.
  eassert (H : ada_heuristic (ada_demo_model (1 # 2) [[1; 1]]%Q) (Some demo_d) 2 = Ok _)
    by (vm_compute; reflexivity).
  destruct (ada_heuristic_adjusts (ada_demo_model (1 # 2) [[1; 1]]%Q) (Some demo_d) 2
              _ (mkAugmentPipe (1 # 2)) H eq_refl eq_refl eq_refl)
    as (t & pipe' & Ht & Hp & Hs & Hup & _ & _).
  - discriminate.
  - reflexivity.
  - eexists _, t, pipe'. split; [exact H|]. split; [exact Ht|].
    split; [exact Hp|]. split; [exact Hs|].
    intros Hlt. destruct (Hup Hlt) as [Heq Hgt]. split.
    + rewrite Heq. reflexivity.
    + exact Hgt.
Defined.

(** At strength 0 a mean below the target does not lower the strength: the
    controller fires with every buffered sign -1 and target 0.6, and the
    strength stays 0. *)
Lemma ada_heuristic_floor_counterexample :
  adjust_p (ada_demo_model 0 [[-1; -1]]%Q) = true /\
  augment_pipe (ada_demo_model 0 [[-1; -1]]%Q) = Some (mkAugmentPipe 0) /\
  batch_idx (ada_demo_model 0 [[-1; -1]]%Q)
    mod ada_interval (ada_demo_model 0 [[-1; -1]]%Q) = 0 /\
  ada_target (ada_demo_model 0 [[-1; -1]]%Q) = Some (3 # 5) /\
  (mean (concat (Loss_signs_real (ada_demo_model 0 [[-1; -1]]%Q))) < 3 # 5)%Q /\
  exists m' pipe',
    ada_heuristic (ada_demo_model 0 [[-1; -1]]%Q) (Some demo_d) 2 = Ok m' /\
    augment_pipe m' = Some pipe' /\
    ~ (p pipe' < p (mkAugmentPipe 0))%Q.
Proof.
  repeat split; try reflexivity.
  eexists _, _. split; [vm_compute; reflexivity|]. split; [reflexivity|].
  apply Qlt_irrefl.
Qed.

(** The same through a whole first iteration: the pipe starts at strength 0,
    every real image is called fake, the controller fires (ada_interval 1),
    and the strength is still 0. *)
Example train_iter_floor :
  exists m' losses trace,
    train_iter demo_E demo_m demo_in 0 = Ok (m', losses, trace) /\
    augment_pipe demo_m = Some (mkAugmentPipe 0) /\
    augment_pipe m' = Some (mkAugmentPipe 0) /\
    Loss_signs_real m' = [].
Proof.
  eassert (Hf : final_model (train_iter demo_E demo_m demo_in 0) = Some _)
    by (vm_compute; reflexivity).
  apply final_model_Some in Hf. destruct Hf as (losses & trace & H).
  eexists _, losses, trace. split; [exact H|]. repeat split.
Qed.

Lemma ema_update_extremes_witness :
  (tensors_eq (parameters (mapping_ema (ema_update 1 demo_m)))
              (parameters (mapping_ema demo_m)) /\
   tensors_eq (parameters (synthesis_ema (ema_update 1 demo_m)))
              (parameters (synthesis_ema demo_m))) /\
  (tensors_eq (parameters (mapping_ema (ema_update 0 demo_m)))
              (parameters (mapping demo_m)) /\
   tensors_eq (parameters (synthesis_ema (ema_update 0 demo_m)))
              (parameters (synthesis demo_m))).
Proof.
  apply (ema_update_extremes demo_m); repeat constructor.
Defined.

Lemma train_iter_reference_archive_witness :
  align_grad demo_m = true /\
  train_iter demo_E_no_file demo_m demo_in 0 =
  Raise (FileNotFoundError "batch00000_rank00.npz") /\
  exists m' losses trace r,
    train_iter demo_E demo_m demo_in 0 = Ok (m', losses, trace) /\
    In (EvAccumulate r) trace /\ a_phase r = "Gmain" /\
    a_dic2 r = Some demo_d /\ a_real_img r = normalize (replicate 2 [255; 0]%Q).
Proof.
  split; [reflexivity|]. split.
  - exact (proj1 (proj2 (proj2
             (train_iter_reference_archive demo_E_no_file demo_args demo_m demo_in 0
                eq_refl))) eq_refl).
  - destruct demo_run as (m' & losses & trace & H).
    destruct (train_iter_reference_archive demo_E demo_args demo_m demo_in 0 eq_refl)
      as (_ & _ & _ & _ & _ & _ & Hdue).
    destruct (Hdue demo_d (replicate 2 [255; 0]%Q) (replicate 8 [0; 0; 0; 0]%Q)
                (mkPhase "Gmain" 1)) as [Hround _].
    + reflexivity.
    + reflexivity.
    + discriminate.
    + vm_compute. reflexivity.
    + reflexivity.
    + reflexivity.
    + left. reflexivity.
    + reflexivity.
    + destruct (Hround m' losses trace H) as (r & Hr).
      exists m', losses, trace, r. split; [exact H | exact Hr].
Defined.

(** C8. With the 4-phase schedule (G_reg_interval 4, D_reg_interval 16),
    c_dim 0 and z_dim 4, one call on a batch of 8 real images, next to an
    archive that holds 2 images, completes with [cur_nimg] increased by 2,
    not 8; without an archive it raises and nothing is counted. *)
Theorem train_iter_counts_archive_batch :
  phases demo_m =
    [mkPhase "Gmain" 1; mkPhase "Greg" 4; mkPhase "Dmain" 1; mkPhase "Dreg" 16] /\
  shape0 (phase_real_img (demo_input 8)) = 8 /\
  (exists m' losses trace,
      train_iter demo_E demo_m (demo_input 8) 0 = Ok (m', losses, trace) /\
      cur_nimg m' = cur_nimg demo_m + 2 /\
      batch_idx m' = batch_idx demo_m + 1) /\
  train_iter demo_E_no_file demo_m (demo_input 8) 0 =
  Raise (FileNotFoundError "batch00000_rank00.npz").
Proof.
  split; [reflexivity|]. split; [reflexivity|]. split.
  - eassert (Hf : final_model (train_iter demo_E demo_m (demo_input 8) 0) = Some _)
      by (vm_compute; reflexivity).
    apply final_model_Some in Hf. destruct Hf as (losses & trace & H).
    eexists _, losses, trace. split; [exact H|]. split; reflexivity.
  - vm_compute. reflexivity.
Qed.

(** * Further properties of the source *)

(** ** [accumulate_gradients]: what a successful round returns and changes *)

Lemma acc_Gmain_result (E : Env) (m0 : Model) (a : AccArgs) (l l' : gmap string Q) :
  acc_Gmain E m0 a l = Ok l' ->
  l' = if do_Gmain (a_phase a)
       then <["loss_Gmain" := loss_term E "loss_Gmain" a m0]> l else l.
Proof.
  unfold acc_Gmain. destruct (do_Gmain (a_phase a)).
  - intros H. bind_inv H. bind_inv H. bind_inv H. injection H as <-. reflexivity.
  - intros [= <-]. reflexivity.
Qed.

Lemma acc_Gpl_result (E : Env) (m0 : Model) (a : AccArgs) (m m' : Model)
    (l l' : gmap string Q) :
  acc_Gpl E m0 a m l = Ok (m', l') ->
  (if do_Gpl m0 (a_phase a)
   then pl_batch_shrink m <> 0 /\
        m' = set_pl_mean
               (Some (lerp match pl_mean m with Some v => v | None => 0%Q end
                           (pl_lengths_mean E a m0) (pl_decay m))) m /\
        l' = <["loss_Gpl" := loss_term E "loss_Gpl" a m0]> l
   else m' = m /\ l' = l).
Proof.
  unfold acc_Gpl. destruct (do_Gpl m0 (a_phase a)).
  - intros H. bind_inv H. apply floordiv_Ok in Ha. destruct Ha as [Hne _].
    bind_inv H. bind_inv H. injection H as <- <-. auto.
  - intros [= <- <-]. auto.
Qed.

Lemma acc_Dgen_result (E : Env) (m0 : Model) (a : AccArgs) (m : Model)
    (l l' : gmap string Q) :
  acc_Dgen E m0 a m l = Ok l' ->
  l' = if do_Dmain (a_phase a)
       then <["loss_Dgen" := loss_term E "loss_Dgen" a m0]> l else l.
Proof.
  unfold acc_Dgen. destruct (do_Dmain (a_phase a)).
  - intros H. bind_inv H. bind_inv H. bind_inv H. injection H as <-. reflexivity.
  - intros [= <-]. reflexivity.
Qed.

Lemma acc_Dreal_result (E : Env) (m0 : Model) (a : AccArgs) (m m' : Model)
    (l l' : gmap string Q) :
  acc_Dreal E m0 a m l = Ok (m', l') ->
  (if do_Dmain (a_phase a) || do_Dr1 m0 (a_phase a)
   then m' = (if adjust_p m && is_not_None (augment_pipe m)
              then set_Loss_signs_real
                     (Loss_signs_real m ++ [real_logits_sign E a m0]) m
              else m) /\
        l' = (let l1 := if do_Dmain (a_phase a)
                        then <["loss_Dreal" := loss_term E "loss_Dreal" a m0]> l
                        else l in
              if do_Dr1 m0 (a_phase a)
              then <["loss_Dr1" := loss_term E "loss_Dr1" a m0]> l1 else l1)
   else m' = m /\ l' = l).
Proof.
  unfold acc_Dreal. destruct (do_Dmain (a_phase a) || do_Dr1 m0 (a_phase a)).
  - intros H. bind_inv H. rename a0 into u0. rename Ha into HrunD.
    bind_inv H. bind_inv H. bind_inv H. injection H as <- <-.
    split; [reflexivity|]. cbv zeta.
    assert (H1 : a1 = if do_Dmain (a_phase a)
                      then <["loss_Dreal" := loss_term E "loss_Dreal" a m0]> l else l).
    { revert Ha0. destruct (do_Dmain (a_phase a)); intros Ha0.
      - bind_inv Ha0. injection Ha0 as <-. reflexivity.
      - injection Ha0 as <-. reflexivity. }
    subst a1. revert Ha1. destruct (do_Dr1 m0 (a_phase a)); intros Ha1.
    + bind_inv Ha1. bind_inv Ha1. injection Ha1 as <-. reflexivity.
    + injection Ha1 as <-. reflexivity.
  - intros [= <- <-]. auto.
Qed.

(** The flags of the four loss terms are determined by the phase name
    (and by whether the regularization weights are zero). *)
Lemma phase_flags (m : Model) (phase : string) :
  in_list phase phase_names = true ->
  (phase = "Gmain" /\ do_Gmain phase = true /\ do_Dmain phase = false /\
   do_Gpl m phase = false /\ do_Dr1 m phase = false) \/
  (phase = "Greg" /\ do_Gmain phase = false /\ do_Dmain phase = false /\
   do_Gpl m phase = negb (Qeq_bool (pl_weight m) 0) /\ do_Dr1 m phase = false) \/
  (phase = "Gboth" /\ do_Gmain phase = true /\ do_Dmain phase = false /\
   do_Gpl m phase = negb (Qeq_bool (pl_weight m) 0) /\ do_Dr1 m phase = false) \/
  (phase = "Dmain" /\ do_Gmain phase = false /\ do_Dmain phase = true /\
   do_Gpl m phase = false /\ do_Dr1 m phase = false) \/
  (phase = "Dreg" /\ do_Gmain phase = false /\ do_Dmain phase = false /\
   do_Gpl m phase = false /\ do_Dr1 m phase = negb (Qeq_bool (r1_gamma m) 0)) \/
  (phase = "Dboth" /\ do_Gmain phase = false /\ do_Dmain phase = true /\
   do_Gpl m phase = false /\ do_Dr1 m phase = negb (Qeq_bool (r1_gamma m) 0)).
Proof.
  unfold in_list, phase_names. cbn [existsb]. intros H.
  repeat (apply orb_true_iff in H; destruct H as [H|H];
          [apply String.eqb_eq in H; subst; tauto|]).
  discriminate.
Qed.

Lemma accumulate_gradients_result (E : Env) (m : Model) (a : AccArgs) (m' : Model)
    (l : gmap string Q) :
  accumulate_gradients E m a = Ok (m', l) ->
  let phase := a_phase a in
  let l1 := if do_Gmain phase
            then <["loss_Gmain" := loss_term E "loss_Gmain" a m]> (∅ : gmap string Q)
            else ∅ in
  let l2 := if do_Gpl m phase
            then <["loss_Gpl" := loss_term E "loss_Gpl" a m]> l1 else l1 in
  let l3 := if do_Dmain phase
            then <["loss_Dgen" := loss_term E "loss_Dgen" a m]> l2 else l2 in
  let l4 := if do_Dmain phase
            then <["loss_Dreal" := loss_term E "loss_Dreal" a m]> l3 else l3 in
  let l5 := if do_Dr1 m phase
            then <["loss_Dr1" := loss_term E "loss_Dr1" a m]> l4 else l4 in
  in_list phase phase_names = true /\
  l = l5 /\
  pl_mean m' = (if do_Gpl m phase
                then Some (lerp match pl_mean m with Some v => v | None => 0%Q end
                                (pl_lengths_mean E a m) (pl_decay m))
                else pl_mean m) /\
  Loss_signs_real m' =
    (if (do_Dmain phase || do_Dr1 m phase) && adjust_p m && is_not_None (augment_pipe m)
     then Loss_signs_real m ++ [real_logits_sign E a m]
     else Loss_signs_real m) /\
  live m' = forward_backward E a m.
Proof.
  unfold accumulate_gradients. intros H.
  destruct (in_list (a_phase a) phase_names) eqn:Hname; [|discriminate]. simpl in H.
  bind_inv H. rename a0 into k1. rename Ha into H1.
  bind_inv H. destruct a0 as [m2 k2]. rename Ha into H2.
  bind_inv H. rename a0 into k3. rename Ha into H3.
  bind_inv H. destruct a0 as [m4 k4]. rename Ha into H4.
  injection H as <- <-.
  apply acc_Gmain_result in H1. apply acc_Gpl_result in H2.
  apply acc_Dgen_result in H3. apply acc_Dreal_result in H4.
  cbv zeta. split; [reflexivity|].
  destruct (phase_flags m (a_phase a) Hname)
    as [F|[F|[F|[F|[F|F]]]]]; destruct F as (_ & F1 & F2 & F3 & F4);
    rewrite F1, F2 in *; rewrite ?F3, ?F4 in *; clear F1 F2;
    destruct (negb (Qeq_bool (pl_weight m) 0)) eqn:Gw in *;
    destruct (negb (Qeq_bool (r1_gamma m) 0)) eqn:Dw in *;
    cbn [orb andb] in *;
    repeat match goal with
           | H : _ /\ _ |- _ => destruct H
           end; subst;
    try (destruct (adjust_p m && is_not_None (augment_pipe m)));
    repeat split; try reflexivity;
    destruct (forward_backward E a m); reflexivity.
Qed.

Lemma lookup_insert_if (b : bool) (k0 : string) (v : Q) (l : gmap string Q) (k : string) :
  (if b then <[k0 := v]> l else l) !! k =
  if b && String.eqb k k0 then Some v else l !! k.
Proof.
  destruct b; simpl; [|reflexivity].
  destruct (String.eqb_spec k k0) as [->|Hne].
  - apply lookup_insert_eq.
  - apply lookup_insert_ne. congruence.
Qed.

Lemma accumulate_gradients_lookup (E : Env) (m : Model) (a : AccArgs) (m' : Model)
    (l : gmap string Q) (key : string) :
  accumulate_gradients E m a = Ok (m', l) ->
  l !! key = if term_computed m (a_phase a) key
             then Some (loss_term E key a m) else None.
Proof.
  intros H. apply accumulate_gradients_result in H. cbv zeta in H.
  destruct H as (_ & -> & _). unfold term_computed.
  rewrite !lookup_insert_if, lookup_empty.
  generalize (do_Gmain (a_phase a)), (do_Gpl m (a_phase a)),
             (do_Dmain (a_phase a)), (do_Dr1 m (a_phase a)).
  intros b1 b2 b3 b4.
  destruct (String.eqb_spec key "loss_Dr1") as [->|_];
    [cbn; destruct b1, b2, b3, b4; reflexivity|].
  destruct (String.eqb_spec key "loss_Dreal") as [->|_];
    [cbn; destruct b1, b2, b3, b4; reflexivity|].
  destruct (String.eqb_spec key "loss_Dgen") as [->|_];
    [cbn; destruct b1, b2, b3, b4; reflexivity|].
  destruct (String.eqb_spec key "loss_Gpl") as [->|_];
    [cbn; destruct b1, b2, b3, b4; reflexivity|].
  destruct (String.eqb_spec key "loss_Gmain") as [->|_];
    [cbn; destruct b1, b2, b3, b4; reflexivity|].
  rewrite !andb_false_r. reflexivity.
Qed.

(** X1. A successful accumulation round returns a loss exactly for the terms
    its phase computes: loss_Gmain for Gmain and Gboth; loss_Gpl for Greg
    and Gboth unless pl_weight is 0; loss_Dgen and loss_Dreal for Dmain and
    Dboth; loss_Dr1 for Dreg and Dboth unless r1_gamma is 0; and no other
    key. *)
Theorem accumulate_gradients_losses (E : Env) (m : Model) (a : AccArgs) (m' : Model)
    (l : gmap string Q) :
  accumulate_gradients E m a = Ok (m', l) ->
  let phase := a_phase a in
  (is_Some (l !! "loss_Gmain") <-> phase = "Gmain" \/ phase = "Gboth") /\
  (is_Some (l !! "loss_Gpl") <->
   (phase = "Greg" \/ phase = "Gboth") /\ ~ (pl_weight m == 0)%Q) /\
  (is_Some (l !! "loss_Dgen") <-> phase = "Dmain" \/ phase = "Dboth") /\
  (is_Some (l !! "loss_Dreal") <-> phase = "Dmain" \/ phase = "Dboth") /\
  (is_Some (l !! "loss_Dr1") <->
   (phase = "Dreg" \/ phase = "Dboth") /\ ~ (r1_gamma m == 0)%Q) /\
  (forall key, is_Some (l !! key) ->
               In key ["loss_Gmain"; "loss_Gpl"; "loss_Dgen"; "loss_Dreal"; "loss_Dr1"]).
Proof.
  intros H. cbv zeta.
  assert (Hl := fun key => accumulate_gradients_lookup E m a m' l key H).
  apply accumulate_gradients_result in H. cbv zeta in H. destruct H as (Hname & _).
  assert (Hw : Qeq_bool (pl_weight m) 0 = true <-> (pl_weight m == 0)%Q)
    by apply Qeq_bool_iff.
  assert (Hr : Qeq_bool (r1_gamma m) 0 = true <-> (r1_gamma m == 0)%Q)
    by apply Qeq_bool_iff.
  assert (HS : forall (x : Q), is_Some (Some x)) by eauto.
  assert (HN : ~ is_Some (@None Q)) by (intros [? ?]; discriminate).
  assert (Hcases := phase_flags m (a_phase a) Hname).
  rewrite !Hl. unfold term_computed.
  split; [|split; [|split; [|split; [|split]]]].
  1-5: destruct Hcases as [F|[F|[F|[F|[F|F]]]]];
       destruct F as (-> & F1 & F2 & F3 & F4);
       rewrite ?F1, ?F2, ?F3, ?F4; cbn;
       try destruct (Qeq_bool (pl_weight m) 0) eqn:Ew;
       try destruct (Qeq_bool (r1_gamma m) 0) eqn:Er; cbn;
       intuition (try discriminate; try congruence; auto).
  intros key. rewrite Hl. unfold term_computed.
  destruct (String.eqb_spec key "loss_Gmain") as [->|_]; [simpl; tauto|].
  destruct (String.eqb_spec key "loss_Gpl") as [->|_]; [simpl; tauto|].
  destruct (String.eqb_spec key "loss_Dgen") as [->|_]; [simpl; tauto|].
  destruct (String.eqb_spec key "loss_Dreal") as [->|_]; [simpl; tauto|].
  destruct (String.eqb_spec key "loss_Dr1") as [->|_]; [simpl; tauto|].
  cbn. intros [? ?]. discriminate.
Qed.

(** X2. What a successful round changes besides the networks: the sign
    buffer gets exactly one new entry, at its end, when the round runs the
    discriminator on real images (Dmain, Dboth, or Dreg with a non-zero
    r1_gamma) while [adjust_p] is set and there is an augmentation pipe, and
    is untouched otherwise; [pl_mean] moves by [pl_decay] towards the mean
    path length (from 0 when unset) in a round with path-length
    regularization and is untouched otherwise. *)
Theorem accumulate_gradients_effects (E : Env) (m : Model) (a : AccArgs) (m' : Model)
    (l : gmap string Q) :
  accumulate_gradients E m a = Ok (m', l) ->
  Loss_signs_real m' =
    (if (do_Dmain (a_phase a) || do_Dr1 m (a_phase a))
        && adjust_p m && is_not_None (augment_pipe m)
     then Loss_signs_real m ++ [real_logits_sign E a m]
     else Loss_signs_real m) /\
  (do_Gpl m (a_phase a) = false -> pl_mean m' = pl_mean m) /\
  (do_Gpl m (a_phase a) = true ->
   exists new_mean,
     pl_mean m' = Some new_mean /\
     (new_mean == match pl_mean m with Some v => v | None => 0 end
                  + pl_decay m * (pl_lengths_mean E a m
                                  - match pl_mean m with Some v => v | None => 0 end))%Q).
Proof.
  intros H. apply accumulate_gradients_result in H. cbv zeta in H.
  destruct H as (_ & _ & Hpl & Hsigns & _).
  split; [exact Hsigns|]. split.
  - intros Hf. rewrite Hf in Hpl. exact Hpl.
  - intros Hf. rewrite Hf in Hpl. eexists. split; [exact Hpl|].
    unfold lerp. reflexivity.
Qed.

(** ** [accumulate_gradients]: the assertion and the discriminator *)

Lemma run_D_Ok (m : Model) (u : unit) : run_D m = Ok u -> discriminator m <> None.
Proof. unfold run_D. destruct (discriminator m); [discriminate | discriminate]. Qed.

Lemma acc_Gmain_discriminator (E : Env) (m0 : Model) (a : AccArgs)
    (l l' : gmap string Q) :
  acc_Gmain E m0 a l = Ok l' -> discriminator m0 = None -> do_Gmain (a_phase a) = false.
Proof.
  unfold acc_Gmain. destruct (do_Gmain (a_phase a)); [|reflexivity].
  intros H Hd. bind_inv H. bind_inv H. apply run_D_Ok in Ha0. contradiction.
Qed.

Lemma acc_Dgen_discriminator (E : Env) (m0 : Model) (a : AccArgs) (m : Model)
    (l l' : gmap string Q) :
  acc_Dgen E m0 a m l = Ok l' -> discriminator m = None -> do_Dmain (a_phase a) = false.
Proof.
  unfold acc_Dgen. destruct (do_Dmain (a_phase a)); [|reflexivity].
  intros H Hd. bind_inv H. bind_inv H. apply run_D_Ok in Ha0. contradiction.
Qed.

Lemma acc_Dreal_discriminator (E : Env) (m0 : Model) (a : AccArgs) (m m' : Model)
    (l l' : gmap string Q) :
  acc_Dreal E m0 a m l = Ok (m', l') -> discriminator m = None ->
  (do_Dmain (a_phase a) || do_Dr1 m0 (a_phase a)) = false.
Proof.
  unfold acc_Dreal. destruct (do_Dmain (a_phase a) || do_Dr1 m0 (a_phase a)); [|reflexivity].
  intros H Hd. bind_inv H. apply run_D_Ok in Ha. contradiction.
Qed.

Lemma acc_Gpl_discriminator (E : Env) (m0 : Model) (a : AccArgs) (m m' : Model)
    (l l' : gmap string Q) :
  acc_Gpl E m0 a m l = Ok (m', l') -> discriminator m' = discriminator m.
Proof.
  intros H. apply acc_Gpl_result in H. destruct (do_Gpl m0 (a_phase a)).
  - destruct H as (_ & -> & _). reflexivity.
  - destruct H as [-> _]. reflexivity.
Qed.

(** X3. A phase name outside Gmain, Greg, Gboth, Dmain, Dreg, Dboth raises
    AssertionError, whatever the model, the arguments and the archive; a
    round that completes had one of the six names and, on a model built
    without a discriminator, computed none of the terms that call [run_D]
    (Gmain, Dgen, Dreal, Dr1): there only Greg, and Dreg with r1_gamma 0,
    can complete. *)
Theorem accumulate_gradients_guards (E : Env) (m : Model) (a : AccArgs) :
  (in_list (a_phase a) phase_names = false ->
   accumulate_gradients E m a = Raise AssertionError) /\
  (forall m' l,
      accumulate_gradients E m a = Ok (m', l) ->
      in_list (a_phase a) phase_names = true /\
      (discriminator m = None ->
       do_Gmain (a_phase a) = false /\ do_Dmain (a_phase a) = false /\
       do_Dr1 m (a_phase a) = false /\
       (a_phase a = "Greg" \/ a_phase a = "Dreg"))).
Proof.
  split.
  - intros H. unfold accumulate_gradients. rewrite H. reflexivity.
  - intros m' l H. unfold accumulate_gradients in H.
    destruct (in_list (a_phase a) phase_names) eqn:Hin; [|discriminate]. simpl in H.
    split; [reflexivity|]. intros Hd.
    bind_inv H. rename a0 into l1. rename Ha into H1.
    bind_inv H. destruct a0 as [m2 l2]. rename Ha into H2.
    bind_inv H. rename a0 into l3. rename Ha into H3.
    bind_inv H. destruct a0 as [m4 l4]. rename Ha into H4.
    apply acc_Gmain_discriminator in H1; [|exact Hd].
    apply acc_Gpl_discriminator in H2.
    assert (Hd2 : discriminator m2 = None) by congruence.
    apply acc_Dgen_discriminator in H3; [|exact Hd2].
    apply acc_Dreal_discriminator in H4; [|exact Hd2].
    apply orb_false_iff in H4. destruct H4 as [_ H4].
    split; [exact H1|]. split; [exact H3|]. split; [exact H4|].
    destruct (phase_flags m _ Hin)
      as [(Hp & Hg & _)|[(Hp & _)|[(Hp & Hg & _)|[(Hp & _ & Hdm & _)|[(Hp & _)|(Hp & _ & Hdm & _)]]]]];
      try congruence; auto.
Qed.

(** X4. A path-length regularization round (phase Greg with a non-zero
    pl_weight) with pl_batch_shrink 0 raises ZeroDivisionError, before any
    reference array is read. *)
Theorem accumulate_gradients_zero_shrink (E : Env) (m : Model) (a : AccArgs) :
  a_phase a = "Greg" -> Qeq_bool (pl_weight m) 0 = false -> pl_batch_shrink m = 0 ->
  accumulate_gradients E m a = Raise ZeroDivisionError.
Proof.
  intros Hp Hw Hs.
  unfold accumulate_gradients, acc_Gmain, acc_Gpl, do_Gpl, floordiv.
  rewrite Hp, Hw, Hs. reflexivity.
Qed.

Lemma term_computed_settings (m m' : Model) (phase key : string) :
  settings m' = settings m -> term_computed m' phase key = term_computed m phase key.
Proof.
  intros H. unfold settings in H.
  assert (Hw : pl_weight m' = pl_weight m) by congruence.
  assert (Hr : r1_gamma m' = r1_gamma m) by congruence.
  unfold term_computed, do_Gpl, do_Dr1. rewrite Hw, Hr. reflexivity.
Qed.

(** ** A preservation principle for the phase loop *)

Section LoopPreservation.

Context (E : Env) (batch_size batch_gpu num_gpus : Z) (dic2 : option Npz).

(** [I] is a property of the loop variables (model, losses, calls so far)
    and [Q] a property of the arguments of an accumulation round. *)
Context (I : Model -> gmap string Q -> list Event -> Prop) (Q : AccArgs -> Prop).

Hypothesis I_zero_grad : forall mdl L t o, I mdl L t -> I mdl L (t ++ [EvZeroGrad o]).
Hypothesis I_step :
  forall mdl L t o n, I mdl L t -> I (set_nets n mdl) L (t ++ [EvStep o]).
Hypothesis I_round :
  forall mdl L t a mdl' l,
    Q a -> I mdl L t -> accumulate_gradients E mdl a = Ok (mdl', l) ->
    I mdl' (merge_losses L l) (t ++ [EvAccumulate a]).

Lemma rounds_preserves (phase : Phase)
    (items : list (Tensor * LabelArg * Tensor * LabelArg)) :
  forall (round_idx : Z) (st st' : Loop),
    (forall (j : nat) it,
        items !! j = Some it -> batch_gpu * num_gpus <> 0 ->
        Q (mkAccArgs (name phase) (fst (fst (fst it))) (snd (fst (fst it)))
                     (snd (fst it)) (snd it)
                     (round_idx + Z.of_nat j
                      =? batch_size / (batch_gpu * num_gpus) - 1)
                     (interval phase) dic2)) ->
    rounds E batch_size batch_gpu num_gpus phase dic2 round_idx items st = Ok st' ->
    I (lp_model st) (loss_numpys st) (lp_trace st) -> I (lp_model st') (loss_numpys st') (lp_trace st').
Proof.
  induction items as [|it items IH]; intros round_idx st st' HQ H HI; simpl in H.
  - injection H as <-. exact HI.
  - destruct it as [[[real_img real_c] gen_z] gen_c].
    bind_inv H. apply floordiv_Ok in Ha. destruct Ha as [Hne ->].
    bind_inv H. destruct a as [m1 l1].
    eapply IH; [|exact H|].
    + intros j it Hj Hd.
      replace (round_idx + 1 + Z.of_nat j) with (round_idx + Z.of_nat (S j)) by lia.
      apply (HQ (S j) it Hj Hd).
    + simpl. eapply I_round; [|exact HI|exact Ha].
      specialize (HQ 0%nat _ eq_refl Hne). simpl in HQ.
      rewrite Z.add_0_r in HQ. exact HQ.
Qed.

Lemma run_phase_preserves (phase_real_img : list Tensor) (phase_real_c : list LabelArg)
    (phase : Phase) (gz : list Tensor) (gc : list LabelArg) (st st' : Loop) :
  (forall (j : nat) it,
      zip (zip (zip phase_real_img phase_real_c) gz) gc !! j = Some it ->
      batch_gpu * num_gpus <> 0 ->
      Q (mkAccArgs (name phase) (fst (fst (fst it))) (snd (fst (fst it)))
                   (snd (fst it)) (snd it)
                   (Z.of_nat j =? batch_size / (batch_gpu * num_gpus) - 1)
                   (interval phase) dic2)) ->
  run_phase E batch_size batch_gpu num_gpus dic2 phase_real_img phase_real_c st
            (phase, gz, gc) = Ok st' ->
  I (lp_model st) (loss_numpys st) (lp_trace st) -> I (lp_model st') (loss_numpys st') (lp_trace st').
Proof.
  unfold run_phase. intros HQ H HI. bind_inv H.
  destruct (negb (a =? 0)); [injection H as <-; exact HI|].
  bind_inv H. rename a0 into st1. bind_inv H. rename a0 into st2.
  assert (HI1 : I (lp_model st1) (loss_numpys st1) (lp_trace st1)).
  { revert Ha0. unfold init_accumulation.
    destruct (contains "G" (name phase)).
    - intros [= <-]. apply I_zero_grad, HI.
    - destruct (contains "D" (name phase)).
      + destruct (discriminator (lp_model st)); [|discriminate].
        intros [= <-]. apply I_zero_grad, HI.
      + intros [= <-]. exact HI. }
  assert (HI2 : I (lp_model st2) (loss_numpys st2) (lp_trace st2))
    by (eapply rounds_preserves; [|exact Ha1|exact HI1]; exact HQ).
  revert H. unfold update_weights.
  destruct (contains "G" (name phase)).
  - intros [= <-]. apply I_step, HI2.
  - destruct (contains "D" (name phase)).
    + destruct (discriminator (lp_model st2)); [|discriminate].
      intros [= <-]. apply I_step, HI2.
    + intros [= <-]. exact HI2.
Qed.

Lemma phase_loop_preserves (phase_real_img : list Tensor)
    (phase_real_c : list LabelArg)
    (items : list (Phase * list Tensor * list LabelArg)) :
  (forall phase gz gc (j : nat) it,
      In (phase, gz, gc) items ->
      zip (zip (zip phase_real_img phase_real_c) gz) gc !! j = Some it ->
      batch_gpu * num_gpus <> 0 ->
      Q (mkAccArgs (name phase) (fst (fst (fst it))) (snd (fst (fst it)))
                   (snd (fst it)) (snd it)
                   (Z.of_nat j =? batch_size / (batch_gpu * num_gpus) - 1)
                   (interval phase) dic2)) ->
  forall st st',
    foldM (run_phase E batch_size batch_gpu num_gpus dic2 phase_real_img phase_real_c)
          items st = Ok st' ->
    I (lp_model st) (loss_numpys st) (lp_trace st) -> I (lp_model st') (loss_numpys st') (lp_trace st').
Proof.
  induction items as [|[[phase gz] gc] items IH]; intros HQ st st' H HI;
    cbn [foldM] in H.
  - injection H as <-. exact HI.
  - bind_inv H. eapply IH; [|exact H|].
    + intros ph z c j it Hin. apply HQ. right. exact Hin.
    + eapply run_phase_preserves; [|exact Ha|exact HI].
      intros j it. apply HQ. left. reflexivity.
Qed.

End LoopPreservation.

(** ** [train_iter]: counters and returned losses *)

(** X5. A completing iteration adds 1 to [batch_idx] and adds to [cur_nimg]
    the number of images it trained on: the images of the incoming batch
    without [align_grad], the images of the archive's 'phase_real_img' with
    it. *)
Theorem train_iter_counts (E : Env) (m : Model) (input : Input) (rank : Z)
    (m' : Model) (losses : gmap string Q) (trace : list Event) :
  train_iter E m input rank = Ok (m', losses, trace) ->
  batch_idx m' = batch_idx m + 1 /\
  (align_grad m = false ->
   cur_nimg m' = cur_nimg m + shape0 (phase_real_img input)) /\
  (align_grad m = true ->
   exists d img,
     files E !! npz_path E m rank = Some d /\ d !! "phase_real_img" = Some img /\
     cur_nimg m' = cur_nimg m + shape0 img).
Proof.
  intros H. apply train_iter_counters in H.
  destruct H as (dic2 & img & Hload & Hc & Hb).
  split; [exact Hb|]. split.
  - intros Hal. unfold load_batch in Hload. rewrite Hal in Hload. simpl in Hload.
    injection Hload as <- <-. rewrite Hc. unfold shape0.
    rewrite normalize_length. reflexivity.
  - intros Hal.
    destruct (load_batch_align _ _ _ _ _ _ Hload Hal) as (d & file_img & Hf & _ & Hk & ->).
    exists d, file_img. split; [exact Hf|]. split; [exact Hk|].
    rewrite Hc. unfold shape0. rewrite normalize_length. reflexivity.
Qed.

Lemma merge_losses_is_Some (L l : gmap string Q) (key : string) :
  is_Some (merge_losses L l !! key) <-> is_Some (L !! key) \/ is_Some (l !! key).
Proof.
  unfold merge_losses. rewrite lookup_union_with.
  destruct (L !! key), (l !! key); simpl; split; eauto;
    intros [[? H]|[? H]]; (discriminate || eauto).
Qed.

Lemma In_app_singleton_other {A} (x y : A) (l : list A) :
  x <> y -> (In x (l ++ [y]) <-> In x l).
Proof.
  intros Hne. rewrite in_app_iff. simpl. split.
  - intros [H|[H|[]]]; [exact H | congruence].
  - auto.
Qed.

Lemma train_iter_losses_trace (E : Env) (m : Model) (input : Input) (rank : Z)
    (m' : Model) (losses : gmap string Q) (trace : list Event) (key : string) :
  train_iter E m input rank = Ok (m', losses, trace) ->
  is_Some (losses !! key) <->
  exists a, In (EvAccumulate a) trace /\ term_computed m (a_phase a) key = true.
Proof.
  intros H. apply train_iter_inv in H.
  destruct H as (dic2 & img & zs & cs & rc & st & _ & _ & _ & _ & Hloop & H).
  cbv zeta in H. destruct H as (_ & _ & -> & ->).
  apply (phase_loop_preserves E _ _ _ dic2
           (fun mdl L t =>
              settings mdl = settings m /\
              forall key, is_Some (L !! key) <->
                          exists a, In (EvAccumulate a) t /\
                                    term_computed m (a_phase a) key = true)
           (fun _ => True)) in Hloop.
  - destruct Hloop as [_ Hloop]. apply Hloop.
  - intros mdl L t o [Hs HL]. split; [exact Hs|]. intros k. rewrite HL.
    split; intros (a & Hin & Ht); exists a; (split; [|exact Ht]).
    + apply in_app_iff. auto.
    + apply In_app_singleton_other in Hin; [exact Hin | discriminate].
  - intros mdl L t o n [Hs HL]. split; [exact Hs|]. intros k. rewrite HL.
    split; intros (a & Hin & Ht); exists a; (split; [|exact Ht]).
    + apply in_app_iff. auto.
    + apply In_app_singleton_other in Hin; [exact Hin | discriminate].
  - intros mdl L t a mdl' l _ [Hs HL] Hacc.
    assert (Hl := fun k => accumulate_gradients_lookup E mdl a mdl' l k Hacc).
    apply accumulate_gradients_inv in Hacc. destruct Hacc as (_ & Hs' & _).
    split; [congruence|]. intros k.
    rewrite merge_losses_is_Some, HL, Hl, (term_computed_settings m mdl) by exact Hs.
    split.
    + intros [(a0 & Hin & Ht)|Hk].
      * exists a0. split; [apply in_app_iff; auto | exact Ht].
      * exists a. split; [apply in_app_iff; right; left; reflexivity|].
        destruct (term_computed m (a_phase a) k); [reflexivity|].
        destruct Hk as [? Hk]. discriminate.
    + intros (a0 & Hin & Ht). apply in_app_iff in Hin.
      destruct Hin as [Hin|[Heq|[]]].
      * left. eauto.
      * injection Heq as ->. right. rewrite Ht. eauto.
  - intros. exact I.
  - simpl. split; [reflexivity|]. intros k. rewrite lookup_empty. split.
    + intros [? Hk]. discriminate.
    + intros (a & [] & _).
Qed.

(** X6. The loss mapping a completing iteration returns has a key exactly
    when one of the accumulation rounds it ran computes that loss term; in
    particular it only ever holds the five loss names. *)
Theorem train_iter_losses_match (E : Env) (m : Model) (input : Input) (rank : Z)
    (m' : Model) (losses : gmap string Q) (trace : list Event) :
  train_iter E m input rank = Ok (m', losses, trace) ->
  (forall key,
      is_Some (losses !! key) <->
      exists a, In (EvAccumulate a) trace /\ term_computed m (a_phase a) key = true) /\
  (forall key,
      is_Some (losses !! key) ->
      In key ["loss_Gmain"; "loss_Gpl"; "loss_Dgen"; "loss_Dreal"; "loss_Dr1"]).
Proof.
  intros H. split.
  - intros key. eapply train_iter_losses_trace, H.
  - intros key Hk. apply (train_iter_losses_trace _ _ _ _ _ _ _ key H) in Hk.
    destruct Hk as (a & _ & Ht). unfold term_computed in Ht.
    destruct (String.eqb_spec key "loss_Gmain") as [->|_]; [simpl; tauto|].
    destruct (String.eqb_spec key "loss_Gpl") as [->|_]; [simpl; tauto|].
    destruct (String.eqb_spec key "loss_Dgen") as [->|_]; [simpl; tauto|].
    destruct (String.eqb_spec key "loss_Dreal") as [->|_]; [simpl; tauto|].
    destruct (String.eqb_spec key "loss_Dr1") as [->|_]; [simpl; tauto|].
    discriminate.
Qed.

(** ** [train_iter]: what every completing iteration went through *)

Lemma make_gen_z_nonempty (E : Env) (m : Model) (dic2 : option Npz)
    (batch_size batch_gpu : Z) (all_gen_z : list (list Tensor)) :
  make_gen_z E m dic2 batch_size batch_gpu = Ok all_gen_z ->
  all_gen_z <> [] /\ Forall (fun parts => parts <> []) all_gen_z.
Proof.
  unfold make_gen_z. intros H. bind_inv H. bind_inv H. split.
  - apply split_nonempty in Ha0. apply mapM_length in H.
    destruct all_gen_z; [|discriminate]. destruct a0; [congruence | discriminate].
  - eapply mapM_Forall; [|exact H]. intros t parts. apply split_nonempty.
Qed.

Lemma make_gen_c_nonempty (m : Model) (input : Input) (batch_gpu : Z)
    (all_gen_c : list (list LabelArg)) :
  make_gen_c m input batch_gpu 1 = Ok all_gen_c -> phases m <> [] ->
  all_gen_c <> [] /\ Forall (fun parts => parts <> []) all_gen_c.
Proof.
  intros H Hne. split; [|apply (make_gen_c_shape _ _ _ _ H)].
  unfold make_gen_c in H.
  destruct (phases_all_gen_c input) as [|first rest] eqn:Hin; [discriminate|].
  destruct (0 <? shape1 first).
  - apply mapM_length in H. destruct all_gen_c; [discriminate | discriminate].
  - injection H as <-. destruct (phases m); [congruence | discriminate].
Qed.

Lemma run_phase_due_divisor (E : Env) (batch_size batch_gpu num_gpus : Z)
    (dic2 : option Npz) (reals : list Tensor) (rc : list LabelArg) (st : Loop)
    (phase : Phase) (gz : list Tensor) (gc : list LabelArg) (st' : Loop) :
  run_phase E batch_size batch_gpu num_gpus dic2 reals rc st (phase, gz, gc) = Ok st' ->
  interval phase <> 0 /\
  (due (batch_idx (lp_model st)) phase = true ->
   zip (zip (zip reals rc) gz) gc <> [] -> batch_gpu * num_gpus <> 0).
Proof.
  unfold run_phase, due. intros H. bind_inv H.
  apply pymod_Ok in Ha. destruct Ha as [Hne ->]. split; [exact Hne|].
  intros Hdue Hitems. rewrite Hdue in H. simpl in H.
  bind_inv H. bind_inv H.
  destruct (zip (zip (zip reals rc) gz) gc) as [|[[[r c] z] g] items];
    [congruence|].
  simpl in Ha0. bind_inv Ha0. apply floordiv_Ok in Ha1. apply Ha1.
Qed.

(** X7. An iteration over a schedule built by the constructor never
    completes on an empty batch: whenever it completes, [cur_nimg] has
    grown. *)
Theorem train_iter_trains_on_images (E : Env) (m : Model) (input : Input) (rank : Z)
    (m' : Model) (losses : gmap string Q) (trace : list Event) (g d : option Z) :
  phases m = build_phases g d ->
  train_iter E m input rank = Ok (m', losses, trace) ->
  cur_nimg m < cur_nimg m'.
Proof.
  intros Hph H. destruct (train_iter_counters _ _ _ _ _ _ _ H)
    as (dic2 & img & Hload & Hc & _).
  apply train_iter_inv in H.
  destruct H as (dic2' & img' & zs & cs & rc & st & Hload' & Hzs & Hcs & Hrc & Hloop & _).
  rewrite Hload in Hload'. injection Hload' as <- <-.
  assert (Hne : phases m <> [])
    by (rewrite Hph; destruct g, d; discriminate).
  apply make_gen_z_nonempty in Hzs. destruct Hzs as [Hz0 Hz].
  apply make_gen_c_nonempty in Hcs; [|exact Hne]. destruct Hcs as [Hc0 Hcf].
  apply make_real_c_nonempty in Hrc; [|exact Hne].
  assert (Hfirst : exists phase rest, phases m = phase :: rest /\ interval phase = 1)
    by (rewrite Hph; destruct g, d; eauto).
  destruct Hfirst as (phase & rest & Hsched & Hint). rewrite Hsched in Hloop.
  destruct zs as [|gz zs]; [congruence|]. destruct cs as [|gc cs]; [congruence|].
  apply Forall_cons in Hz. destruct Hz as [Hgz _].
  apply Forall_cons in Hcf. destruct Hcf as [Hgc _].
  cbn [foldM zip_with] in Hloop. bind_inv Hloop.
  apply run_phase_due_divisor in Ha. destruct Ha as [_ Hdiv].
  assert (Hpos : shape0 img * 1 <> 0).
  { apply Hdiv.
    - unfold due. rewrite Hint, Z.mod_1_r. reflexivity.
    - destruct rc; [congruence|]. destruct gz; [congruence|].
      destruct gc; [congruence|]. discriminate. }
  rewrite Hc. unfold shape0 in *. lia.
Qed.

(** X8. A completing iteration over a schedule built by the constructor (on
    a non-empty batch, with one noise chunk and one label tensor per phase)
    returns at least loss_Gmain, loss_Dgen and loss_Dreal. *)
Theorem train_iter_main_losses (E : Env) (m : Model) (input : Input) (rank : Z)
    (m' : Model) (losses : gmap string Q) (trace : list Event)
    (dic2 : option Npz) (img z : Tensor) (g d : option Z) :
  phases m = build_phases g d ->
  train_iter E m input rank = Ok (m', losses, trace) ->
  load_batch E m input rank = Ok (dic2, img) ->
  img <> [] ->
  draw_gen_z E m dic2 (shape0 img) = Ok z ->
  shape0 z = shape0 (phases m) * shape0 img ->
  length (phases_all_gen_c input) = length (phases m) ->
  is_Some (losses !! "loss_Gmain") /\ is_Some (losses !! "loss_Dgen") /\
  is_Some (losses !! "loss_Dreal").
Proof.
  intros Hph H Hload Himg Hz Hrows Hgc.
  assert (Hrun := fun phase =>
            train_iter_due_phase_runs _ _ _ _ _ _ _ _ _ _ phase
              H Hload Himg Hz Hrows Hgc).
  assert (HG : exists phase, In phase (phases m) /\ interval phase = 1 /\
                             (name phase = "Gmain" \/ name phase = "Gboth")).
  { rewrite Hph. destruct g as [kg|], d as [kd|];
      [exists (mkPhase "Gmain" 1) | exists (mkPhase "Gmain" 1)
      | exists (mkPhase "Gboth" 1) | exists (mkPhase "Gboth" 1)];
      (split; [simpl; tauto | split; [reflexivity | simpl; tauto]]). }
  assert (HD : exists phase, In phase (phases m) /\ interval phase = 1 /\
                             (name phase = "Dmain" \/ name phase = "Dboth")).
  { rewrite Hph. destruct g as [kg|], d as [kd|];
      [exists (mkPhase "Dmain" 1) | exists (mkPhase "Dboth" 1)
      | exists (mkPhase "Dmain" 1) | exists (mkPhase "Dboth" 1)];
      (split; [simpl; tauto | split; [reflexivity | simpl; tauto]]). }
  destruct HG as (pg & Hing & Hig & Hng). destruct HD as (pd & Hind & Hid & Hnd).
  destruct (Hrun pg Hing) as (ag & Hag & Hpg);
    [unfold due; rewrite Hig, Z.mod_1_r; reflexivity|].
  destruct (Hrun pd Hind) as (ad & Had & Hpd);
    [unfold due; rewrite Hid, Z.mod_1_r; reflexivity|].
  repeat split; apply (train_iter_losses_trace _ _ _ _ _ _ _ _ H).
  - exists ag. split; [exact Hag|]. rewrite Hpg. destruct Hng as [->| ->]; reflexivity.
  - exists ad. split; [exact Had|]. rewrite Hpd. destruct Hnd as [->| ->]; reflexivity.
  - exists ad. split; [exact Had|]. rewrite Hpd. destruct Hnd as [->| ->]; reflexivity.
Qed.

Lemma phase_loop_intervals (E : Env) (batch_size batch_gpu num_gpus : Z)
    (dic2 : option Npz) (reals : list Tensor) (rc : list LabelArg) :
  forall (schedule : list Phase) (zs : list (list Tensor)) (cs : list (list LabelArg))
         (st st' : Loop),
    (length schedule <= length zs)%nat -> (length schedule <= length cs)%nat ->
    foldM (run_phase E batch_size batch_gpu num_gpus dic2 reals rc)
          (zip (zip schedule zs) cs) st = Ok st' ->
    Forall (fun phase => interval phase <> 0) schedule.
Proof.
  induction schedule as [|phase schedule IH]; intros zs cs st st' Hlz Hlc H;
    [constructor|].
  destruct zs as [|gz zs]; [simpl in Hlz; lia|].
  destruct cs as [|gc cs]; [simpl in Hlc; lia|].
  cbn [foldM zip_with] in H. bind_inv H.
  apply run_phase_due_divisor in Ha. destruct Ha as [Hne _].
  constructor; [exact Hne|].
  eapply IH; [| |exact H]; simpl in *; lia.
Qed.

(** X9. An iteration that reaches every phase of the schedule (non-empty
    batch, one noise chunk and one label tensor per phase) and completes had
    no phase with interval 0: a zero interval makes the modulo of line 382
    raise. *)
Theorem train_iter_intervals_nonzero (E : Env) (m : Model) (input : Input) (rank : Z)
    (m' : Model) (losses : gmap string Q) (trace : list Event)
    (dic2 : option Npz) (img z : Tensor) :
  train_iter E m input rank = Ok (m', losses, trace) ->
  load_batch E m input rank = Ok (dic2, img) ->
  img <> [] ->
  draw_gen_z E m dic2 (shape0 img) = Ok z ->
  shape0 z = shape0 (phases m) * shape0 img ->
  length (phases_all_gen_c input) = length (phases m) ->
  Forall (fun phase => interval phase <> 0) (phases m).
Proof.
  intros H Hload Himg Hz Hrows Hgc.
  destruct (train_iter_covered _ _ _ _ _ _ _ _ _ _ H Hload Himg Hz Hrows Hgc)
    as (zs & cs & rc & st & Hlz & Hlc & _ & _ & _ & Hloop & _).
  eapply phase_loop_intervals; eauto.
Qed.

(** ** [train_iter]: the ADA heuristic *)

Lemma train_iter_ada_state (E : Env) (m : Model) (input : Input) (rank : Z)
    (m' : Model) (losses : gmap string Q) (trace : list Event) :
  train_iter E m input rank = Ok (m', losses, trace) ->
  exists m2 dic2 batch_size,
    ada_heuristic m2 dic2 batch_size = Ok m' /\
    augment_pipe m2 = augment_pipe m /\ adjust_p m2 = adjust_p m /\
    ada_target m2 = ada_target m /\ ada_interval m2 = ada_interval m /\
    batch_idx m2 = batch_idx m + 1.
Proof.
  intros H. apply train_iter_inv in H.
  destruct H as (dic2 & img & zs & cs & rc & st & _ & _ & _ & _ & Hloop & H).
  cbv zeta in H. destruct H as (_ & Hada & _ & _).
  apply phase_loop_inv with (m := m) in Hloop; [|reflexivity].
  destruct Hloop as [Hs _]. unfold settings in Hs.
  eexists _, dic2, (shape0 img). split; [exact Hada|].
  simpl. repeat split; congruence.
Qed.

(** X10. When the controller is due in an iteration (adjust_p set, a pipe
    present, the incremented batch index a multiple of ada_interval), the
    iteration can only complete if [ada_target] is set, and it then leaves
    the sign buffer empty: with the constructor's default
    [ada_target=None] such an iteration raises. *)
Theorem train_iter_ada_needs_target (E : Env) (m : Model) (input : Input) (rank : Z)
    (m' : Model) (losses : gmap string Q) (trace : list Event) (pipe : AugmentPipe) :
  train_iter E m input rank = Ok (m', losses, trace) ->
  adjust_p m = true -> augment_pipe m = Some pipe ->
  (batch_idx m + 1) mod ada_interval m = 0 ->
  (exists t, ada_target m = Some t) /\ Loss_signs_real m' = [].
Proof.
  intros H Hadj Hp Hmod. apply train_iter_ada_state in H.
  destruct H as (m2 & dic2 & bs & Hada & Hp2 & Hadj2 & Ht2 & Hi2 & Hb2).
  destruct (ada_heuristic_fires m2 dic2 bs m' pipe Hada) as (t & Ht & _ & ->);
    try congruence.
  split; [|reflexivity]. exists t. congruence.
Qed.

(** X11. Without [adjust_p] or without an augmentation pipe, a completing
    iteration leaves the pipe and the sign buffer exactly as they were:
    nothing is buffered and nothing is adjusted. *)
Theorem train_iter_ada_off (E : Env) (m : Model) (input : Input) (rank : Z)
    (m' : Model) (losses : gmap string Q) (trace : list Event) :
  train_iter E m input rank = Ok (m', losses, trace) ->
  adjust_p m && is_not_None (augment_pipe m) = false ->
  augment_pipe m' = augment_pipe m /\ Loss_signs_real m' = Loss_signs_real m.
Proof.
  intros H Hoff. apply train_iter_inv in H.
  destruct H as (dic2 & img & zs & cs & rc & st & _ & _ & _ & _ & Hloop & H).
  cbv zeta in H. destruct H as (_ & Hada & _ & _).
  apply (phase_loop_preserves E _ _ _ dic2
           (fun mdl L t =>
              settings mdl = settings m /\ Loss_signs_real mdl = Loss_signs_real m)
           (fun _ => True)) in Hloop.
  - simpl in Hloop. destruct Hloop as [Hs Hsigns]. unfold settings in Hs.
    assert (Hp : augment_pipe (lp_model st) = augment_pipe m) by congruence.
    assert (Ha : adjust_p (lp_model st) = adjust_p m) by congruence.
    unfold ada_heuristic in Hada. simpl in Hada. rewrite Hp, Ha in Hada.
    destruct (augment_pipe m) as [pipe|] eqn:Epipe.
    + simpl in Hoff. rewrite andb_true_r in Hoff. rewrite Hoff in Hada.
      injection Hada as <-. simpl. split; [exact Hp | exact Hsigns].
    + injection Hada as <-. simpl. split; [exact Hp | exact Hsigns].
  - intros mdl L t o HI. exact HI.
  - intros mdl L t o n HI. exact HI.
  - intros mdl L t a mdl' l _ [Hs Hsigns] Hacc.
    assert (Hr := accumulate_gradients_result E mdl a mdl' l Hacc).
    cbv zeta in Hr. destruct Hr as (_ & _ & _ & Hsg & _).
    apply accumulate_gradients_inv in Hacc. destruct Hacc as (_ & Hs' & _).
    split; [congruence|]. rewrite Hsg.
    unfold settings in Hs.
    assert (Hp : augment_pipe mdl = augment_pipe m) by congruence.
    assert (Ha : adjust_p mdl = adjust_p m) by congruence.
    rewrite <- andb_assoc, Ha, Hp, Hoff, andb_false_r. exact Hsigns.
  - intros. exact I.
  - simpl. split; reflexivity.
Qed.

(** ** [train_iter]: the arguments of the accumulation rounds *)

Lemma zip_lookup {A B} (l : list A) (k : list B) (j : nat) (x : A * B) :
  zip l k !! j = Some x -> l !! j = Some (fst x) /\ k !! j = Some (snd x).
Proof.
  intros H. apply lookup_zip_with_Some in H.
  destruct H as (y & z & -> & Hy & Hz). auto.
Qed.

Lemma lookup_In {A} (l : list A) (j : nat) (x : A) : l !! j = Some x -> In x l.
Proof. intros H. apply list_elem_of_In. eapply list_elem_of_lookup_2, H. Qed.

Lemma In_lookup {A} (l : list A) (x : A) : In x l -> exists j, l !! j = Some x.
Proof. intros H. apply list_elem_of_In in H. apply list_elem_of_lookup_1, H. Qed.

Lemma In_replicate {A} (n : nat) (x y : A) : In y (replicate n x) -> y = x.
Proof. intros H. apply list_elem_of_In, elem_of_replicate in H. apply H. Qed.

(** X12. In a completing iteration every accumulation round is a
    synchronising one ([sync] true), belongs to a phase of the schedule and
    has that phase's interval as gain; when the label tensors have width 0,
    the generated labels it gets are [None] while the real labels are the
    list [[None]]. *)
Theorem train_iter_round_arguments (E : Env) (m : Model) (input : Input) (rank : Z)
    (m' : Model) (losses : gmap string Q) (trace : list Event) (a : AccArgs) :
  train_iter E m input rank = Ok (m', losses, trace) ->
  In (EvAccumulate a) trace ->
  a_sync a = true /\
  (exists phase, In phase (phases m) /\ a_phase a = name phase /\
                 a_gain a = interval phase) /\
  (shape1 (phase_real_c input) <= 0 -> a_real_c a = LabNoneList 1) /\
  (forall first rest, phases_all_gen_c input = first :: rest ->
                      shape1 first <= 0 -> a_gen_c a = LabNone).
Proof.
  intros H Hin. apply train_iter_inv in H.
  destruct H as (dic2 & img & zs & cs & rc & st & _ & _ & Hcs & Hrc & Hloop & H).
  cbv zeta in H. destruct H as (_ & _ & _ & ->).
  set (Qa := fun r : AccArgs =>
               a_sync r = true /\
               (exists phase, In phase (phases m) /\ a_phase r = name phase /\
                              a_gain r = interval phase) /\
               (shape1 (phase_real_c input) <= 0 -> a_real_c r = LabNoneList 1) /\
               (forall first rest, phases_all_gen_c input = first :: rest ->
                                   shape1 first <= 0 -> a_gen_c r = LabNone)).
  apply (phase_loop_preserves E _ _ _ dic2
           (fun mdl L t =>
              Forall (fun ev => match ev with
                                | EvAccumulate r => Qa r
                                | _ => True
                                end) t) Qa) in Hloop.
  - simpl in Hloop. rewrite List.Forall_forall in Hloop. apply (Hloop _ Hin).
  - intros mdl L t o HI. apply Forall_app. split; [exact HI | repeat constructor].
  - intros mdl L t o n HI. apply Forall_app. split; [exact HI | repeat constructor].
  - intros mdl L t r mdl' l HQ HI _. apply Forall_app.
    split; [exact HI | constructor; [exact HQ | constructor]].
  - intros phase gz gc j it Hitem Hj Hdiv.
    apply zip_lookup in Hj. destruct Hj as [Hj Hgc].
    apply zip_lookup in Hj. destruct Hj as [Hj Hgz].
    apply zip_lookup in Hj. destruct Hj as [Hreal Hrc'].
    assert (j = 0%nat) as -> by (destruct j; [reflexivity | discriminate]).
    apply In_lookup in Hitem. destruct Hitem as (i & Hi).
    apply zip_lookup in Hi. destruct Hi as [Hi Hics]. simpl in Hi, Hics.
    apply zip_lookup in Hi. destruct Hi as [Hiph _]. simpl in Hiph.
    unfold Qa. cbn [a_sync a_phase a_gain a_real_c a_gen_c].
    split; [|split; [|split]].
    + rewrite Z.mul_1_r in *. rewrite Z.div_same by exact Hdiv. reflexivity.
    + exists phase. split; [eapply lookup_In, Hiph | split; reflexivity].
    + intros Hw. unfold make_real_c in Hrc.
      assert (Hb : (0 <? shape1 (phase_real_c input)) = false)
        by (apply Z.ltb_ge; exact Hw).
      rewrite Hb in Hrc. injection Hrc as <-.
      apply lookup_In, In_replicate in Hrc'. exact Hrc'.
    + intros first rest Hfirst Hw. unfold make_gen_c in Hcs. rewrite Hfirst in Hcs.
      assert (Hb : (0 <? shape1 first) = false) by (apply Z.ltb_ge; exact Hw).
      rewrite Hb in Hcs. injection Hcs as <-.
      apply lookup_In, In_replicate in Hics. subst gc.
      apply lookup_In in Hgc. destruct Hgc as [<-|[]]. reflexivity.
  - simpl. constructor.
Qed.

(** ** Successive iterations *)

(** X13. A run of [train_in_iter] that completes has advanced [batch_idx]
    by the number of its batches, and [cur_nimg] has not decreased. *)
Theorem train_in_iter_counts (E : Env) (rank : Z) (inputs : list Input) (m m' : Model) :
  train_in_iter E rank inputs m = Ok m' ->
  batch_idx m' = batch_idx m + Z.of_nat (length inputs) /\
  cur_nimg m <= cur_nimg m'.
Proof.
  revert m. induction inputs as [|input inputs IH]; intros m H; simpl in H.
  - injection H as <-. simpl. split; lia.
  - bind_inv H. destruct a as [[m1 losses] trace]. simpl in H.
    apply train_iter_counters in Ha. destruct Ha as (dic2 & img & _ & Hc & Hb).
    apply IH in H. destruct H as [Hb' Hc'].
    unfold shape0 in Hc. split; [|lia].
    rewrite Hb', Hb. simpl length. lia.
Qed.

(** ** The pairing of EMA and live tensors *)

Lemma blend_parameters_length (ema live : list (list Q)) (beta : Q) :
  length (blend_parameters ema live beta) = length ema.
Proof.
  unfold blend_parameters. rewrite length_app, length_zip_with, length_drop. lia.
Qed.

Lemma blend_parameters_beyond (ema live : list (list Q)) (beta : Q) (i : nat) :
  (length live <= i)%nat -> blend_parameters ema live beta !! i = ema !! i.
Proof.
  intros Hi. unfold blend_parameters.
  destruct (Nat.le_gt_cases (length ema) (length live)) as [Hle|Hgt].
  - rewrite drop_ge by exact Hle. rewrite app_nil_r.
    rewrite !lookup_ge_None_2; [reflexivity|lia|rewrite length_zip_with; lia].
  - rewrite lookup_app_r by (rewrite length_zip_with; lia).
    rewrite length_zip_with, lookup_drop. f_equal. lia.
Qed.

Lemma copy_buffers_length (ema live : list (list Q)) :
  length (copy_buffers ema live) = length ema.
Proof.
  unfold copy_buffers. rewrite length_app, length_zip_with, length_drop. lia.
Qed.

Lemma copy_buffers_beyond (ema live : list (list Q)) (i : nat) :
  (length live <= i)%nat -> copy_buffers ema live !! i = ema !! i.
Proof.
  intros Hi. unfold copy_buffers.
  destruct (Nat.le_gt_cases (length ema) (length live)) as [Hle|Hgt].
  - rewrite drop_ge by exact Hle. rewrite app_nil_r.
    rewrite !lookup_ge_None_2; [reflexivity|lia|rewrite length_zip_with; lia].
  - rewrite lookup_app_r by (rewrite length_zip_with; lia).
    rewrite length_zip_with, lookup_drop. f_equal. lia.
Qed.

Lemma train_iter_ema_networks (E : Env) (m : Model) (input : Input) (rank : Z)
    (m' : Model) (losses : gmap string Q) (trace : list Event) :
  train_iter E m input rank = Ok (m', losses, trace) ->
  exists beta,
    mapping_ema m' = ema_network (mapping_ema m) (mapping m') beta /\
    synthesis_ema m' = ema_network (synthesis_ema m) (synthesis m') beta.
Proof.
  intros H. apply train_iter_inv in H.
  destruct H as (dic2 & img & zs & cs & rc & st & _ & _ & _ & _ & Hloop & H).
  cbv zeta in H. destruct H as (_ & Hada & _ & _).
  apply phase_loop_inv with (m := m) in Hloop; [|reflexivity].
  destruct Hloop as [Hs _]. unfold settings in Hs.
  apply ada_heuristic_frame in Hada. destruct Hada as (pipe & signs & ->).
  exists (ema_beta E (lp_model st) (shape0 img)). simpl.
  assert (Hme : mapping_ema (lp_model st) = mapping_ema m) by congruence.
  assert (Hse : synthesis_ema (lp_model st) = synthesis_ema m) by congruence.
  rewrite Hme, Hse. split; reflexivity.
Qed.

(** X14. Whatever the shapes of the networks, a completing iteration keeps
    the number of parameter tensors and of buffers of both EMA networks, and
    leaves untouched every EMA parameter tensor and buffer that has no live
    counterpart (its position is beyond the live network's list): the
    pairing by [zip] stops at the shorter list. *)
Theorem train_iter_ema_structure (E : Env) (m : Model) (input : Input) (rank : Z)
    (m' : Model) (losses : gmap string Q) (trace : list Event) :
  train_iter E m input rank = Ok (m', losses, trace) ->
  (length (parameters (mapping_ema m')) = length (parameters (mapping_ema m)) /\
   length (buffers (mapping_ema m')) = length (buffers (mapping_ema m)) /\
   length (parameters (synthesis_ema m')) = length (parameters (synthesis_ema m)) /\
   length (buffers (synthesis_ema m')) = length (buffers (synthesis_ema m))) /\
  (forall i, (length (parameters (mapping m')) <= i)%nat ->
             parameters (mapping_ema m') !! i = parameters (mapping_ema m) !! i) /\
  (forall i, (length (buffers (mapping m')) <= i)%nat ->
             buffers (mapping_ema m') !! i = buffers (mapping_ema m) !! i) /\
  (forall i, (length (parameters (synthesis m')) <= i)%nat ->
             parameters (synthesis_ema m') !! i = parameters (synthesis_ema m) !! i) /\
  (forall i, (length (buffers (synthesis m')) <= i)%nat ->
             buffers (synthesis_ema m') !! i = buffers (synthesis_ema m) !! i).
Proof.
  intros H. apply train_iter_ema_networks in H. destruct H as (beta & -> & ->).
  cbn [ema_network parameters buffers].
  rewrite !blend_parameters_length, !copy_buffers_length.
  repeat split; intros i Hi;
    (apply blend_parameters_beyond || apply copy_buffers_beyond); exact Hi.
Qed.

(** ** [soft_update] *)

Lemma blended_one (beta : Q) (live old new : list (list Q)) :
  (beta == 1)%Q -> blended beta live old new -> tensors_eq new old.
Proof.
  intros Hb Hbl. unfold blended in Hbl. unfold tensors_eq.
  induction Hbl as [|? ? ? ? ? ? Hrow _ IH]; constructor; [|exact IH].
  induction Hrow as [|? ? ? ? ? ? Hxyz _ IHr]; constructor; [|exact IHr].
  rewrite Hxyz, Hb. ring.
Qed.

(** X15. [soft_update] raises AssertionError exactly when [beta] is outside
    [0, 1]; otherwise, on networks whose parameter tensors pair up with
    equal shapes, it returns the target with its buffers untouched and every
    parameter tensor [beta * target + (1 - beta) * source]; with the default
    [beta = 1] every parameter keeps its values. *)
Theorem soft_update_spec (source target : Network) (beta : Q) :
  (~ (0 <= beta /\ beta <= 1)%Q -> soft_update source target beta = Raise AssertionError) /\
  ((0 <= beta /\ beta <= 1)%Q ->
   same_shape (parameters target) (parameters source) ->
   exists target',
     soft_update source target beta = Ok target' /\
     buffers target' = buffers target /\
     length (parameters target') = length (parameters target) /\
     blended beta (parameters source) (parameters target) (parameters target') /\
     ((beta == 1)%Q -> tensors_eq (parameters target') (parameters target))).
Proof.
  unfold soft_update. split.
  - intros Hout.
    destruct (Qle_bool 0 beta) eqn:H0; [|reflexivity].
    destruct (Qle_bool beta 1) eqn:H1; [|reflexivity].
    apply Qle_bool_iff in H0. apply Qle_bool_iff in H1. tauto.
  - intros [H0 H1] Hshape. apply Qle_bool_iff in H0. apply Qle_bool_iff in H1.
    rewrite H0, H1. simpl. eexists. split; [reflexivity|]. simpl.
    split; [reflexivity|]. split; [apply blend_parameters_length|].
    split; [apply blend_parameters_blended, Hshape|].
    intros Hb. eapply blended_one; [exact Hb|].
    apply blend_parameters_blended, Hshape.
Qed.

(** ** [no_weight_gradients] *)

(** X16. For bodies that do not assign the flag themselves: the body runs
    with the flag set; after a body that ends normally the flag has its
    former value, also when the manager is nested in itself; after a body
    that raises the flag stays set, and a later normal use then restores
    "set", not the original value. *)
Theorem no_weight_gradients_flag {A B} (body : bool -> bool * Res A)
    (failing : bool -> bool * Res B) (old : bool) (a : A) (e : exn) :
  (forall flag, fst (body flag) = flag) ->
  (forall flag, fst (failing flag) = flag) ->
  snd (body true) = Ok a -> snd (failing true) = Raise e ->
  no_weight_gradients body old = (old, Ok a) /\
  no_weight_gradients (no_weight_gradients body) old = (old, Ok a) /\
  no_weight_gradients failing old = (true, Raise e) /\
  no_weight_gradients body (fst (no_weight_gradients failing false)) = (true, Ok a).
Proof.
  intros Hbody Hfail Hok Hraise.
  assert (H1 : no_weight_gradients body old = (old, Ok a)).
  { unfold no_weight_gradients. specialize (Hbody true).
    destruct (body true) as [flag r]. simpl in *. subst. reflexivity. }
  assert (H2 : no_weight_gradients failing false = (true, Raise e)
               /\ no_weight_gradients failing old = (true, Raise e)).
  { unfold no_weight_gradients. specialize (Hfail true).
    destruct (failing true) as [flag r]. simpl in *. subst. split; reflexivity. }
  destruct H2 as [H2 H3].
  split; [exact H1|]. split; [|split; [exact H3|]].
  - unfold no_weight_gradients at 1.
    assert (Ht : no_weight_gradients body true = (true, Ok a)).
    { unfold no_weight_gradients. specialize (Hbody true).
      destruct (body true) as [flag r]. simpl in *. subst. reflexivity. }
    rewrite Ht. reflexivity.
  - rewrite H2. simpl.
    unfold no_weight_gradients. specialize (Hbody true).
    destruct (body true) as [flag r]. simpl in *. subst. reflexivity.
Qed.

(** ** [Trainer.before_train] *)

(** X17. StyleGANv2ADA branch, lazy regularization for G only: the loop
    variables of the G pass are still bound in the D pass, so the branch ends
    normally and the discriminator gets the generator's pre-scaled learning
    rate and the generator's rescaled betas, not the plain ones. *)
Theorem before_train_D_inherits (E : Env) (e : Exp) (batch_size kg : Z) :
  G_reg_interval e = Some kg -> D_reg_interval e = None -> kg + 1 <> 0 ->
  let lr := (basic_lr_per_img e * inject_Z batch_size)%Q in
  let rg := (inject_Z kg / inject_Z (kg + 1))%Q in
  exists t,
    before_train E e batch_size = Ok t /\
    base_lr_G t = Some (lr * rg)%Q /\
    base_lr_D t = base_lr_G t /\
    cfg_generator (exp t) =
      mkOptimizerCfg (fpow E (beta1 (cfg_generator e)) rg)
                     (fpow E (beta2 (cfg_generator e)) rg) /\
    cfg_discriminator (exp t) = cfg_generator (exp t).
Proof.
  intros HG HD Hg. unfold before_train. rewrite HG, HD. simpl.
  apply Z.eqb_neq in Hg. rewrite Hg. simpl.
  eexists. split; [reflexivity|]. simpl. repeat split; reflexivity.
Qed.

(** X18. StyleGANv3 branch: as long as no interval is -1 the branch ends
    normally for every combination of configured and absent intervals.  A
    role without interval gets its plain learning rate and keeps its betas;
    a role with interval [k] gets the rate scaled by [k / (k + 1)] and betas
    that are the generator's original betas raised to that ratio. *)
Theorem before_train_v3_rates (E : Env) (e : ExpV3) (batch_size : Z) :
  v3_G_reg_interval e <> Some (-1) -> v3_D_reg_interval e <> Some (-1) ->
  let ratio k := (inject_Z k / inject_Z (k + 1))%Q in
  let scaled k := mkOptimizerCfg (fpow E (beta1 (v3_cfg_generator e)) (ratio k))
                                 (fpow E (beta2 (v3_cfg_generator e)) (ratio k)) in
  exists t,
    before_train_v3 E e batch_size = Ok t /\
    v3_base_lr_G t =
      Some match v3_G_reg_interval e with
           | None => (basic_glr_per_img e * inject_Z batch_size)%Q
           | Some k => (basic_glr_per_img e * inject_Z batch_size * ratio k)%Q
           end /\
    v3_base_lr_D t =
      Some match v3_D_reg_interval e with
           | None => (basic_dlr_per_img e * inject_Z batch_size)%Q
           | Some k => (basic_dlr_per_img e * inject_Z batch_size * ratio k)%Q
           end /\
    v3_cfg_generator (v3_exp t) =
      match v3_G_reg_interval e with
      | None => v3_cfg_generator e
      | Some k => scaled k
      end /\
    v3_cfg_discriminator (v3_exp t) =
      match v3_D_reg_interval e with
      | None => v3_cfg_discriminator e
      | Some k => scaled k
      end.
Proof.
  intros HG HD. unfold before_train_v3.
  destruct (v3_G_reg_interval e) as [kg|] eqn:EG;
    destruct (v3_D_reg_interval e) as [kd|] eqn:ED; simpl.
  - destruct (Z.eqb_spec (kg + 1) 0) as [Hz|_]; [exfalso; apply HG; f_equal; lia|].
    simpl. destruct (Z.eqb_spec (kd + 1) 0) as [Hz|_]; [exfalso; apply HD; f_equal; lia|].
    simpl. eexists. split; [reflexivity|]. simpl. repeat split; reflexivity.
  - destruct (Z.eqb_spec (kg + 1) 0) as [Hz|_]; [exfalso; apply HG; f_equal; lia|].
    simpl. eexists. split; [reflexivity|]. simpl. repeat split; reflexivity.
  - destruct (Z.eqb_spec (kd + 1) 0) as [Hz|_]; [exfalso; apply HD; f_equal; lia|].
    simpl. eexists. split; [reflexivity|]. simpl. repeat split; reflexivity.
  - eexists. split; [reflexivity|]. simpl. repeat split; reflexivity.
Qed.

(** ** The epoch count and the iteration counters *)

(** X19. The number of epochs is the least one whose images cover
    [kimgs * 1000] when an epoch has at least one image; with an empty epoch
    ([train_steps * batch_size = 0]) the computation raises
    ZeroDivisionError. *)
Theorem compute_max_epoch_ceiling (kimgs train_steps batch_size : Z) :
  (train_steps * batch_size = 0 ->
   compute_max_epoch kimgs train_steps batch_size = Raise ZeroDivisionError) /\
  (0 < train_steps * batch_size ->
   exists max_epoch,
     compute_max_epoch kimgs train_steps batch_size = Ok max_epoch /\
     (max_epoch - 1) * (train_steps * batch_size) < kimgs * 1000
       <= max_epoch * (train_steps * batch_size)).
Proof.
  unfold compute_max_epoch, floordiv, pymod. cbv zeta. split.
  - intros ->. reflexivity.
  - intros Hpos. set (one := train_steps * batch_size) in *.
    destruct (Z.eqb_spec one 0) as [Hz|_]; [lia|]. simpl.
    pose proof (Z.div_mod (kimgs * 1000) one ltac:(lia)) as Hdm.
    pose proof (Z.mod_pos_bound (kimgs * 1000) one Hpos) as Hb.
    destruct (Z.eqb_spec ((kimgs * 1000) mod one) 0) as [Hr|Hr]; simpl;
      eexists; (split; [reflexivity|]); nia.
Qed.

(** X20. Inside the two loops ([0 <= epoch < max_epoch],
    [0 <= iter < max_iter]) the [left_iters] of [after_iter] is never
    negative, is 0 exactly at the last iteration of the last epoch, and
    drops by one from each iteration to the next one run, within an epoch
    and across an epoch boundary. *)
Theorem left_iters_countdown (max_iter max_epoch epoch iter : Z) :
  0 <= epoch < max_epoch -> 0 <= iter < max_iter ->
  0 <= left_iters max_iter max_epoch epoch iter /\
  (left_iters max_iter max_epoch epoch iter = 0 <->
   epoch = max_epoch - 1 /\ iter = max_iter - 1) /\
  (iter + 1 < max_iter ->
   left_iters max_iter max_epoch epoch (iter + 1) =
   left_iters max_iter max_epoch epoch iter - 1) /\
  (iter + 1 = max_iter ->
   left_iters max_iter max_epoch (epoch + 1) 0 =
   left_iters max_iter max_epoch epoch iter - 1).
Proof.
  intros He Hi. unfold left_iters, progress_in_iter.
  split; [nia|]. split; [|split; intros; nia].
  split; [|intros [-> ->]; ring].
  intros H0. assert (Hep : epoch = max_epoch - 1) by nia. subst epoch. split; [reflexivity|nia].
Qed.

(** ** Style mixing in [run_G] *)

Lemma mix_row_lookup {A} (n : nat) (w w2 : list A) (i : nat) :
  length w = length w2 ->
  (take n w ++ drop n w2) !! i = if (i <? n)%nat then w !! i else w2 !! i.
Proof.
  intros Hlen. destruct (Nat.ltb_spec i n) as [Hi|Hi].
  - destruct (Nat.lt_ge_cases i (length w)) as [Hw|Hw].
    + rewrite lookup_app_l by (rewrite length_take; lia).
      apply lookup_take_lt. exact Hi.
    + rewrite !lookup_ge_None_2; [reflexivity|lia|].
      rewrite length_app, length_take, length_drop. lia.
  - destruct (Nat.lt_ge_cases i (length w)) as [Hw|Hw].
    + rewrite lookup_app_r by (rewrite length_take; lia).
      rewrite length_take, lookup_drop. f_equal. lia.
    + rewrite !lookup_ge_None_2; [reflexivity|lia|].
      rewrite length_app, length_take, length_drop. lia.
Qed.

Lemma mix_styles_all_layers (n : nat) (ws ws2 : Ws) :
  Forall2 (fun w w2 => length w = n /\ length w2 = n) ws ws2 ->
  mix_styles (Z.of_nat n) ws ws2 = ws.
Proof.
  unfold mix_styles. rewrite Nat2Z.id.
  induction 1 as [|w w2 ws ws2 [Hw Hw2] _ IH]; [reflexivity|].
  simpl. rewrite IH. f_equal.
  rewrite take_ge, drop_ge by lia. apply app_nil_r.
Qed.

(** X21. With style mixing enabled, style codes of at least two layers and
    the crossover point drawn in its range [1, layers), [run_G] returns, for
    every sample, the layers before the crossover from the first mapping
    pass and the layers from the crossover on from the second pass, the
    crossover being the random draw when the coin flip succeeds and the
    layer count otherwise; in the latter case the style codes of the first
    pass come back unchanged. *)
Theorem run_G_style_mixing (E : Env) (m : Model) (z : Tensor) (c : LabelArg) (sync : bool) :
  let ws := mapping_forward E (mapping m) z c false in
  let ws2 := mapping_forward E (mapping m) (randn_like E z) c true in
  let cutoff :=
    if Qlt_bool (rand E) (style_mixing_prob m) then random_ E 1 (shape1 ws)
    else shape1 ws in
  (0 < style_mixing_prob m)%Q ->
  1 < shape1 ws ->
  1 <= random_ E 1 (shape1 ws) < shape1 ws ->
  Forall2 (fun w w2 => shape0 w = shape1 ws /\ shape0 w2 = shape1 ws) ws ws2 ->
  (forall s w w2, ws !! s = Some w -> ws2 !! s = Some w2 ->
     exists mixed,
       snd (run_G E m z c sync) !! s = Some mixed /\
       forall i, mixed !! i = if Z.of_nat i <? cutoff then w !! i else w2 !! i) /\
  (~ (rand E < style_mixing_prob m)%Q -> snd (run_G E m z c sync) = ws).
Proof.
  intros ws ws2 cutoff Hp Hlayers Hdraw Hshape.
  assert (Hrun : snd (run_G E m z c sync) = mix_styles cutoff ws ws2).
  { unfold run_G. apply Qlt_bool_true in Hp. rewrite Hp. reflexivity. }
  assert (Hcut : 0 <= cutoff).
  { unfold cutoff. destruct (Qlt_bool _ _); lia. }
  split.
  - intros s w w2 Hw Hw2. rewrite Hrun. unfold mix_styles.
    exists (take (Z.to_nat cutoff) w ++ drop (Z.to_nat cutoff) w2). split.
    + apply lookup_zip_with_Some. exists w, w2. auto.
    + intros i. rewrite mix_row_lookup.
      * destruct (Nat.ltb_spec i (Z.to_nat cutoff)), (Z.ltb_spec (Z.of_nat i) cutoff);
          try reflexivity; lia.
      * eapply Forall2_lookup_lr in Hshape; [|exact Hw|exact Hw2].
        unfold shape0 in Hshape. lia.
  - intros Hno. rewrite Hrun. unfold cutoff.
    destruct (Qlt_bool (rand E) (style_mixing_prob m)) eqn:Hb.
    + apply Qlt_bool_true in Hb. contradiction.
    + assert (Hn : shape1 ws = Z.of_nat (Z.to_nat (shape1 ws))) by lia.
      rewrite Hn at 1. apply mix_styles_all_layers.
      eapply Forall2_impl; [exact Hshape|].
      intros w w2 [H1 H2]. unfold shape0 in *. lia.
Qed.

(** ** The image conversion of [test_iter] and [style_mixing] *)

Lemma clamp_cases (y : Q) :
  ((y < 0)%Q /\ clamp y 0 255 = 0%Q) \/
  ((0 <= y <= 255)%Q /\ clamp y 0 255 = y) \/
  ((255 < y)%Q /\ clamp y 0 255 = 255%Q).
Proof.
  unfold clamp, pymax. destruct (Qlt_bool y 0) eqn:H0.
  - apply Qlt_bool_true in H0. left. split; [exact H0|]. reflexivity.
  - apply Qlt_bool_false in H0. unfold pymin. destruct (Qlt_bool 255 y) eqn:H1.
    + apply Qlt_bool_true in H1. right. right. split; [exact H1|reflexivity].
    + apply Qlt_bool_false in H1. right. left. split; [split; assumption|reflexivity].
Qed.

Lemma to_uint8_floor (x : Q) : (0 <= x)%Q -> to_uint8 x = Qfloor x.
Proof.
  intros H. unfold to_uint8, Qfloor. destruct x as [n d]. simpl.
  apply Z.quot_div_nonneg; [|lia].
  unfold Qle in H. simpl in H. lia.
Qed.

Lemma Qfloor_between (x : Q) (v : Z) :
  (inject_Z v <= x)%Q -> (x < inject_Z (v + 1))%Q -> Qfloor x = v.
Proof.
  intros Hlo Hhi.
  pose proof (Qfloor_resp_le _ _ Hlo) as H1. rewrite Qfloor_Z in H1.
  pose proof (Qfloor_le x) as H2.
  assert (H3 : (inject_Z (Qfloor x) < inject_Z (v + 1))%Q) by (eapply Qle_lt_trans; eassumption).
  rewrite <- Zlt_Qlt in H3. lia.
Qed.

Lemma to_pixel_range (x : Q) : 0 <= to_pixel x <= 255.
Proof.
  unfold to_pixel.
  destruct (clamp_cases (x * (255 # 2) + 128)) as [[_ ->]|[[[Hlo Hhi] ->]|[_ ->]]].
  - vm_compute. split; discriminate.
  - rewrite to_uint8_floor by exact Hlo.
    apply Qfloor_resp_le in Hlo, Hhi.
    change 0%Q with (inject_Z 0) in Hlo. change 255%Q with (inject_Z 255) in Hhi.
    rewrite Qfloor_Z in Hlo, Hhi. lia.
  - vm_compute. split; discriminate.
Qed.

Lemma to_pixel_normalized (v : Z) :
  0 <= v <= 255 -> to_pixel (inject_Z v / (255 # 2) - 1)%Q = v.
Proof.
  intros [Hlo Hhi]. unfold to_pixel.
  set (y := ((inject_Z v / (255 # 2) - 1) * (255 # 2) + 128)%Q).
  assert (Hy : (y == inject_Z v + (1 # 2))%Q) by (unfold y; field).
  assert (Hv0 : (inject_Z 0 <= inject_Z v)%Q) by (rewrite <- Zle_Qle; exact Hlo).
  assert (Hv1 : (inject_Z v <= inject_Z 255)%Q) by (rewrite <- Zle_Qle; exact Hhi).
  change (inject_Z 0) with 0%Q in Hv0. change (inject_Z 255) with 255%Q in Hv1.
  destruct (clamp_cases y) as [[Hneg _]|[[[H0 H255] ->]|[Hbig ->]]].
  - exfalso. rewrite Hy in Hneg. lra.
  - rewrite to_uint8_floor by exact H0. apply Qfloor_between.
    + rewrite Hy. lra.
    + rewrite Hy, inject_Z_plus. change (inject_Z 1) with 1%Q. lra.
  - assert (Hge : (inject_Z 254 < inject_Z v)%Q).
    { change (inject_Z 254) with 254%Q. rewrite Hy in Hbig. lra. }
    rewrite <- Zlt_Qlt in Hge. assert (v = 255) by lia. subst v. reflexivity.
Qed.

(** X22. Every converted pixel value lies in 0..255, and the conversion
    undoes the normalization of the training batches: an image of integer
    values 0..255, normalized by [/ 127.5 - 1] as in [train_iter] and
    converted by [* 127.5 + 128], [clamp(0, 255)] and the cast to uint8,
    gives back the integer values. *)
Theorem to_pixel_undoes_normalize (img : list (list Z)) :
  Forall (Forall (fun v => 0 <= v <= 255)) img ->
  map (map to_pixel) (normalize (map (map inject_Z) img)) = img /\
  forall t : Tensor, Forall (Forall (fun v => 0 <= v <= 255)) (map (map to_pixel) t).
Proof.
  intros Himg. split.
  - unfold normalize. induction Himg as [|row img Hrow _ IH]; [reflexivity|].
    simpl. rewrite IH. f_equal.
    induction Hrow as [|v row Hv _ IHr]; [reflexivity|].
    simpl. rewrite IHr, to_pixel_normalized by exact Hv. reflexivity.
  - intros t. apply Forall_forall. intros row Hrow.
    apply list_elem_of_fmap in Hrow. destruct Hrow as (r & -> & _).
    apply Forall_forall. intros v Hv.
    apply list_elem_of_fmap in Hv. destruct Hv as (x & -> & _).
    apply to_pixel_range.
Qed.

Lemma mapM_Ok_Forall2 {A B} (f : A -> Res B) (l : list A) (l' : list B) :
  Forall2 (fun a b => f a = Ok b) l l' -> mapM f l = Ok l'.
Proof.
  induction 1 as [|a b l l' Hab _ IH]; [reflexivity|].
  simpl. rewrite Hab. simpl. rewrite IH. reflexivity.
Qed.

Lemma mapM_Raise {A B} (f : A -> Res B) (l : list A) (e : exn) :
  (forall a e', f a = Raise e' -> e' = e) ->
  Exists (fun a => exists e', f a = Raise e') l -> mapM f l = Raise e.
Proof.
  intros Hf. induction l as [|a l IH]; intros Hex; [inversion Hex|].
  simpl. destruct (f a) as [b|e'] eqn:Hfa; simpl.
  - assert (Hl : Exists (fun a => exists e', f a = Raise e') l).
    { inversion Hex as [? ? [e' He']|]; subst; [congruence|assumption]. }
    rewrite (IH Hl). reflexivity.
  - f_equal. eapply Hf, Hfa.
Qed.

Lemma select_bgr_Raise {A} (pixel : list A) (e : exn) :
  select_bgr pixel = Raise e -> e = IndexError /\ (length pixel < 3)%nat.
Proof.
  destruct pixel as [|c0 [|c1 [|c2 rest]]]; simpl; intros [= <-]; split;
    try reflexivity; lia.
Qed.

(** X23. The conversion to a BGR image succeeds when every pixel has at
    least three channels, keeps height and width, and gives for a pixel
    [r, g, b, ...] the three values [to_pixel b, to_pixel g, to_pixel r];
    an image with a pixel of fewer than three channels raises IndexError. *)
Theorem to_bgr_image_channels (img : list (list (list Q))) :
  (Forall (Forall (fun pixel => (3 <= length pixel)%nat)) img ->
   exists out,
     to_bgr_image img = Ok out /\
     Forall2 (Forall2 (fun pixel o =>
        exists r g b rest, pixel = r :: g :: b :: rest /\
                           o = [to_pixel b; to_pixel g; to_pixel r])) img out) /\
  (Exists (Exists (fun pixel => (length pixel < 3)%nat)) img ->
   to_bgr_image img = Raise IndexError).
Proof.
  unfold to_bgr_image. split.
  - intros Himg.
    assert (Hrow : forall row, Forall (fun pixel => (3 <= length pixel)%nat) row ->
      exists out,
        mapM (fun pixel => select_bgr (map to_pixel pixel)) row = Ok out /\
        Forall2 (fun pixel o =>
          exists r g b rest, pixel = r :: g :: b :: rest /\
                             o = [to_pixel b; to_pixel g; to_pixel r]) row out).
    { intros row Hrow. induction Hrow as [|pixel row Hpx _ (out & Hout & Hall)].
      - exists []. split; [reflexivity|constructor].
      - destruct pixel as [|r [|g [|b rest]]]; simpl in Hpx; try lia.
        exists ([to_pixel b; to_pixel g; to_pixel r] :: out). simpl. rewrite Hout.
        split; [reflexivity|]. constructor; [|exact Hall]. eauto 6. }
    induction Himg as [|row img Hr _ (out & Hout & Hall)].
    + exists []. split; [reflexivity|constructor].
    + destruct (Hrow row Hr) as (orow & Horow & Hallrow).
      exists (orow :: out). simpl. rewrite Horow. simpl. rewrite Hout.
      split; [reflexivity|]. constructor; assumption.
  - intros Hex. apply mapM_Raise.
    + intros row e' He'. revert e' He'.
      induction row as [|pixel row IH]; intros e' He'; simpl in He'; [discriminate|].
      destruct (select_bgr (map to_pixel pixel)) as [o|e0] eqn:Hsel; simpl in He'.
      * destruct (mapM _ row) as [os|e1]; simpl in He'; [discriminate|].
        injection He' as <-. apply IH. reflexivity.
      * injection He' as <-. apply select_bgr_Raise in Hsel. apply Hsel.
    + eapply Exists_impl; [exact Hex|]. intros row Hrow. exists IndexError.
      apply mapM_Raise.
      * intros pixel e' He'. apply select_bgr_Raise in He'. apply He'.
      * eapply Exists_impl; [exact Hrow|]. intros pixel Hpx. exists IndexError.
        destruct pixel as [|c0 [|c1 [|c2 rest]]]; simpl in *; try reflexivity; lia.
Qed.

(** ** The style replacement of [style_mixing] *)

Lemma py_index_Ok (n : nat) (i : Z) (k : nat) :
  py_index n i = Ok k <->
  - Z.of_nat n <= i < Z.of_nat n /\
  Z.of_nat k = (if i <? 0 then i + Z.of_nat n else i).
Proof.
  unfold py_index.
  destruct (Z.ltb_spec i (- Z.of_nat n)), (Z.leb_spec (Z.of_nat n) i); simpl;
    try (split; [discriminate|lia]).
  split.
  - intros [= <-]. split; [lia|]. destruct (Z.ltb_spec i 0); lia.
  - intros [_ Hk]. f_equal. destruct (Z.ltb_spec i 0); lia.
Qed.

Lemma py_index_Raise (n : nat) (i : Z) (e : exn) :
  py_index n i = Raise e -> e = IndexError /\ (i < - Z.of_nat n \/ Z.of_nat n <= i).
Proof.
  unfold py_index.
  destruct (Z.ltb_spec i (- Z.of_nat n)), (Z.leb_spec (Z.of_nat n) i); simpl;
    try discriminate; intros [= <-]; split; try reflexivity; lia.
Qed.

Lemma gather_Ok {A} (t : list A) (indices : list Z) :
  Forall (fun i => - Z.of_nat (length t) <= i < Z.of_nat (length t)) indices ->
  exists values,
    gather t indices = Ok values /\
    Forall2 (fun i v => exists k, py_index (length t) i = Ok k /\ t !! k = Some v)
            indices values.
Proof.
  unfold gather. induction 1 as [|i indices Hi _ (values & Hv & Hall)].
  - exists []. split; [reflexivity|constructor].
  - assert (Hk : exists k, py_index (length t) i = Ok k /\ (k < length t)%nat).
    { exists (Z.to_nat (if i <? 0 then i + Z.of_nat (length t) else i)).
      split; [apply py_index_Ok; split; [exact Hi|]|]; destruct (Z.ltb_spec i 0); lia. }
    destruct Hk as (k & Hk & Hlt).
    destruct (lookup_lt_is_Some_2 t k Hlt) as [v Hv'].
    exists (v :: values). simpl. rewrite Hk. simpl. rewrite Hv'. simpl. rewrite Hv.
    split; [reflexivity|]. constructor; eauto.
Qed.

Lemma gather_Raise {A} (t : list A) (indices : list Z) :
  Exists (fun i => i < - Z.of_nat (length t) \/ Z.of_nat (length t) <= i) indices ->
  gather t indices = Raise IndexError.
Proof.
  intros Hex. unfold gather. apply mapM_Raise.
  - intros i e'. destruct (py_index (length t) i) as [k|e0] eqn:Hk; simpl.
    + destruct (t !! k); [discriminate|]. intros [= <-]. reflexivity.
    + intros [= <-]. apply py_index_Raise in Hk. apply Hk.
  - eapply Exists_impl; [exact Hex|]. intros i Hi. exists IndexError.
    destruct (py_index (length t) i) as [k|e0] eqn:Hk; simpl.
    + apply py_index_Ok in Hk. destruct Hk as [Hk _]. cbv beta in Hi. lia.
    + apply py_index_Raise in Hk. destruct Hk as [-> _]. reflexivity.
Qed.

Lemma scatter_Ok {A} (src : list A) (n : nat) (indices : list Z) (values : list A) :
  Forall2 (fun i v => exists k, py_index n i = Ok k /\ src !! k = Some v) indices values ->
  forall t, length t = n ->
  exists t',
    scatter t indices values = Ok t' /\ length t' = n /\
    forall p,
      (t !! p = src !! p -> t' !! p = src !! p) /\
      ((exists i, In i indices /\ py_index n i = Ok p) -> t' !! p = src !! p) /\
      ((forall i, In i indices -> py_index n i <> Ok p) -> t' !! p = t !! p).
Proof.
  induction 1 as [|i v indices values (k & Hk & Hv) _ IH]; intros t Hlen.
  - exists t. split; [reflexivity|]. split; [exact Hlen|]. intros p.
    split; [auto|]. split; [intros (i & [] & _)|reflexivity].
  - destruct (IH (<[k := v]> t)) as (t' & Hs & Hlen' & Hp).
    { rewrite length_insert. exact Hlen. }
    exists t'. simpl. rewrite Hlen, Hk. simpl. split; [exact Hs|]. split; [exact Hlen'|].
    assert (Hkn : (k < length t)%nat).
    { apply py_index_Ok in Hk. destruct (Z.ltb_spec i 0); lia. }
    assert (Hone : forall p, t !! p = src !! p \/ k = p -> <[k := v]> t !! p = src !! p).
    { intros p Hcase. destruct (Nat.eq_dec k p) as [<-|Hne].
      - rewrite list_lookup_insert_eq by exact Hkn. symmetry. exact Hv.
      - rewrite list_lookup_insert_ne by exact Hne. destruct Hcase; [assumption|contradiction]. }
    intros p. destruct (Hp p) as (Hp1 & Hp2 & Hp3). split; [|split].
    + intros Heq. apply Hp1, Hone. left. exact Heq.
    + intros (i0 & [<-|Hin] & Hi0).
      * apply Hp1, Hone. right. congruence.
      * apply Hp2. eauto.
    + intros Hno. rewrite Hp3.
      * apply list_lookup_insert_ne. intros <-. apply (Hno i); [left; reflexivity|exact Hk].
      * intros i0 Hin. apply Hno. right. exact Hin.
Qed.

(** X24. For two style vectors with the same number of layers and indices
    [i] with [-n <= i < n], the replacement succeeds, keeps the number of
    layers, takes every layer named by an index (a negative one counting
    from the end) from the column vector and every other layer from the row
    vector; an index outside that range raises IndexError. *)
Theorem mix_w_layers {A} (w_row w_col : list A) (col_styles : list Z) :
  length w_row = length w_col ->
  let n := Z.of_nat (length w_row) in
  (Forall (fun i => - n <= i < n) col_styles ->
   exists w,
     mix_w w_row w_col col_styles = Ok w /\
     length w = length w_row /\
     forall p : nat,
       ((exists i, In i col_styles /\ (i = Z.of_nat p \/ i = Z.of_nat p - n)) ->
        w !! p = w_col !! p) /\
       ((forall i, In i col_styles -> i <> Z.of_nat p /\ i <> Z.of_nat p - n) ->
        w !! p = w_row !! p)) /\
  (Exists (fun i => i < - n \/ n <= i) col_styles ->
   mix_w w_row w_col col_styles = Raise IndexError).
Proof.
  intros Hlen n. unfold mix_w. split.
  - intros Hidx.
    destruct (gather_Ok w_col col_styles) as (values & Hg & Hall).
    { unfold n in Hidx. rewrite Hlen in Hidx. exact Hidx. }
    rewrite Hg. simpl. rewrite <- Hlen in Hall.
    destruct (scatter_Ok w_col (length w_row) col_styles values Hall w_row eq_refl)
      as (w & Hs & Hlw & Hp).
    exists w. split; [exact Hs|]. split; [exact Hlw|].
    intros p. destruct (Hp p) as (_ & Hp2 & Hp3). split.
    + intros (i & Hin & Hi).
      destruct (Nat.lt_ge_cases p (length w_row)) as [Hlt|Hge].
      * apply Hp2. exists i. split; [exact Hin|]. apply py_index_Ok.
        rewrite Forall_forall in Hidx. apply list_elem_of_In, Hidx in Hin.
        split; [exact Hin|]. unfold n in *. destruct (Z.ltb_spec i 0); lia.
      * rewrite !lookup_ge_None_2; [reflexivity|lia|lia].
    + intros Hno. apply Hp3. intros i Hin Hi. apply py_index_Ok in Hi.
      destruct (Hno i Hin) as [H1 H2]. unfold n in *.
      destruct (Z.ltb_spec i 0); lia.
  - intros Hex. rewrite gather_Raise; [reflexivity|].
    unfold n in Hex. rewrite Hlen in Hex. exact Hex.
Qed.

(** ** The further properties on concrete inputs *)

Lemma accumulate_gradients_losses_witness :
  exists m' l,
    accumulate_gradients demo_E demo_m (demo_acc "Gmain" (Some demo_d)) = Ok (m', l) /\
    is_Some (l !! "loss_Gmain") /\ ~ is_Some (l !! "loss_Dreal").
Proof.
  eassert (H : accumulate_gradients demo_E demo_m (demo_acc "Gmain" (Some demo_d))
               = Ok (_, _)) by reflexivity.
  eexists _, _. split; [exact H|].
  destruct (accumulate_gradients_losses _ _ _ _ _ H) as (HG & _ & _ & HD & _).
  split.
  - apply HG. left. reflexivity.
  - intros Hs. apply HD in Hs. destruct Hs as [Hs|Hs]; discriminate Hs.
Defined.

Lemma accumulate_gradients_effects_witness :
  exists m' l,
    accumulate_gradients demo_E demo_m (demo_acc "Dmain" (Some demo_d)) = Ok (m', l) /\
    Loss_signs_real m' = [[-1; -1]%Q] /\ pl_mean m' = None.
Proof.
  eassert (H : accumulate_gradients demo_E demo_m (demo_acc "Dmain" (Some demo_d))
               = Ok (_, _)) by reflexivity.
  eexists _, _. split; [exact H|].
  destruct (accumulate_gradients_effects _ _ _ _ _ H) as (Hs & Hpl & _).
  split; [exact Hs | exact (Hpl eq_refl)].
Defined.

Lemma accumulate_gradients_guards_witness :
  accumulate_gradients demo_E demo_m (demo_acc "Gfoo" (Some demo_d)) = Raise AssertionError /\
  discriminator (init demo_args_no_disc) = None /\
  exists m' l,
    accumulate_gradients demo_E (init demo_args_no_disc) (demo_acc "Greg" (Some demo_d))
    = Ok (m', l) /\
    do_Gmain "Greg" = false /\ do_Dmain "Greg" = false.
Proof.
  split.
  - apply (proj1 (accumulate_gradients_guards demo_E demo_m
                    (demo_acc "Gfoo" (Some demo_d)))).
    reflexivity.
  - split; [reflexivity|].
    eassert (H : accumulate_gradients demo_E (init demo_args_no_disc)
                   (demo_acc "Greg" (Some demo_d)) = Ok (_, _)) by reflexivity.
    eexists _, _. split; [exact H|].
    destruct (proj2 (accumulate_gradients_guards demo_E (init demo_args_no_disc)
                       (demo_acc "Greg" (Some demo_d))) _ _ H) as (_ & Hnone).
    destruct (Hnone eq_refl) as (HG & HD & _). split; [exact HG | exact HD].
Defined.

Lemma accumulate_gradients_zero_shrink_witness :
  accumulate_gradients demo_E (init demo_args_shrink0) (demo_acc "Greg" (Some demo_d)) =
  Raise ZeroDivisionError.
Proof.
  apply accumulate_gradients_zero_shrink; reflexivity.
Defined.

Lemma train_iter_counts_witness :
  exists m' losses trace,
    train_iter demo_E demo_m demo_in 0 = Ok (m', losses, trace) /\
    batch_idx m' = batch_idx demo_m + 1 /\
    exists d img,
      files demo_E !! npz_path demo_E demo_m 0 = Some d /\
      d !! "phase_real_img" = Some img /\
      cur_nimg m' = cur_nimg demo_m + shape0 img.
Proof.
  destruct demo_run as (m' & losses & trace & H).
  exists m', losses, trace. split; [exact H|].
  destruct (train_iter_counts _ _ _ _ _ _ _ H) as (Hb & _ & Hn).
  split; [exact Hb | exact (Hn eq_refl)].
Defined.

Lemma train_iter_losses_match_witness :
  exists m' losses trace,
    train_iter demo_E demo_m demo_in 0 = Ok (m', losses, trace) /\
    forall key, is_Some (losses !! key) ->
                In key ["loss_Gmain"; "loss_Gpl"; "loss_Dgen"; "loss_Dreal"; "loss_Dr1"].
Proof.
  destruct demo_run as (m' & losses & trace & H).
  exists m', losses, trace. split; [exact H|].
  exact (proj2 (train_iter_losses_match _ _ _ _ _ _ _ H)).
Defined.

Lemma train_iter_trains_on_images_witness :
  exists m' losses trace,
    train_iter demo_E demo_m demo_in 0 = Ok (m', losses, trace) /\
    cur_nimg demo_m < cur_nimg m'.
Proof.
  destruct demo_run as (m' & losses & trace & H).
  exists m', losses, trace. split; [exact H|].
  exact (train_iter_trains_on_images demo_E demo_m demo_in 0 m' losses trace
           (Some 4) (Some 16) eq_refl H).
Defined.

Lemma train_iter_main_losses_witness :
  exists m' losses trace,
    train_iter demo_E demo_m demo_in 0 = Ok (m', losses, trace) /\
    is_Some (losses !! "loss_Gmain") /\ is_Some (losses !! "loss_Dgen") /\
    is_Some (losses !! "loss_Dreal").
Proof.
  destruct demo_run as (m' & losses & trace & H).
  exists m', losses, trace. split; [exact H|].
  apply (train_iter_main_losses demo_E demo_m demo_in 0 m' losses trace
           (Some demo_d) (normalize (replicate 2 [255; 0]%Q))
           (replicate 8 [0; 0; 0; 0]%Q) (Some 4) (Some 16) eq_refl H).
  - exact demo_load_batch.
  - discriminate.
  - exact demo_draw_gen_z.
  - reflexivity.
  - reflexivity.
Defined.

Lemma train_iter_intervals_nonzero_witness :
  exists m' losses trace,
    train_iter demo_E demo_m demo_in 0 = Ok (m', losses, trace) /\
    Forall (fun phase => interval phase <> 0) (phases demo_m).
Proof.
  destruct demo_run as (m' & losses & trace & H).
  exists m', losses, trace. split; [exact H|].
  apply (train_iter_intervals_nonzero demo_E demo_m demo_in 0 m' losses trace
           (Some demo_d) (normalize (replicate 2 [255; 0]%Q))
           (replicate 8 [0; 0; 0; 0]%Q) H).
  - exact demo_load_batch.
  - discriminate.
  - exact demo_draw_gen_z.
  - reflexivity.
  - reflexivity.
Defined.

Lemma train_iter_ada_needs_target_witness :
  exists m' losses trace,
    train_iter demo_E demo_m demo_in 0 = Ok (m', losses, trace) /\
    (exists t, ada_target demo_m = Some t) /\ Loss_signs_real m' = [].
Proof.
  destruct demo_run as (m' & losses & trace & H).
  exists m', losses, trace. split; [exact H|].
  exact (train_iter_ada_needs_target demo_E demo_m demo_in 0 m' losses trace
           (mkAugmentPipe 0) H eq_refl eq_refl eq_refl).
Defined.

Lemma train_iter_ada_off_witness :
  exists m' losses trace,
    train_iter demo_E (init demo_args_ada_off) demo_in 0 = Ok (m', losses, trace) /\
    augment_pipe m' = Some (mkAugmentPipe 0) /\ Loss_signs_real m' = [].
Proof.
  eassert (Hf : final_model (train_iter demo_E (init demo_args_ada_off) demo_in 0) = Some _)
    by (vm_compute; reflexivity).
  apply final_model_Some in Hf. destruct Hf as (losses & trace & H).
  eexists _, losses, trace. split; [exact H|].
  exact (train_iter_ada_off _ _ _ _ _ _ _ H eq_refl).
Defined.

Lemma train_iter_round_arguments_witness :
  exists m' losses trace a,
    train_iter demo_E demo_m demo_in 0 = Ok (m', losses, trace) /\
    In (EvAccumulate a) trace /\ a_sync a = true /\
    a_real_c a = LabNoneList 1 /\ a_gen_c a = LabNone.
Proof.
  destruct demo_run as (m' & losses & trace & H).
  destruct (train_iter_due_phase_runs demo_E demo_m demo_in 0 m' losses trace
              (Some demo_d) (normalize (replicate 2 [255; 0]%Q))
              (replicate 8 [0; 0; 0; 0]%Q) (mkPhase "Gmain" 1) H)
    as (a & Hin & _).
  - exact demo_load_batch.
  - discriminate.
  - exact demo_draw_gen_z.
  - reflexivity.
  - reflexivity.
  - left. reflexivity.
  - reflexivity.
  - exists m', losses, trace, a. split; [exact H|]. split; [exact Hin|].
    destruct (train_iter_round_arguments _ _ _ _ _ _ _ a H Hin) as (Hs & _ & Hrc & Hgc).
    split; [exact Hs|]. split.
    + apply Hrc. simpl. lia.
    + apply (Hgc [[]; []] (replicate 3 [[]; []])); [reflexivity | simpl; lia].
Defined.

Lemma train_in_iter_counts_witness :
  exists m',
    train_in_iter demo_E 0 [demo_in] demo_m = Ok m' /\
    batch_idx m' = batch_idx demo_m + 1 /\ cur_nimg demo_m <= cur_nimg m'.
Proof.
  eassert (H : train_in_iter demo_E 0 [demo_in] demo_m = Ok _)
    by (vm_compute; reflexivity).
  eexists. split; [exact H|].
  exact (train_in_iter_counts _ _ _ _ _ H).
Defined.

Lemma train_iter_ema_structure_witness :
  exists m' losses trace,
    train_iter demo_E demo_m demo_in 0 = Ok (m', losses, trace) /\
    length (parameters (mapping_ema m')) = length (parameters (mapping_ema demo_m)) /\
    length (buffers (synthesis_ema m')) = length (buffers (synthesis_ema demo_m)).
Proof.
  destruct demo_run as (m' & losses & trace & H).
  exists m', losses, trace. split; [exact H|].
  destruct (train_iter_ema_structure _ _ _ _ _ _ _ H) as ((H1 & _ & _ & H4) & _).
  split; [exact H1 | exact H4].
Defined.

Lemma soft_update_spec_witness :
  soft_update demo_net demo_ema 2 = Raise AssertionError /\
  exists target',
    soft_update demo_net demo_ema (1 # 4) = Ok target' /\
    buffers target' = buffers demo_ema /\
    blended (1 # 4) (parameters demo_net) (parameters demo_ema) (parameters target').
Proof.
  split.
  - apply (proj1 (soft_update_spec demo_net demo_ema 2)).
    intros [_ H]. revert H. apply Qlt_not_le. reflexivity.
  - destruct (proj2 (soft_update_spec demo_net demo_ema (1 # 4)))
      as (target' & Hok & Hb & _ & Hbl).
    + split; discriminate.
    + repeat constructor.
    + exists target'. split; [exact Hok|]. split; [exact Hb|].
      apply Hbl.
Defined.

Lemma no_weight_gradients_flag_witness :
  no_weight_gradients (fun flag : bool => (flag, Ok 1)) false = (false, Ok 1) /\
  no_weight_gradients
    (fun flag : bool => (flag, Ok 1))
    (fst (no_weight_gradients (fun flag : bool => (flag, @Raise Z RuntimeError)) false))
  = (true, Ok 1).
Proof.
  destruct (no_weight_gradients_flag
              (fun flag : bool => (flag, Ok 1))
              (fun flag : bool => (flag, @Raise Z RuntimeError))
              false 1 RuntimeError)
    as (H1 & _ & _ & H4); try reflexivity.
  split; [exact H1 | exact H4].
Defined.

Lemma before_train_D_inherits_witness :
  exists t,
    before_train demo_E demo_exp 8 = Ok t /\
    base_lr_D t = base_lr_G t /\
    cfg_discriminator (exp t) = cfg_generator (exp t).
Proof.
  destruct (before_train_D_inherits demo_E demo_exp 8 4 eq_refl eq_refl)
    as (t & Hok & _ & Hlr & _ & Hcfg).
  - discriminate.
  - exists t. split; [exact Hok|]. split; [exact Hlr | exact Hcfg].
Defined.

Lemma before_train_v3_rates_witness :
  exists t,
    before_train_v3 demo_E demo_exp_v3 8 = Ok t /\
    v3_base_lr_G t = Some ((1 # 1000) * inject_Z 8)%Q /\
    v3_cfg_generator (v3_exp t) = v3_cfg_generator demo_exp_v3.
Proof.
  destruct (before_train_v3_rates demo_E demo_exp_v3 8)
    as (t & Hok & Hg & _ & Hcfg & _).
  - discriminate.
  - discriminate.
  - exists t. split; [exact Hok|]. split; [exact Hg | exact Hcfg].
Defined.

Lemma compute_max_epoch_ceiling_witness :
  compute_max_epoch 25 0 8 = Raise ZeroDivisionError /\
  exists max_epoch,
    compute_max_epoch 25 100 8 = Ok max_epoch /\
    (max_epoch - 1) * (100 * 8) < 25 * 1000 <= max_epoch * (100 * 8).
Proof.
  split.
  - apply (proj1 (compute_max_epoch_ceiling 25 0 8)). reflexivity.
  - apply (proj2 (compute_max_epoch_ceiling 25 100 8)). reflexivity.
Defined.

Lemma left_iters_countdown_witness :
  0 <= left_iters 10 3 2 9 /\
  (left_iters 10 3 2 9 = 0 <-> 2 = 3 - 1 /\ 9 = 10 - 1).
Proof.
  destruct (left_iters_countdown 10 3 2 9) as (H1 & H2 & _); [lia | lia |].
  split; [exact H1 | exact H2].
Defined.

Lemma run_G_style_mixing_witness :
  exists mixed,
    snd (run_G demo_E (set_style_mixing_prob (9 # 10) demo_m) [[0; 1]; [2; 3]]%Q LabNone true)
      !! 0%nat = Some mixed /\
    mixed !! 0%nat = Some [0; 1]%Q.
Proof.
  destruct (run_G_style_mixing demo_E (set_style_mixing_prob (9 # 10) demo_m)
              [[0; 1]; [2; 3]]%Q LabNone true) as [Hmix _].
  - reflexivity.
  - simpl. lia.
  - simpl. lia.
  - repeat constructor.
  - destruct (Hmix 0%nat [[0; 1]; [0; 1]]%Q [[0; 1]; [0; 1]]%Q eq_refl eq_refl)
      as (mixed & Hs & Hl).
    exists mixed. split; [exact Hs|]. exact (Hl 0%nat).
Defined.

Lemma to_pixel_undoes_normalize_witness :
  map (map to_pixel) (normalize (map (map inject_Z) [[0; 128; 255]])) = [[0; 128; 255]].
Proof.
  apply (to_pixel_undoes_normalize [[0; 128; 255]]).
  repeat constructor; lia.
Defined.

Lemma to_bgr_image_channels_witness :
  (exists out, to_bgr_image [[[1; 0; -1]%Q]] = Ok out /\ length out = 1%nat) /\
  to_bgr_image [[[1; 0]%Q]] = Raise IndexError.
Proof.
  split.
  - destruct (proj1 (to_bgr_image_channels [[[1; 0; -1]%Q]])) as (out & Hok & Hall).
    + repeat constructor.
    + exists out. split; [exact Hok|]. symmetry. exact (Forall2_length _ _ _ Hall).
  - apply (proj2 (to_bgr_image_channels [[[1; 0]%Q]])).
    repeat constructor.
Defined.

Lemma mix_w_layers_witness :
  (exists w,
      mix_w [10; 11; 12; 13] [20; 21; 22; 23] [0; -1] = Ok w /\
      w !! 3%nat = Some 23 /\ w !! 1%nat = Some 11) /\
  mix_w [10; 11; 12; 13] [20; 21; 22; 23] [4] = Raise IndexError.
Proof.
  split.
  - destruct (proj1 (mix_w_layers [10; 11; 12; 13] [20; 21; 22; 23] [0; -1] eq_refl))
      as (w & Hok & _ & Hp).
    + repeat constructor; simpl; lia.
    + exists w. split; [exact Hok|]. split.
      * apply (proj1 (Hp 3%nat)). exists (-1). split; [simpl; auto|]. right. reflexivity.
      * apply (proj2 (Hp 1%nat)). intros i [<-|[<-|[]]]; simpl; split; lia.
  - apply (proj2 (mix_w_layers [10; 11; 12; 13] [20; 21; 22; 23] [4] eq_refl)).
    constructor. simpl. lia.
Defined.
